(** * Diagonal Sudoku solver (solution.py): shallow embedding and verification

    The Python program keeps a puzzle as a dict from box names ("A1" .. "I9")
    to strings of candidate digits, mutates that dict in place and copies it
    before every trial assignment of the search.  The embedding follows the
    program:

    - Python strings are [string]; a character obtained by iterating a string
      is an [ascii];
    - a dict is an association list in insertion order ([Values]); the order
      is the one [values.keys()] iterates in, which [eliminate] depends on;
    - the functions that mutate one dict ([eliminate], [only_choice],
      [naked_twins], [reduce_puzzle]) are transformers of that dict's
      contents; the global list [assignments] is append-only and is carried
      as a written log;
    - [search], which copies dicts and mutates the copies, runs over a store
      of dict objects addressed by references;
    - the [while] loop and the recursion of [search] take fuel;
    - [display] returns the lines it prints. *)

From Stdlib Require Import List String Ascii Arith Bool Lia PeanoNat OrdersEx.
Import ListNotations.
Local Open Scope string_scope.
Local Open Scope list_scope.
Local Open Scope nat_scope.

Set Implicit Arguments.

(** ** Python strings *)

Module Str.

(** The characters of a string, as iterating over it yields them. *)
Definition chars (s : string) : list ascii := list_ascii_of_string s.

(** A one-character string. *)
Definition of_char (c : ascii) : string := String c EmptyString.

Definition len (s : string) : nat := String.length s.

(** [c in s] for a one-character [c]. *)
Definition contains (s : string) (c : ascii) : bool :=
  existsb (Ascii.eqb c) (chars s).

(** [s.replace(old, new)]: the non-overlapping occurrences of [old] in [s],
    found left to right, are replaced by [new]; an empty [old] matches
    before every character and at the end.  [skip] counts the characters
    of an occurrence still to be dropped. *)
Fixpoint replace_from (old new : string) (skip : nat) (s : string) : string :=
  match s with
  | EmptyString => EmptyString
  | String c s' =>
      match skip with
      | S k => replace_from old new k s'
      | O =>
          if String.prefix old s
          then new ++ replace_from old new (String.length old - 1) s'
          else String c (replace_from old new 0 s')
      end
  end.

Fixpoint interleave (new s : string) : string :=
  match s with
  | EmptyString => new
  | String c s' => new ++ String c (interleave new s')
  end.

Definition replace (s old new : string) : string :=
  match old with
  | EmptyString => interleave new s
  | _ => replace_from old new 0 s
  end.

(** What [replace] amounts to for a one-character [old] and an empty
    [new]: the character is filtered out. *)
Fixpoint remove_char (c : ascii) (s : string) : string :=
  match s with
  | EmptyString => EmptyString
  | String c' s' =>
      if Ascii.eqb c c' then remove_char c s' else String c' (remove_char c s')
  end.

(** A candidate string as the program builds them: digits 1-9 in strictly
    increasing order. *)
Fixpoint increasing (l : list nat) : bool :=
  match l with
  | a :: (b :: _) as t => (a <? b) && increasing t
  | _ => true
  end.

Definition is_digit (c : ascii) : bool :=
  existsb (Ascii.eqb c) (chars "123456789").

Definition candidate (s : string) : bool :=
  forallb is_digit (chars s) && increasing (map nat_of_ascii (chars s)).

(** [s'] holds no character that [s] does not hold, and is no longer. *)
Definition shrinks (s' s : string) : Prop :=
  (forall c, contains s' c = true -> contains s c = true) /\ len s' <= len s.

End Str.

(** ** Python dicts of strings, in insertion order *)

Definition Values := list (string * string).

Module Dict.

(** [values[box]].  Python raises KeyError when the key is absent; the
    model yields the empty string there.  The statements below are about
    dicts that hold the 81 boxes, in which no absent key is ever read. *)
Fixpoint get (values : Values) (box : string) : string :=
  match values with
  | [] => EmptyString
  | (k, v) :: rest => if String.eqb k box then v else get rest box
  end.

(** [values[box] = value]: an existing key keeps its place, a new key is
    appended. *)
Fixpoint set (values : Values) (box value : string) : Values :=
  match values with
  | [] => [(box, value)]
  | (k, v) :: rest =>
      if String.eqb k box then (k, value) :: rest
      else (k, v) :: set rest box value
  end.

Definition keys (values : Values) : list string := map fst values.
Definition values_of (values : Values) : list string := map snd values.
Definition items (values : Values) : list (string * string) := values.

(** A dict is truthy when it is not empty. *)
Definition truthy (values : Values) : bool :=
  match values with [] => false | _ => true end.

(** [{k: v for (k, v) in pairs}]. *)
Definition of_pairs (pairs : list (string * string)) : Values :=
  fold_left (fun d kv => set d (fst kv) (snd kv)) pairs [].

End Dict.

Notation "values .[ box ]" := (Dict.get values box)
  (at level 1, left associativity, format "values .[ box ]").
Notation "values .[ box <- v ]" := (Dict.set values box v)
  (at level 1, left associativity, format "values .[ box  <-  v ]").

(** [Counter(l).items()]: each distinct element with its number of
    occurrences, in order of first occurrence. *)
Fixpoint counter_add (k : string) (c : list (string * nat)) : list (string * nat) :=
  match c with
  | [] => [(k, 1)]
  | (k', n) :: rest =>
      if String.eqb k' k then (k', S n) :: rest else (k', n) :: counter_add k rest
  end.

Definition Counter (l : list string) : list (string * nat) :=
  fold_left (fun c k => counter_add k c) l [].

(** ** The board: boxes, units and peers *)

Definition rows : string := "ABCDEFGHI".
Definition cols : string := "123456789".

(** [cross(A, B) = [s+t for s in A for t in B]]. *)
Definition cross (A B : string) : list string :=
  flat_map (fun s => map (fun t => String s (String t EmptyString)) (Str.chars B))
           (Str.chars A).

Definition boxes : list string := cross rows cols.

Definition row_units : list (list string) :=
  map (fun r => cross (Str.of_char r) cols) (Str.chars rows).
Definition column_units : list (list string) :=
  map (fun c => cross rows (Str.of_char c)) (Str.chars cols).
Definition square_units : list (list string) :=
  flat_map (fun rs => map (fun cs => cross rs cs) ["123"; "456"; "789"])
           ["ABC"; "DEF"; "GHI"].

(** [s[i]] for an index within the string; [rows[-i-1]] is
    [rows[len(rows)-1-i]]. *)
Definition char_at (s : string) (i : nat) : ascii :=
  nth i (Str.chars s) " "%char.

Definition diagonal_units : list (list string) :=
  [ map (fun i => String (char_at rows i) (String (char_at cols i) EmptyString))
        (seq 0 (Str.len rows));
    map (fun i => String (char_at rows (Str.len rows - 1 - i))
                         (String (char_at cols i) EmptyString))
        (seq 0 (Str.len rows)) ].

Definition unitlist : list (list string) :=
  row_units ++ column_units ++ square_units ++ diagonal_units.

Definition mem (s : string) (u : list string) : bool := existsb (String.eqb s) u.

(** [units[s]]: the units that hold [s]. *)
Definition units (s : string) : list (list string) :=
  filter (fun u => mem s u) unitlist.

(** [peers[s] = set(sum(units[s], [])) - set([s])].  A Python set iterates
    in an unspecified order; the model lists the peers without repetition
    in the order of the units.  The dict [eliminate] leaves does not depend
    on that order ([eliminate_peers_get] gives every cell from the
    membership alone); the order of the snapshots in the log does. *)
Definition peers (s : string) : list string :=
  nodup string_dec (filter (fun t => negb (String.eqb t s)) (List.concat (units s))).

(** ** The assignment log

    [assignments] is a global list the program only appends to.  A function
    that may append returns its result together with the snapshots it
    appended. *)

Definition Log := list Values.
Definition Logged (A : Type) : Type := (A * Log)%type.

Definition ret {A} (a : A) : Logged A := (a, []).
Definition bind {A B} (m : Logged A) (f : A -> Logged B) : Logged B :=
  let (a, l1) := m in let (b, l2) := f a in (b, l1 ++ l2).

(** [for x in xs: body] over a dict that the body updates. *)
Fixpoint for_each {X} (xs : list X) (body : Values -> X -> Logged Values)
         (values : Values) : Logged Values :=
  match xs with
  | [] => ret values
  | x :: xs' => bind (body values x) (for_each xs' body)
  end.

(** ** The passes *)

Definition assign_value (values : Values) (box value : string) : Logged Values :=
  if String.eqb values.[box] value then ret values
  else
    let values := values.[box <- value] in
    if Str.len value =? 1 then (values, [values]) else ret values.

(** [naked_pair] of [naked_twins]: the two-character values that two boxes
    of the unit hold, in the order [Counter] lists them. *)
Definition naked_pairs (values : Values) (unit : list string) : list string :=
  let unit_values := map (fun box => values.[box]) unit in
  map fst (filter (fun kv => (snd kv =? 2) && (Str.len (fst kv) =? 2))
                  (Counter unit_values)).

(** The body of the [for box in unit] loop of [naked_twins]. *)
Definition twins_box (naked_pair0 : string) (num : ascii) (values : Values) (box : string)
  : Values :=
  if (1 <? Str.len values.[box]) && negb (String.eqb values.[box] naked_pair0)
  then values.[box <- Str.replace values.[box] (Str.of_char num) ""]
  else values.

(** The body of the [for unit in unitlist] loop of [naked_twins]: only
    [naked_pair[0]] is used. *)
Definition naked_twins_unit (values : Values) (unit : list string) : Values :=
  match naked_pairs values unit with
  | [] => values
  | naked_pair0 :: _ =>
      fold_left
        (fun values num => fold_left (twins_box naked_pair0 num) unit values)
        (Str.chars naked_pair0) values
  end.

Definition naked_twins (values : Values) : Values :=
  fold_left naked_twins_unit unitlist values.

(** [modified_grid] of [grid_values]. *)
Definition modified_grid (grid : string) : list string :=
  map (fun g => if negb (Ascii.eqb g ".") then Str.of_char g else "123456789")
      (Str.chars grid).

Definition grid_values (grid : string) : Values :=
  Dict.of_pairs (combine boxes (modified_grid grid)).

(** The body of the [for box in solved_values] loop of [eliminate]. *)
Definition eliminate_box (values : Values) (box : string) : Logged Values :=
  let digit := values.[box] in
  for_each (peers box)
           (fun values peer => assign_value values peer (Str.replace values.[peer] digit ""))
           values.

(** [solved_values] of [eliminate]: the boxes that hold one candidate when
    the pass begins, in the order of the keys. *)
Definition solved_values (values : Values) : list string :=
  filter (fun box => Str.len values.[box] =? 1) (Dict.keys values).

Definition eliminate (values : Values) : Logged Values :=
  for_each (solved_values values) eliminate_box values.

(** The body of the two nested loops of [only_choice];
    [potential_fit.pop()] is the last element. *)
Definition only_choice_step (values : Values) (unit : list string) (number : ascii) : Values :=
  let potential_fit := filter (fun box => Str.contains values.[box] number) unit in
  if List.length potential_fit =? 1
  then values.[last potential_fit EmptyString <- Str.of_char number]
  else values.

Definition only_choice (values : Values) : Values :=
  fold_left
    (fun values unit =>
       fold_left (fun values number => only_choice_step values unit number)
                 (Str.chars cols) values)
    unitlist values.

Definition check_number_of_solved_values (values : Values) (length : nat) : nat :=
  List.length (filter (fun value => Str.len value =? length) (Dict.values_of values)).

(** ** Outcomes of the loops: a result, an exception, or no fuel left *)

Inductive Exn := ValueError.

Inductive Outcome (A : Type) : Type :=
| Returns (a : A)
| Raises (e : Exn)
| OutOfFuel.
Arguments Returns {A} a.
Arguments Raises {A} e.
Arguments OutOfFuel {A}.

(** [reduce_puzzle] returns [False] or the dict it was given, which it has
    mutated in both cases: the result is the flag "returned the dict" and the
    contents of the dict at the return.  One unit of fuel is one iteration of
    the [while] loop. *)
Fixpoint reduce_puzzle (fuel : nat) (values : Values) : Outcome (Logged (bool * Values)) :=
  match fuel with
  | O => OutOfFuel
  | S fuel' =>
      let solved_values_before := check_number_of_solved_values values 1 in
      let (values, log1) := eliminate values in
      let values := only_choice values in
      let stop := solved_values_before =? check_number_of_solved_values values 1 in
      if negb (check_number_of_solved_values values 0 =? 0)
      then Returns ((false, values), log1)
      else if stop then Returns ((true, values), log1)
      else match reduce_puzzle fuel' values with
           | Returns (r, log2) => Returns (r, log1 ++ log2)
           | Raises e => Raises e
           | OutOfFuel => OutOfFuel
           end
  end.

(** ** The store of dict objects *)

Definition ref := nat.

Record World := mkWorld { heap : list Values; assignments : Log }.

Definition deref (w : World) (r : ref) : Values := nth r (heap w) [].

Fixpoint list_set {A} (l : list A) (i : nat) (x : A) : list A :=
  match l, i with
  | [], _ => []
  | _ :: l', O => x :: l'
  | y :: l', S i' => y :: list_set l' i' x
  end.

Definition store (w : World) (r : ref) (values : Values) : World :=
  mkWorld (list_set (heap w) r values) (assignments w).

(** [values.copy()] and the dict built by [grid_values] are new objects. *)
Definition alloc (w : World) (values : Values) : ref * World :=
  (List.length (heap w), mkWorld (heap w ++ [values]) (assignments w)).

Definition append_log (w : World) (l : Log) : World :=
  mkWorld (heap w) (assignments w ++ l).

(** Running a pass on the dict object [r]: the object holds the new
    contents, the log has the new snapshots. *)
Definition update_at (w : World) (r : ref) (m : Logged Values) : World :=
  append_log (store w r (fst m)) (snd m).

(** ** Search *)

(** What [search] returns: [False], [None] (the loop over the digits ran
    out), or a dict object. *)
Inductive Result := RFalse | RNone | RDict (r : ref).

Definition truthy (w : World) (res : Result) : bool :=
  match res with
  | RDict r => Dict.truthy (deref w r)
  | _ => false
  end.

(** Python orders tuples lexicographically and strings by code point. *)
Definition tuple_ltb (a b : string * string) : bool :=
  match String.compare (fst a) (fst b) with
  | Lt => true
  | Gt => false
  | Eq => String.ltb (snd a) (snd b)
  end.

(** [min(l)]: the first of the least elements; ValueError on an empty list. *)
Definition py_min (l : list (string * string)) : option (string * string) :=
  match l with
  | [] => None
  | x :: rest => Some (fold_left (fun best y => if tuple_ltb y best then y else best) rest x)
  end.

(** [min((box, box_value) for (box, box_value) in values.items()
    if len(box_value) > 1)]: the cell [search] branches on. *)
Definition choose_box (values : Values) : option (string * string) :=
  py_min (filter (fun it => 1 <? Str.len (snd it)) (Dict.items values)).

(** The [for number in box_value] loop of [search]; [search] is the
    recursive call. *)
Fixpoint try_numbers (search : World -> ref -> Outcome (Result * World))
         (values : ref) (box : string) (numbers : list ascii) (w : World)
  : Outcome (Result * World) :=
  match numbers with
  | [] => Returns (RNone, w)
  | number :: rest =>
      let (new_values, w) := alloc w (deref w values) in
      let w := update_at w new_values
                         (assign_value (deref w new_values) box (Str.of_char number)) in
      match search w new_values with
      | Returns (attempt, w) =>
          if truthy w attempt then Returns (attempt, w)
          else try_numbers search values box rest w
      | Raises e => Raises e
      | OutOfFuel => OutOfFuel
      end
  end.

(** One unit of fuel is one level of recursion; the [while] loop of a call
    may run as many iterations as the call has fuel. *)
Fixpoint search (fuel : nat) (w : World) (values : ref) : Outcome (Result * World) :=
  match fuel with
  | O => OutOfFuel
  | S fuel' =>
      match reduce_puzzle fuel (deref w values) with
      | Returns ((returned, contents), l) =>
          let w := append_log (store w values contents) l in
          if negb (returned && Dict.truthy contents) then Returns (RFalse, w)
          else if forallb (fun value => Str.len value =? 1) (Dict.values_of (deref w values))
          then Returns (RDict values, w)
          else
            match choose_box (deref w values) with
            | None => Raises ValueError
            | Some (box, box_value) =>
                try_numbers (search fuel') values box (Str.chars box_value) w
            end
      | Raises e => Raises e
      | OutOfFuel => OutOfFuel
      end
  end.

Definition solve (fuel : nat) (w : World) (grid : string) : Outcome (Result * World) :=
  let (values, w) := alloc w (grid_values grid) in
  match search fuel w values with
  | Returns (solution, w) => Returns (if truthy w solution then solution else RFalse, w)
  | Raises e => Raises e
  | OutOfFuel => OutOfFuel
  end.

(** ** Display *)

(** [s * n]: [n] copies of [s]. *)
Fixpoint str_mul (s : string) (n : nat) : string :=
  match n with
  | O => EmptyString
  | S n' => (s ++ str_mul s n')%string
  end.

(** [s.center(width)]: [s] itself when it is [width] long or longer;
    otherwise [s] between spaces, [width] long in all.  When the number of
    spaces is odd, CPython puts the extra one on the left if [width] is odd
    and on the right if it is even
    ([left = marg/2 + (marg & width & 1)]). *)
Definition center (s : string) (width : nat) : string :=
  if width <=? Str.len s then s
  else
    let marg := width - Str.len s in
    let left := marg / 2 + (if Nat.odd marg && Nat.odd width then 1 else 0) in
    (str_mul " " left ++ s ++ str_mul " " (marg - left))%string.

(** The string [display] prints for the row [r]: the cells of the row,
    centred, with a bar after the third and the sixth. *)
Definition display_row (values : Values) (width : nat) (r : ascii) : string :=
  String.concat ""
    (map (fun c => (center values.[String r (String c EmptyString)] width
                    ++ (if Str.contains "36" c then "|" else ""))%string)
         (Str.chars cols)).

(** [line] of [display]. *)
Definition display_line (width : nat) : string :=
  String.concat "+" (List.repeat (str_mul "-" (width * 3)) 3).

(** [display] prints; the model returns the lines printed, in order.  An
    empty dict is falsy and nothing is printed for it (nor for the [False]
    of [solve], see [display_result]). *)
Definition display (values : Values) : list string :=
  if Dict.truthy values then
    let width := 1 + list_max (map (fun s => Str.len values.[s]) boxes) in
    let line := display_line width in
    flat_map
      (fun r => display_row values width r
                :: (if Str.contains "CF" r then [line] else []))
      (Str.chars rows)
  else [].


(** * Specification vocabulary *)

(** [values'] has the keys of [values], in the same order, and every cell
    of it has shrunk (or is as it was). *)
Definition le_grid (values' values : Values) : Prop :=
  Forall2 (fun e' e => fst e' = fst e /\ Str.shrinks (snd e') (snd e)) values' values.

(** The numbers of empty cells and of resolved cells, as [reduce_puzzle]
    counts them. *)
Definition count0 (values : Values) : nat := check_number_of_solved_values values 0.
Definition count1 (values : Values) : nat := check_number_of_solved_values values 1.

(** The number of cells with more than one candidate. *)
Definition multi (values : Values) : nat :=
  List.length (filter (fun value => 1 <? Str.len value) (Dict.values_of values)).

(** No string occurs twice in the list. *)
Fixpoint nodupb (l : list string) : bool :=
  match l with
  | [] => true
  | x :: t => negb (mem x t) && nodupb t
  end.

(** The board and the passes are loops over concrete lists of boxes:
    [simpl] must not unroll them. *)
Arguments unitlist : simpl never.
Arguments boxes : simpl never.
Arguments peers : simpl never.
Arguments eliminate : simpl never.
Arguments only_choice : simpl never.
Arguments naked_twins : simpl never.
Arguments reduce_puzzle : simpl never.

(** One iteration of the [while] loop, on the dict. *)
Definition reduce_step (values : Values) : Values :=
  only_choice (fst (eliminate values)).

(** What a returning [reduce_puzzle] has established. *)
Definition reduced (values : Values) (ok : bool) (values' : Values) : Prop :=
  le_grid values' values /\
  if ok
  then count0 values' = 0 /\ eliminate values' = ret values' /\
       only_choice values' = values'
  else count0 values' <> 0.

(** The dict holds the 81 boxes, in the order [grid_values] inserts them. *)
Definition grid_ok (values : Values) : Prop := Dict.keys values = boxes.

(** Every candidate of every cell is one of the digits 1-9. *)
Definition digits_only (values : Values) : Prop :=
  forall box c, Str.contains values.[box] c = true -> Str.is_digit c = true.

(** The unit holds every digit 1-9 exactly once. *)
Definition unit_complete (values : Values) (unit : list string) : Prop :=
  forall d, In d (Str.chars cols) ->
            count_occ string_dec (map (fun box => values.[box]) unit) (Str.of_char d) = 1.

(** A solved grid: every cell is resolved, and every row, column, square
    and diagonal holds every digit exactly once. *)
Definition solved (values : Values) : Prop :=
  grid_ok values /\
  (forall box, In box boxes -> Str.len values.[box] = 1) /\
  (forall unit, In unit unitlist -> unit_complete values unit).

(** The world in which a branch of [search] runs: the copy of the caller's
    dict, with the trial digit assigned. *)
Definition branch_world (w : World) (values : ref) (box : string) (number : ascii)
  : ref * World :=
  let (new_values, w) := alloc w (deref w values) in
  (new_values,
   update_at w new_values (assign_value (deref w new_values) box (Str.of_char number))).

(** No dict object that existed in [w] has other contents in [w']. *)
Definition frame_all (w w' : World) : Prop :=
  List.length (heap w) <= List.length (heap w') /\
  forall r, r < List.length (heap w) -> deref w' r = deref w r.

(** The same, but for the object [r0]. *)
Definition frame_but (r0 : ref) (w w' : World) : Prop :=
  List.length (heap w) <= List.length (heap w') /\
  forall r, r < List.length (heap w) -> r <> r0 -> deref w' r = deref w r.

(** A grid of the 81 boxes in which every cell is resolved and which
    [eliminate] leaves as it is. *)
Definition resolved (values : Values) : Prop :=
  grid_ok values /\
  (forall box, In box boxes -> Str.len values.[box] = 1) /\
  eliminate values = ret values.

(** What [search] has established at its return, for the grid [values] it
    was called on. *)
Definition search_post (values : Values) (w' : World) (res : Result) : Prop :=
  match res with
  | RDict r' =>
      r' < List.length (heap w') /\ resolved (deref w' r') /\
      le_grid (deref w' r') values
  | _ => forall sol, solved sol -> le_grid sol values -> False
  end.

(** A recursive call that meets the contract of [search] on every grid with
    fewer than [n] unresolved cells. *)
Definition search_contract (n : nat) (srch : World -> ref -> Outcome (Result * World)) : Prop :=
  forall w r,
    r < List.length (heap w) -> grid_ok (deref w r) -> multi (deref w r) < n ->
    exists res w',
      srch w r = Returns (res, w') /\ frame_but r w w' /\ search_post (deref w r) w' res.

(** What the loop over the digits has established at its return. *)
Definition try_numbers_post (values : Values) (box : string) (numbers : list ascii)
           (w' : World) (res : Result) : Prop :=
  match res with
  | RDict r' =>
      r' < List.length (heap w') /\ resolved (deref w' r') /\
      le_grid (deref w' r') values
  | _ => forall sol, solved sol -> le_grid sol values ->
                     forall d, In d numbers -> sol.[box] <> Str.of_char d
  end.

(** Every cell is a candidate string: digits 1-9 in increasing order. *)
Definition candidates_ok (values : Values) : bool :=
  forallb Str.candidate (Dict.values_of values).



(** A loop that runs [step] as long as [continues] holds goes from the
    state at the head of an iteration to the state at the head of a later
    one. *)
Inductive loop_reaches {A} (step : A -> A) (continues : A -> Prop) : A -> A -> Prop :=
| reaches_here (a : A) : loop_reaches step continues a a
| reaches_next (a a' : A) :
    continues a -> loop_reaches step continues (step a) a' ->
    loop_reaches step continues a a'.

(** The [while] loop of [reduce_puzzle] starts another iteration when the
    last one left no empty cell and changed the number of resolved cells. *)
Definition loop_continues (values : Values) : Prop :=
  count0 (reduce_step values) = 0 /\ count1 values <> count1 (reduce_step values).

Definition reaches : Values -> Values -> Prop :=
  loop_reaches reduce_step loop_continues.

(** Some cell is empty at the head of the iteration, after its [eliminate],
    or after its [only_choice]. *)
Definition empty_in_iteration (values : Values) : Prop :=
  count0 values <> 0 \/ count0 (fst (eliminate values)) <> 0 \/
  count0 (reduce_step values) <> 0.

(** Some cell is or becomes empty during the reduction of [values]. *)
Definition contradictory (values : Values) : Prop :=
  exists values', reaches values values' /\ empty_in_iteration values'.

(** The grid holds the same digit in two cells that are peers. *)
Definition peers_clash (values : Values) : Prop :=
  exists a b d, In a boxes /\ In b (peers a) /\
                values.[a] = Str.of_char d /\ values.[b] = Str.of_char d.

(** ** Example grids *)

(** The grid of the program's entry point. *)
Definition diag_sudoku_grid : string :=
  "2.............62....1....7...6..8...3...9...7...6..4...4....8....52.............3".

(** The grid the program's entry point holds in a comment. *)
Definition second_grid : string :=
  "9.1....8.8.5.7..4.2.4....6...7......5..............83.3..6......9................".

(** A grid with the digit 1 in the peers A1 and A2. *)
Definition clash_grid : string :=
  "11...............................................................................".

(** A grid whose reduction leaves the pair 89 in A8 and A9. *)
Definition twins_grid : string :=
  "1234567..........................................................................".

(** A world that holds one dict object, the grid of [grid]. *)
Definition world_of (grid : string) : World := mkWorld [grid_values grid] [].

(** The dict [reduce_puzzle] leaves for the puzzle [grid], and what it logs. *)
Definition reduced_grid (grid : string) : Values :=
  match reduce_puzzle 82 (grid_values grid) with
  | Returns ((_, values), _) => values
  | _ => []
  end.

Definition reduced_log (grid : string) : Log :=
  match reduce_puzzle 82 (grid_values grid) with
  | Returns (_, l) => l
  | _ => []
  end.

(** The number a counter holds for [k]. *)
Fixpoint cget (c : list (string * nat)) (k : string) : nat :=
  match c with
  | [] => 0
  | (k', n) :: rest => if String.eqb k' k then n else cget rest k
  end.

(** A naked pair of the unit: a two-character value that exactly two boxes
    of the unit hold. *)
Definition is_naked_pair (values : Values) (unit : list string) (pair : string) : Prop :=
  Str.len pair = 2 /\
  count_occ string_dec (map (fun box => values.[box]) unit) pair = 2.

(** The test of [naked_twins] for removing digits from a box. *)
Definition twins_test (naked_pair0 value : string) : bool :=
  (1 <? Str.len value) && negb (String.eqb value naked_pair0).

(** [naked_twins] removes the digits of every naked pair of every unit
    from the other unresolved cells of the unit. *)
Definition removes_every_naked_pair (values : Values) : Prop :=
  forall unit pair box d,
    In unit unitlist -> is_naked_pair values unit pair ->
    In box unit -> 1 < Str.len values.[box] -> values.[box] <> pair ->
    In d (Str.chars pair) ->
    Str.contains (naked_twins values).[box] d = false.

(** A grid with the naked pairs 12 (in A1, A2) and 34 (in A3, A4) in the
    first row, and no digit placed. *)
Definition two_pairs_grid : Values :=
  (grid_values
     ".................................................................................")
  .["A1" <- "12"].["A2" <- "12"].["A3" <- "34"].["A4" <- "34"].

(** ** Vocabulary of the further properties *)

(** Decision procedures for the order on grids and for solved grids. *)
Definition shrinksb (s' s : string) : bool :=
  forallb (fun c => Str.contains s c) (Str.chars s') && (Str.len s' <=? Str.len s).

Fixpoint le_gridb (values' values : Values) : bool :=
  match values', values with
  | [], [] => true
  | (k', x') :: t', (k, x) :: t => String.eqb k' k && shrinksb x' x && le_gridb t' t
  | _, _ => false
  end.

Fixpoint list_eqb (l1 l2 : list string) : bool :=
  match l1, l2 with
  | [], [] => true
  | x :: t1, y :: t2 => String.eqb x y && list_eqb t1 t2
  | _, _ => false
  end.

Definition solvedb (values : Values) : bool :=
  list_eqb (Dict.keys values) boxes
  && forallb (fun box => Str.len values.[box] =? 1) boxes
  && forallb
       (fun unit =>
          forallb
            (fun d => count_occ string_dec (map (fun box => values.[box]) unit)
                                (Str.of_char d) =? 1)
            (Str.chars cols))
       unitlist.

(** The solution [search] finds for [twins_grid]. *)
Definition twins_grid_solution : Values :=
  grid_values
    "123456789456789123789123456214365897368972514597814632941638275832547961675291348".

(** The digits of a printed line. *)
Definition digits_of (line : string) : list ascii :=
  filter Str.is_digit (Str.chars line).


(** The boards recorded between the worlds [w] and [w'] are refinements of
    the grid [values]: the log has only grown, and every board added has the
    boxes of [values] with cells that hold candidates of [values] only. *)
Definition records_below (w w' : World) (values : Values) : Prop :=
  exists l, assignments w' = assignments w ++ l /\
            Forall (fun board => le_grid board values) l.

(** What [search] returns for the puzzle [grid], and the world it leaves. *)
Definition search_result (grid : string) : Result :=
  match search 82 (world_of grid) 0 with
  | Returns (res, _) => res
  | _ => RNone
  end.

Definition search_world (grid : string) : World :=
  match search 82 (world_of grid) 0 with
  | Returns (_, w) => w
  | _ => world_of grid
  end.

(** * Verification *)

(** ** Strings *)

Section StrFacts.

Lemma interleave_empty (s : string) : Str.interleave "" s = s.
Proof. induction s as [|c s IH]; simpl; [reflexivity | now rewrite IH]. Qed.

Lemma replace_empty (s : string) : Str.replace s "" "" = s.
Proof. apply interleave_empty. Qed.

Lemma replace_char (c : ascii) (s : string) :
  Str.replace s (Str.of_char c) "" = Str.remove_char c s.
Proof.
  unfold Str.replace, Str.of_char.
  induction s as [|a s IH]; simpl; [reflexivity|].
  destruct (ascii_dec c a) as [->|Hne].
  - rewrite Ascii.eqb_refl. destruct s; simpl in *; rewrite ?IH; reflexivity.
  - destruct (Ascii.eqb_spec c a) as [|_]; [contradiction|]. now rewrite IH.
Qed.

Lemma contains_remove_char (c c' : ascii) (s : string) :
  Str.contains (Str.remove_char c s) c' = Str.contains s c' && negb (Ascii.eqb c c').
Proof.
  unfold Str.contains, Str.chars.
  induction s as [|a s IH]; simpl; [reflexivity|].
  destruct (Ascii.eqb_spec c a) as [->|Hne]; simpl.
  - rewrite IH. destruct (Ascii.eqb_spec c' a) as [->|Hne'].
    + rewrite Ascii.eqb_refl. simpl. now rewrite andb_false_r.
    + reflexivity.
  - rewrite IH. destruct (Ascii.eqb_spec c' a) as [->|Hne']; simpl.
    + destruct (Ascii.eqb_spec c a); [contradiction | reflexivity].
    + reflexivity.
Qed.

Lemma len_remove_char (c : ascii) (s : string) :
  Str.len (Str.remove_char c s) <= Str.len s.
Proof.
  unfold Str.len. induction s as [|a s IH]; simpl; [lia|].
  destruct (Ascii.eqb c a); simpl; lia.
Qed.

Lemma remove_char_absent (c : ascii) (s : string) :
  Str.contains s c = false -> Str.remove_char c s = s.
Proof.
  unfold Str.contains, Str.chars.
  induction s as [|a s IH]; simpl; [reflexivity|].
  intros H. apply orb_false_iff in H as [H1 H2].
  rewrite H1. now rewrite IH.
Qed.

Lemma len_zero (s : string) : Str.len s = 0 -> s = "".
Proof. destruct s; [reflexivity | discriminate]. Qed.

Lemma len_one (s : string) : Str.len s = 1 -> exists c, s = Str.of_char c.
Proof.
  destruct s as [|c [|]]; try discriminate. intros _. now exists c.
Qed.

Lemma contains_of_char (c d : ascii) :
  Str.contains (Str.of_char c) d = Ascii.eqb d c.
Proof. unfold Str.contains. simpl. apply orb_false_r. Qed.

Lemma contains_nonempty (s : string) (c : ascii) :
  Str.contains s c = true -> 1 <= Str.len s.
Proof. destruct s; [discriminate | simpl; lia]. Qed.

Lemma shrinks_refl (s : string) : Str.shrinks s s.
Proof. split; auto. Qed.

Lemma shrinks_trans (s1 s2 s3 : string) :
  Str.shrinks s1 s2 -> Str.shrinks s2 s3 -> Str.shrinks s1 s3.
Proof. intros [A1 B1] [A2 B2]. split; [auto | lia]. Qed.

Lemma shrinks_remove_char (c : ascii) (s : string) :
  Str.shrinks (Str.remove_char c s) s.
Proof.
  split; [|apply len_remove_char].
  intros d. rewrite contains_remove_char. intros H.
  now apply andb_true_iff in H.
Qed.

(** Every [replace(old, '')] the program performs has a one-character or an
    empty [old]. *)
Lemma shrinks_replace (s old : string) :
  Str.len old <= 1 -> Str.shrinks (Str.replace s old "") s.
Proof.
  intros H. destruct old as [|c [|]]; simpl in H; try lia.
  - rewrite replace_empty. apply shrinks_refl.
  - change (String c "") with (Str.of_char c). rewrite replace_char.
    apply shrinks_remove_char.
Qed.

Lemma shrinks_of_char (c : ascii) (s : string) :
  Str.contains s c = true -> Str.shrinks (Str.of_char c) s.
Proof.
  intros H. split.
  - intros d. rewrite contains_of_char. intros E.
    apply Ascii.eqb_eq in E. now subst.
  - apply contains_nonempty in H. exact H.
Qed.

Lemma shrinks_empty (s : string) : Str.shrinks s "" -> s = "".
Proof. intros [_ H]. apply len_zero. simpl in H. lia. Qed.

Lemma shrinks_single (s : string) (c : ascii) :
  Str.shrinks s (Str.of_char c) -> s = "" \/ s = Str.of_char c.
Proof.
  intros [A B]. destruct s as [|a [|]]; simpl in B; try lia; [now left|].
  right. specialize (A a). rewrite contains_of_char in A.
  unfold Str.contains in A. simpl in A. rewrite Ascii.eqb_refl in A.
  specialize (A eq_refl). apply Ascii.eqb_eq in A. now subst.
Qed.

End StrFacts.

(** ** Dicts *)

Section DictFacts.

Lemma get_set_same (values : Values) (k x : string) :
  values.[k <- x].[k] = x.
Proof.
  induction values as [|[k' v'] rest IH]; simpl.
  - now rewrite String.eqb_refl.
  - destruct (String.eqb_spec k' k) as [->|Hne]; simpl.
    + now rewrite String.eqb_refl.
    + destruct (String.eqb_spec k' k); [contradiction | exact IH].
Qed.

Lemma get_set_other (values : Values) (k k' x : string) :
  k <> k' -> values.[k <- x].[k'] = values.[k'].
Proof.
  intros Hne. induction values as [|[k0 v0] rest IH]; simpl.
  - destruct (String.eqb_spec k k'); [contradiction | reflexivity].
  - destruct (String.eqb_spec k0 k) as [->|Hne0]; simpl.
    + destruct (String.eqb_spec k k'); [contradiction | reflexivity].
    + now rewrite IH.
Qed.

Lemma get_set (values : Values) (k k' x : string) :
  values.[k <- x].[k'] = if String.eqb k k' then x else values.[k'].
Proof.
  destruct (String.eqb_spec k k') as [->|Hne].
  - apply get_set_same.
  - now apply get_set_other.
Qed.

Lemma keys_set (values : Values) (k x : string) :
  In k (Dict.keys values) -> Dict.keys values.[k <- x] = Dict.keys values.
Proof.
  unfold Dict.keys. induction values as [|[k0 v0] rest IH]; simpl; [tauto|].
  intros [->|Hin].
  - now rewrite String.eqb_refl.
  - destruct (String.eqb_spec k0 k); simpl; [reflexivity | now rewrite IH].
Qed.

Lemma set_get_same (values : Values) (k : string) :
  In k (Dict.keys values) -> values.[k <- values.[k]] = values.
Proof.
  unfold Dict.keys. induction values as [|[k0 v0] rest IH]; simpl; [tauto|].
  intros Hin. destruct (String.eqb_spec k0 k) as [->|Hne]; [reflexivity|].
  destruct Hin as [E|Hin]; [contradiction|]. now rewrite IH.
Qed.

(** A key the dict does not hold reads as the empty string in the model. *)
Lemma get_absent (values : Values) (k : string) :
  ~ In k (Dict.keys values) -> values.[k] = "".
Proof.
  unfold Dict.keys. induction values as [|[k0 v0] rest IH]; simpl; [reflexivity|].
  intros H. destruct (String.eqb_spec k0 k) as [->|Hne]; [tauto|].
  apply IH. tauto.
Qed.

Lemma get_nonempty_key (values : Values) (k : string) :
  values.[k] <> "" -> In k (Dict.keys values).
Proof.
  intros H. destruct (in_dec string_dec k (Dict.keys values)) as [|Hn]; [assumption|].
  now apply get_absent in Hn.
Qed.

Lemma get_in_values (values : Values) (k : string) :
  In k (Dict.keys values) -> In values.[k] (Dict.values_of values).
Proof.
  unfold Dict.keys, Dict.values_of.
  induction values as [|[k0 v0] rest IH]; simpl; [tauto|].
  intros Hin. destruct (String.eqb_spec k0 k) as [->|Hne]; [now left|].
  right. apply IH. destruct Hin; [contradiction | assumption].
Qed.

Lemma in_values_get (values : Values) (x : string) :
  NoDup (Dict.keys values) -> In x (Dict.values_of values) ->
  exists k, In k (Dict.keys values) /\ values.[k] = x.
Proof.
  unfold Dict.keys, Dict.values_of.
  induction values as [|[k0 v0] rest IH]; simpl; [tauto|].
  intros Hnd [->|Hin].
  - exists k0. rewrite String.eqb_refl. auto.
  - inversion Hnd as [|? ? Hk0 Hnd']; subst.
    destruct (IH Hnd' Hin) as (k & Hk & E). exists k. split; [now right|].
    destruct (String.eqb_spec k0 k) as [->|]; [contradiction | assumption].
Qed.

Lemma in_items_get (values : Values) (k x : string) :
  NoDup (Dict.keys values) -> In (k, x) (Dict.items values) -> values.[k] = x.
Proof.
  unfold Dict.keys, Dict.items.
  induction values as [|[k0 v0] rest IH]; simpl; [tauto|].
  intros Hnd [E|Hin].
  - inversion E; subst. now rewrite String.eqb_refl.
  - inversion Hnd as [|? ? Hk0 Hnd']; subst.
    destruct (String.eqb_spec k0 k) as [->|].
    + exfalso. apply Hk0. change k with (fst (k, x)). now apply in_map.
    + now apply IH.
Qed.

End DictFacts.

(** ** The order "every cell shrinks" on grids *)

Section GridOrder.

Lemma le_grid_refl (values : Values) : le_grid values values.
Proof.
  induction values; constructor; auto. split; [reflexivity | apply shrinks_refl].
Qed.

Lemma le_grid_trans (v1 v2 v3 : Values) :
  le_grid v1 v2 -> le_grid v2 v3 -> le_grid v1 v3.
Proof.
  intros H. revert v3. induction H as [|e1 e2 l1 l2 [K S] _ IH]; intros v3 H3.
  - inversion H3. constructor.
  - inversion H3 as [|? e3 ? l3 [K' S'] H3']; subst. constructor.
    + split; [congruence | eapply shrinks_trans; eauto].
    + now apply IH.
Qed.

Lemma le_grid_keys (values' values : Values) :
  le_grid values' values -> Dict.keys values' = Dict.keys values.
Proof.
  unfold Dict.keys. induction 1 as [|e' e l' l [K _] _ IH]; simpl; congruence.
Qed.

Lemma le_grid_get (values' values : Values) (k : string) :
  le_grid values' values -> Str.shrinks values'.[k] values.[k].
Proof.
  induction 1 as [|[k' x'] [k0 x] l' l [K S] _ IH]; simpl in *.
  - apply shrinks_refl.
  - subst k0. destruct (String.eqb k' k); assumption.
Qed.

Lemma le_grid_set (values : Values) (k x : string) :
  In k (Dict.keys values) -> Str.shrinks x values.[k] ->
  le_grid values.[k <- x] values.
Proof.
  unfold Dict.keys. induction values as [|[k0 v0] rest IH]; simpl; [tauto|].
  intros Hin Hs. destruct (String.eqb_spec k0 k) as [->|Hne].
  - constructor; [split; [reflexivity | assumption] | apply le_grid_refl].
  - constructor; [split; [reflexivity | apply shrinks_refl]|].
    apply IH; [destruct Hin; [contradiction | assumption] | assumption].
Qed.

Lemma count_total (values : Values) :
  count0 values + count1 values + multi values = List.length values.
Proof.
  unfold count0, count1, multi, check_number_of_solved_values, Dict.values_of.
  induction values as [|[k x] rest IH]; simpl; [reflexivity|].
  destruct (Str.len x) as [|[|n]]; simpl; lia.
Qed.

Lemma le_grid_length (values' values : Values) :
  le_grid values' values -> List.length values' = List.length values.
Proof. induction 1; simpl; congruence. Qed.

Lemma le_grid_count0 (values' values : Values) :
  le_grid values' values -> count0 values <= count0 values'.
Proof.
  unfold count0, check_number_of_solved_values, Dict.values_of.
  induction 1 as [|[k' x'] [k x] l' l [_ [_ L]] _ IH]; simpl in *; [lia|].
  destruct (Str.len x) as [|n]; simpl.
  - assert (Str.len x' = 0) as -> by lia. simpl. lia.
  - destruct (Str.len x' =? 0); simpl; lia.
Qed.

Lemma le_grid_multi (values' values : Values) :
  le_grid values' values -> multi values' <= multi values.
Proof.
  unfold multi, Dict.values_of.
  induction 1 as [|[k' x'] [k x] l' l [_ [_ L]] _ IH]; simpl in *; [lia|].
  destruct (Nat.ltb_spec 1 (Str.len x')), (Nat.ltb_spec 1 (Str.len x)); simpl; lia.
Qed.

(** Without empty cells, shrinking cannot lose a resolved cell. *)
Lemma le_grid_count1 (values' values : Values) :
  le_grid values' values -> count0 values' = 0 -> count1 values <= count1 values'.
Proof.
  intros H Z. pose proof (le_grid_count0 H). pose proof (le_grid_multi H).
  pose proof (count_total values). pose proof (count_total values').
  pose proof (le_grid_length H). lia.
Qed.

Lemma count0_zero (values : Values) (k : string) :
  count0 values = 0 -> In k (Dict.keys values) -> values.[k] <> "".
Proof.
  unfold count0, check_number_of_solved_values. intros Z Hin E.
  apply get_in_values in Hin. rewrite E in Hin.
  assert (In "" (filter (fun value => Str.len value =? 0) (Dict.values_of values)))
    as Hf by (apply filter_In; split; [assumption | reflexivity]).
  destruct (filter _ _); [contradiction | discriminate].
Qed.

Lemma count0_pos (values : Values) (k : string) :
  In k (Dict.keys values) -> values.[k] = "" -> count0 values <> 0.
Proof. intros Hin E Z. eapply count0_zero; eauto. Qed.

(** When shrinking leaves no empty cell and the same number of resolved
    cells, the resolved cells are the same ones, with the same digits. *)
Lemma le_grid_same_singles (values' values : Values) (k : string) :
  le_grid values' values -> count0 values' = 0 -> count1 values = count1 values' ->
  Str.len values'.[k] = 1 -> values.[k] = values'.[k].
Proof.
  unfold count0, count1, check_number_of_solved_values, Dict.values_of.
  induction 1 as [|[k' x'] [k0 x] l' l [K [A L]] H IH]; simpl in *.
  - discriminate.
  - intros Z C. subst k0.
    assert (Z' : List.length (filter (fun value => Str.len value =? 0) (map snd l')) = 0).
    { destruct (Str.len x' =? 0); simpl in Z; [discriminate | assumption]. }
    pose proof (le_grid_count1 H Z') as M.
    unfold count1, check_number_of_solved_values, Dict.values_of in M.
    destruct (String.eqb k' k).
    + intros L1. rewrite L1 in *. simpl in *.
      destruct (Nat.eqb_spec (Str.len x) 1) as [Lx|Lx]; simpl in C.
      * destruct (len_one _ Lx) as [c ->]. destruct (len_one _ L1) as [c' ->].
        specialize (A c'). rewrite !contains_of_char in A.
        rewrite Ascii.eqb_refl in A. specialize (A eq_refl).
        apply Ascii.eqb_eq in A. now subst.
      * lia.
    + apply IH; [assumption|].
      destruct (Nat.eqb_spec (Str.len x') 0) as [E0|E0]; [simpl in Z; discriminate|].
      destruct (Nat.eqb_spec (Str.len x) 1), (Nat.eqb_spec (Str.len x') 1);
        simpl in C; lia.
Qed.

End GridOrder.

(** ** The board *)

Section Board.

Lemma mem_In (s : string) (u : list string) : mem s u = true <-> In s u.
Proof.
  unfold mem. rewrite existsb_exists. split.
  - intros (x & Hin & E). apply String.eqb_eq in E. now subst.
  - intros H. exists s. split; [assumption | apply String.eqb_refl].
Qed.

Lemma mem_false (s : string) (u : list string) : mem s u = false <-> ~ In s u.
Proof.
  rewrite <- mem_In. destruct (mem s u); split; intros; congruence.
Qed.

Lemma nodupb_NoDup (l : list string) : nodupb l = true -> NoDup l.
Proof.
  induction l as [|x t IH]; simpl; [constructor|].
  intros H. apply andb_true_iff in H as [H1 H2].
  constructor; [|now apply IH].
  apply mem_false. now destruct (mem x t).
Qed.

Lemma boxes_NoDup : NoDup boxes.
Proof. apply nodupb_NoDup. vm_compute. reflexivity. Qed.

Lemma boxes_length : List.length boxes = 81.
Proof. reflexivity. Qed.

Lemma unit_facts (u : list string) :
  In u unitlist -> NoDup u /\ incl u boxes /\ List.length u = 9.
Proof.
  assert (H : forallb (fun u => nodupb u && forallb (fun b => mem b boxes) u
                                && (List.length u =? 9)) unitlist = true)
    by (vm_compute; reflexivity).
  rewrite forallb_forall in H. intros Hin. specialize (H u Hin).
  apply andb_true_iff in H as [H H3]. apply andb_true_iff in H as [H1 H2].
  split; [now apply nodupb_NoDup|]. split.
  - intros b Hb. rewrite forallb_forall in H2. apply mem_In. now apply H2.
  - now apply Nat.eqb_eq.
Qed.

Lemma peers_spec (b p : string) :
  In p (peers b) <-> p <> b /\ exists u, In u unitlist /\ In b u /\ In p u.
Proof.
  unfold peers, units. rewrite nodup_In, filter_In, in_concat. split.
  - intros [(u & Hu & Hp) Hne]. apply filter_In in Hu as [Hu Hb].
    apply mem_In in Hb. split.
    + intros ->. now rewrite String.eqb_refl in Hne.
    + now exists u.
  - intros [Hne (u & Hu & Hb & Hp)]. split.
    + exists u. split; [|assumption]. apply filter_In. split; [assumption|].
      now apply mem_In.
    + destruct (String.eqb_spec p b); [contradiction | reflexivity].
Qed.

Lemma peers_NoDup (b : string) : NoDup (peers b).
Proof. apply NoDup_nodup. Qed.

Lemma peers_irrefl (b : string) : ~ In b (peers b).
Proof. intros H. apply peers_spec in H as [H _]. now apply H. Qed.

Lemma peers_sym (b p : string) : In p (peers b) -> In b (peers p).
Proof.
  rewrite !peers_spec. intros [Hne (u & Hu & Hb & Hp)].
  split; [congruence | now exists u].
Qed.

Lemma peers_in_boxes (b p : string) : In p (peers b) -> In p boxes.
Proof.
  intros H. apply peers_spec in H as [_ (u & Hu & _ & Hp)].
  now apply (unit_facts Hu).
Qed.

End Board.

(** ** Loops *)

Section Loops.

Lemma fst_for_each {X} (xs : list X) (body : Values -> X -> Logged Values)
      (values : Values) :
  fst (for_each xs body values) = fold_left (fun v x => fst (body v x)) xs values.
Proof.
  revert values. induction xs as [|x xs IH]; intros values; simpl; [reflexivity|].
  unfold bind. destruct (body values x) as [v1 l1] eqn:E. simpl.
  rewrite <- IH. now destruct (for_each xs body v1).
Qed.

Lemma fold_left_invariant {A X} (P : A -> Prop) (f : A -> X -> A) (xs : list X) (a : A) :
  P a -> (forall a x, In x xs -> P a -> P (f a x)) -> P (fold_left f xs a).
Proof.
  revert a. induction xs as [|x xs IH]; intros a Ha Hstep; simpl; [assumption|].
  apply IH.
  - apply Hstep; [now left | assumption].
  - intros a' x' Hin. apply Hstep. now right.
Qed.

(** A loop whose body leaves the dict alone and logs nothing. *)
Lemma for_each_idle {X} (xs : list X) (body : Values -> X -> Logged Values)
      (values : Values) :
  (forall x, In x xs -> body values x = ret values) ->
  for_each xs body values = ret values.
Proof.
  induction xs as [|x xs IH]; intros H; simpl; [reflexivity|].
  rewrite H by now left. unfold bind, ret at 1.
  rewrite IH by (intros; apply H; now right). reflexivity.
Qed.

End Loops.

(** ** [assign_value] and [eliminate] *)

Section Eliminate.

Lemma assign_value_get (values : Values) (k x k' : string) :
  (fst (assign_value values k x)).[k'] = if String.eqb k k' then x else values.[k'].
Proof.
  unfold assign_value. destruct (String.eqb_spec values.[k] x) as [E|Hne].
  - simpl. destruct (String.eqb_spec k k'); congruence.
  - destruct (Str.len x =? 1); simpl; apply get_set.
Qed.

Lemma assign_value_le (values : Values) (k x : string) :
  Str.shrinks x values.[k] -> le_grid (fst (assign_value values k x)) values.
Proof.
  intros Hs. unfold assign_value.
  destruct (String.eqb_spec values.[k] x) as [E|Hne]; [apply le_grid_refl|].
  assert (In k (Dict.keys values)) as Hin.
  { apply get_nonempty_key. intros E. rewrite E in *.
    apply shrinks_empty in Hs. congruence. }
  destruct (Str.len x =? 1); simpl; now apply le_grid_set.
Qed.

Lemma assign_value_same (values : Values) (k : string) :
  assign_value values k values.[k] = ret values.
Proof. unfold assign_value. now rewrite String.eqb_refl. Qed.

(** The dict after the inner loop of [eliminate], cell by cell. *)
Lemma eliminate_peers_get (digit : string) (l : list string) (values : Values) (k : string) :
  NoDup l ->
  (fold_left (fun v p => fst (assign_value v p (Str.replace v.[p] digit ""))) l values).[k]
  = if mem k l then Str.replace values.[k] digit "" else values.[k].
Proof.
  revert values. induction l as [|p t IH]; intros values Hnd; simpl; [reflexivity|].
  inversion Hnd as [|? ? Hp Hnd']; subst. rewrite IH by assumption.
  rewrite assign_value_get. rewrite (String.eqb_sym k p).
  destruct (String.eqb_spec p k) as [->|Hne]; simpl.
  - apply mem_false in Hp. now rewrite Hp.
  - reflexivity.
Qed.

Lemma eliminate_box_get (values : Values) (box k : string) :
  (fst (eliminate_box values box)).[k]
  = if mem k (peers box) then Str.replace values.[k] values.[box] "" else values.[k].
Proof.
  unfold eliminate_box. rewrite fst_for_each.
  apply eliminate_peers_get. apply peers_NoDup.
Qed.

Lemma eliminate_box_le (values : Values) (box : string) :
  Str.len values.[box] <= 1 -> le_grid (fst (eliminate_box values box)) values.
Proof.
  intros L. unfold eliminate_box. rewrite fst_for_each.
  generalize values.[box], L. intros digit Ld.
  apply fold_left_invariant with (P := fun v => le_grid v values).
  - apply le_grid_refl.
  - intros v p _ Hv. eapply le_grid_trans; [|exact Hv].
    apply assign_value_le. now apply shrinks_replace.
Qed.

(** The outer loop of [eliminate], from any point on: every box still to
    be treated had one candidate when the pass began. *)
Lemma eliminate_loop_le (values0 : Values) (xs : list string) (values : Values) :
  (forall x, In x xs -> Str.len values0.[x] <= 1) ->
  le_grid values values0 ->
  le_grid (fold_left (fun v x => fst (eliminate_box v x)) xs values) values.
Proof.
  revert values. induction xs as [|x xs IH]; intros values Hxs Hle; simpl.
  - apply le_grid_refl.
  - assert (Str.len values.[x] <= 1) as Lx.
    { pose proof (le_grid_get x Hle) as [_ L]. specialize (Hxs x (or_introl eq_refl)). lia. }
    pose proof (eliminate_box_le values x Lx) as H1.
    eapply le_grid_trans; [|exact H1]. apply IH.
    + intros; apply Hxs; now right.
    + eapply le_grid_trans; eassumption.
Qed.

Lemma eliminate_fold (values : Values) :
  fst (eliminate values)
  = fold_left (fun v x => fst (eliminate_box v x)) (solved_values values) values.
Proof. unfold eliminate. now rewrite fst_for_each. Qed.

Lemma solved_values_len (values : Values) (x : string) :
  In x (solved_values values) -> Str.len values.[x] <= 1.
Proof.
  unfold solved_values. rewrite filter_In. intros [_ H].
  apply Nat.eqb_eq in H. lia.
Qed.

Lemma eliminate_le (values : Values) : le_grid (fst (eliminate values)) values.
Proof.
  rewrite eliminate_fold. apply eliminate_loop_le with (values0 := values).
  - apply solved_values_len.
  - apply le_grid_refl.
Qed.

(** After the pass, a resolved cell that was resolved before it has its
    digit in none of its peers. *)
Lemma eliminate_clears_peers (values : Values) (box : string) (d : ascii) :
  In box (Dict.keys values) ->
  values.[box] = Str.of_char d ->
  (fst (eliminate values)).[box] <> "" ->
  forall p, In p (peers box) -> Str.contains (fst (eliminate values)).[p] d = false.
Proof.
  intros Hin Hd Hne p Hp. rewrite eliminate_fold in *.
  assert (In box (solved_values values)) as Hs.
  { apply filter_In. split; [assumption|]. now rewrite Hd. }
  destruct (in_split _ _ Hs) as (pre & post & E). rewrite E in *.
  rewrite fold_left_app in *. simpl in *.
  set (f := fun v x => fst (eliminate_box v x)) in *.
  set (v1 := fold_left f pre values) in *.
  assert (le_grid v1 values) as H1.
  { apply eliminate_loop_le with (values0 := values); [|apply le_grid_refl].
    intros x Hx. apply solved_values_len. rewrite E. apply in_or_app. now left. }
  assert (Str.len v1.[box] <= 1) as L1.
  { pose proof (le_grid_get box H1) as [_ L]. rewrite Hd in L. exact L. }
  assert (le_grid (fold_left f post (f v1 box)) (f v1 box)) as H2.
  { apply eliminate_loop_le with (values0 := values).
    - intros x Hx. apply solved_values_len. rewrite E. apply in_or_app. right. now right.
    - eapply le_grid_trans; [|exact H1]. now apply eliminate_box_le. }
  assert ((f v1 box).[box] = v1.[box]) as Hb.
  { unfold f. rewrite eliminate_box_get.
    pose proof (proj2 (mem_false box (peers box)) (peers_irrefl box)) as ->. reflexivity. }
  assert (v1.[box] = Str.of_char d) as Hv1.
  { pose proof (le_grid_get box H1) as S1. rewrite Hd in S1.
    destruct (shrinks_single S1) as [Z|Z]; [|assumption].
    exfalso. apply Hne. pose proof (le_grid_get box H2) as S2.
    rewrite Hb, Z in S2. now apply shrinks_empty in S2. }
  assert (Str.contains (f v1 box).[p] d = false) as Hc.
  { unfold f. rewrite eliminate_box_get.
    pose proof (proj2 (mem_In p (peers box)) Hp) as ->.
    rewrite Hv1, replace_char, contains_remove_char, Ascii.eqb_refl.
    apply andb_false_r. }
  pose proof (le_grid_get p H2) as [A _].
  fold (f v1 box).
  destruct (Str.contains (fold_left f post (f v1 box)).[p] d) eqn:C; [|reflexivity].
  apply A in C. congruence.
Qed.

End Eliminate.

(** ** [only_choice] *)

Section OnlyChoice.

Lemma count1_set_multi (values : Values) (k : string) (n : ascii) :
  In k (Dict.keys values) -> 1 < Str.len values.[k] ->
  count1 values.[k <- Str.of_char n] = S (count1 values).
Proof.
  unfold count1, check_number_of_solved_values, Dict.values_of, Dict.keys.
  induction values as [|[k0 x0] rest IH]; simpl; [tauto|].
  intros Hin L. destruct (String.eqb_spec k0 k) as [->|Hne]; simpl.
  - destruct (Nat.eqb_spec (Str.len x0) 1); [lia | reflexivity].
  - destruct Hin as [|Hin]; [contradiction|].
    destruct (Str.len x0 =? 1); simpl; now rewrite IH.
Qed.

Lemma multi_set_single (values : Values) (k : string) (n : ascii) :
  In k (Dict.keys values) -> 1 < Str.len values.[k] ->
  S (multi values.[k <- Str.of_char n]) = multi values.
Proof.
  unfold multi, Dict.values_of, Dict.keys.
  induction values as [|[k0 x0] rest IH]; simpl; [tauto|].
  intros Hin L. destruct (String.eqb_spec k0 k) as [->|Hne]; simpl.
  - destruct (Nat.ltb_spec 1 (Str.len x0)); [reflexivity | lia].
  - destruct Hin as [|Hin]; [contradiction|].
    destruct (1 <? Str.len x0); simpl; now rewrite IH.
Qed.

(** One step either leaves the dict as it is, or resolves a cell that had
    several candidates to a digit only that cell of the unit holds. *)
Lemma only_choice_step_cases (values : Values) (unit : list string) (number : ascii) :
  only_choice_step values unit number = values \/
  exists box,
    In box unit /\ In box (Dict.keys values) /\
    Str.contains values.[box] number = true /\ 1 < Str.len values.[box] /\
    (forall b, In b unit -> Str.contains values.[b] number = true -> b = box) /\
    only_choice_step values unit number = values.[box <- Str.of_char number].
Proof.
  unfold only_choice_step.
  destruct (filter (fun box => Str.contains values.[box] number) unit)
    as [|box [|]] eqn:E; simpl; auto.
  assert (In box (filter (fun box => Str.contains values.[box] number) unit)) as Hf
      by (rewrite E; now left).
  apply filter_In in Hf as [Hu Hc].
  assert (In box (Dict.keys values)) as Hk.
  { apply get_nonempty_key. intros Z. rewrite Z in Hc. discriminate. }
  pose proof (contains_nonempty _ _ Hc) as L.
  destruct (Nat.eq_dec (Str.len values.[box]) 1) as [L1|L1].
  - left. destruct (len_one _ L1) as [c Ec]. rewrite Ec in Hc.
    rewrite contains_of_char in Hc. apply Ascii.eqb_eq in Hc. subst c.
    rewrite <- Ec. now apply set_get_same.
  - right. exists box. repeat split; auto; [lia|].
    intros b Hb Hcb.
    assert (In b (filter (fun box => Str.contains values.[box] number) unit)) as Hf
        by (apply filter_In; now split).
    rewrite E in Hf. destruct Hf as [|[]]. congruence.
Qed.

Lemma only_choice_step_le (values : Values) (unit : list string) (number : ascii) :
  le_grid (only_choice_step values unit number) values.
Proof.
  destruct (only_choice_step_cases values unit number)
    as [->|(box & _ & Hk & Hc & _ & _ & ->)]; [apply le_grid_refl|].
  apply le_grid_set; [assumption | now apply shrinks_of_char].
Qed.

(** An invariant of [only_choice] is an invariant of its steps. *)
Lemma only_choice_invariant (P : Values -> Prop) (values : Values) :
  P values ->
  (forall v unit number,
      In unit unitlist -> In number (Str.chars cols) -> P v ->
      P (only_choice_step v unit number)) ->
  P (only_choice values).
Proof.
  intros H0 Hstep. unfold only_choice.
  apply fold_left_invariant; [assumption|].
  intros v unit Hu Hv. apply fold_left_invariant; [assumption|].
  intros v' number Hn Hv'. now apply Hstep.
Qed.

Lemma only_choice_le (values : Values) : le_grid (only_choice values) values.
Proof.
  apply only_choice_invariant with (P := fun v => le_grid v values).
  - apply le_grid_refl.
  - intros v unit number _ _ Hv. eapply le_grid_trans; [|exact Hv].
    apply only_choice_step_le.
Qed.

(** [only_choice] never lowers the number of resolved cells, and leaves
    the dict as it is when it does not raise that number. *)
Lemma only_choice_count1 (values : Values) :
  count1 values <= count1 (only_choice values) /\
  (count1 (only_choice values) = count1 values -> only_choice values = values).
Proof.
  apply only_choice_invariant
    with (P := fun v => count1 values <= count1 v /\ (count1 v = count1 values -> v = values)).
  - split; [lia | reflexivity].
  - intros v unit number _ _ [Hle Heq].
    destruct (only_choice_step_cases v unit number)
      as [->|(box & _ & Hk & _ & L & _ & ->)]; [now split|].
    rewrite count1_set_multi by assumption. split; lia.
Qed.

End OnlyChoice.

(** ** [reduce_puzzle] *)

Unset Implicit Arguments.

Section Reduce.

Lemma reduce_puzzle_S (fuel : nat) (values : Values) :
  reduce_puzzle (S fuel) values =
  let values' := reduce_step values in
  let log1 := snd (eliminate values) in
  if negb (count0 values' =? 0) then Returns ((false, values'), log1)
  else if count1 values =? count1 values' then Returns ((true, values'), log1)
  else match reduce_puzzle fuel values' with
       | Returns (r, log2) => Returns (r, log1 ++ log2)
       | Raises e => Raises e
       | OutOfFuel => OutOfFuel
       end.
Proof.
  change (reduce_puzzle (S fuel) values) with
    (let solved_values_before := check_number_of_solved_values values 1 in
     let (values1, log1) := eliminate values in
     let values2 := only_choice values1 in
     let stop := solved_values_before =? check_number_of_solved_values values2 1 in
     if negb (check_number_of_solved_values values2 0 =? 0)
     then Returns ((false, values2), log1)
     else if stop then Returns ((true, values2), log1)
     else match reduce_puzzle fuel values2 with
          | Returns (r, log2) => Returns (r, log1 ++ log2)
          | Raises e => Raises e
          | OutOfFuel => OutOfFuel
          end).
  unfold reduce_step, count0, count1.
  destruct (eliminate values) as [v1 l1]. reflexivity.
Qed.

Lemma reduce_step_eq (values : Values) :
  reduce_step values = only_choice (fst (eliminate values)).
Proof. unfold reduce_step. reflexivity. Qed.

Lemma reduce_step_le (values : Values) : le_grid (reduce_step values) values.
Proof.
  unfold reduce_step. eapply le_grid_trans; [apply only_choice_le | apply eliminate_le].
Qed.

(** A pass of [eliminate] that finds every peer of every resolved cell
    already free of that cell's digit changes nothing and logs nothing. *)
Lemma eliminate_idle (values : Values) :
  (forall box p, In box (solved_values values) -> In p (peers box) ->
                 Str.replace values.[p] values.[box] "" = values.[p]) ->
  eliminate values = ret values.
Proof.
  intros H. unfold eliminate. apply for_each_idle. intros box Hbox.
  unfold eliminate_box. apply for_each_idle. intros p Hp.
  rewrite (H box p Hbox Hp). apply assign_value_same.
Qed.

Lemma stalled_eliminate (values ve : Values) :
  ve = fst (eliminate values) ->
  count0 ve = 0 -> count1 values = count1 ve ->
  eliminate ve = ret ve.
Proof.
  intros Eve Z C.
  assert (le_grid ve values) as Hle by (rewrite Eve; apply eliminate_le).
  apply eliminate_idle. intros box p Hbox Hp.
  apply filter_In in Hbox as [Hk L]. apply Nat.eqb_eq in L.
  pose proof (le_grid_same_singles box Hle Z C L) as E.
  destruct (len_one _ L) as [d Ed].
  rewrite (le_grid_keys Hle) in Hk.
  assert (Str.contains ve.[p] d = false) as Hc.
  { rewrite Eve. apply eliminate_clears_peers with (box := box); auto.
    - congruence.
    - rewrite <- Eve, Ed. discriminate. }
  rewrite Ed, replace_char. now apply remove_char_absent.
Qed.

(** The dict of a stalled iteration without empty cells is a fixed point
    of both passes. *)
Lemma stalled_fixed_point (values : Values) :
  count0 (reduce_step values) = 0 ->
  count1 values = count1 (reduce_step values) ->
  eliminate (reduce_step values) = ret (reduce_step values) /\
  only_choice (reduce_step values) = reduce_step values.
Proof.
  unfold reduce_step. generalize (eq_refl (fst (eliminate values))).
  generalize (fst (eliminate values)) at 1 3 4 5 6 7 8 as ve.
  intros ve Eve Z C.
  assert (le_grid ve values) as Hle by (rewrite Eve; apply eliminate_le).
  pose proof (only_choice_le ve) as Hlo.
  pose proof (only_choice_count1 ve) as [Hc1 Hc2].
  assert (count0 ve = 0) as Ze by (pose proof (le_grid_count0 Hlo); lia).
  pose proof (le_grid_count1 Hle Ze) as Hc3.
  assert (only_choice ve = ve) as Ho by (apply Hc2; lia).
  rewrite Ho in Z, C. rewrite !Ho. split; [|reflexivity].
  now apply stalled_eliminate with (values := values).
Qed.

(** The loop runs at most once more than there are unresolved cells. *)
Lemma reduce_puzzle_returns (fuel : nat) (values : Values) :
  multi values < fuel ->
  exists ok values' l,
    reduce_puzzle fuel values = Returns ((ok, values'), l) /\
    reduced values ok values'.
Proof.
  revert values. induction fuel as [|fuel IH]; intros values Hf; [lia|].
  rewrite reduce_puzzle_S. cbv zeta.
  pose proof (reduce_step_le values) as Hle.
  destruct (Nat.eqb_spec (count0 (reduce_step values)) 0) as [Z|Z]; simpl.
  - destruct (Nat.eqb_spec (count1 values) (count1 (reduce_step values))) as [C|C].
    + eexists _, _, _. split; [reflexivity|]. split; [assumption|].
      split; [assumption|]. now apply stalled_fixed_point.
    + pose proof (le_grid_count1 Hle Z). pose proof (le_grid_count0 Hle).
      pose proof (count_total values). pose proof (count_total (reduce_step values)).
      pose proof (le_grid_length Hle).
      destruct (IH (reduce_step values)) as (ok & v' & l & E & Hle' & Hr); [lia|].
      rewrite E. eexists _, _, _. split; [reflexivity|].
      split; [eapply le_grid_trans; eassumption | assumption].
  - eexists _, _, _. split; [reflexivity|]. split; assumption.
Qed.

(** A result does not depend on how much fuel was left over. *)
Lemma reduce_puzzle_result (fuel : nat) (values : Values) (r : bool * Values) (l : Log) :
  reduce_puzzle fuel values = Returns (r, l) ->
  reduced values (fst r) (snd r).
Proof.
  revert values r l. induction fuel as [|fuel IH]; intros values r l; [discriminate|].
  rewrite reduce_puzzle_S. cbv zeta.
  pose proof (reduce_step_le values) as Hle.
  destruct (Nat.eqb_spec (count0 (reduce_step values)) 0) as [Z|Z]; simpl.
  - destruct (Nat.eqb_spec (count1 values) (count1 (reduce_step values))) as [C|C].
    + intros E. inversion E; subst. simpl. split; [assumption|].
      split; [assumption|]. now apply stalled_fixed_point.
    + destruct (reduce_puzzle fuel (reduce_step values)) as [[r' l']| |] eqn:E;
        try discriminate.
      intros E'. inversion E'; subst. apply IH in E as [Hle' Hr].
      split; [eapply le_grid_trans; eassumption | assumption].
  - intros E. inversion E; subst. simpl. split; assumption.
Qed.

(** An invariant of the iterations holds of the dict at the return. *)
Lemma reduce_puzzle_invariant (P : Values -> Prop) (fuel : nat) (values : Values)
      (r : bool * Values) (l : Log) :
  (forall v, P v -> P (reduce_step v)) ->
  P values -> reduce_puzzle fuel values = Returns (r, l) -> P (snd r).
Proof.
  intros Hstep. revert values r l.
  induction fuel as [|fuel IH]; intros values r l HP; [discriminate|].
  rewrite reduce_puzzle_S. cbv zeta.
  destruct (negb _).
  - intros E. inversion E; subst. simpl. now apply Hstep.
  - destruct (_ =? _).
    + intros E. inversion E; subst. simpl. now apply Hstep.
    + destruct (reduce_puzzle fuel (reduce_step values)) as [[r' l']| |] eqn:E;
        try discriminate.
      intros E'. inversion E'; subst. eapply IH; [|exact E]. now apply Hstep.
Qed.

End Reduce.

(** ** Grids and solutions *)

Section Solutions.

Lemma is_digit_cols (c : ascii) : Str.is_digit c = true <-> In c (Str.chars cols).
Proof.
  unfold Str.is_digit. change (Str.chars "123456789") with (Str.chars cols).
  rewrite existsb_exists. split.
  - intros (x & Hx & E). apply Ascii.eqb_eq in E. now subst.
  - intros H. exists c. split; [assumption | apply Ascii.eqb_refl].
Qed.


Lemma grid_ok_nonempty (values : Values) : grid_ok values -> Dict.truthy values = true.
Proof. unfold grid_ok. destruct values; [discriminate | reflexivity]. Qed.

Lemma grid_ok_NoDup (values : Values) : grid_ok values -> NoDup (Dict.keys values).
Proof. intros ->. apply boxes_NoDup. Qed.

Lemma grid_ok_length (values : Values) : grid_ok values -> List.length values = 81.
Proof.
  unfold grid_ok, Dict.keys. intros H.
  rewrite <- (length_map fst), H. apply boxes_length.
Qed.

Lemma le_grid_ok (values' values : Values) :
  le_grid values' values -> grid_ok values -> grid_ok values'.
Proof. unfold grid_ok. intros H <-. now apply le_grid_keys. Qed.


Lemma count_occ_two {A} (dec : forall x y : A, {x = y} + {x <> y})
      (f : string -> A) (u : list string) (a b : string) :
  NoDup u -> In a u -> In b u -> a <> b -> f a = f b ->
  2 <= count_occ dec (map f u) (f a).
Proof.
  intros Hnd Ha Hb Hne E.
  destruct (in_split _ _ Ha) as (l1 & l2 & ->).
  rewrite map_app, count_occ_app. simpl.
  destruct (dec (f a) (f a)) as [_|]; [|congruence].
  apply in_app_or in Hb as [Hb|[Hb|Hb]]; [|congruence|].
  - assert (In (f a) (map f l1)) as Hi by (rewrite E; now apply in_map).
    apply (count_occ_In dec) in Hi. lia.
  - assert (In (f a) (map f l2)) as Hi by (rewrite E; now apply in_map).
    apply (count_occ_In dec) in Hi. lia.
Qed.

Lemma solved_peers_differ (S : Values) (box p : string) :
  solved S -> In p (peers box) -> S.[p] <> S.[box].
Proof.
  intros (Hk & Hs & Hu) Hp E.
  apply peers_spec in Hp as [Hne (u & Hin & Hb & Hpu)].
  destruct (unit_facts Hin) as (Hnd & Hincl & _).
  destruct (len_one _ (Hs p (Hincl p Hpu))) as [d Ed].
  assert (In d (Str.chars cols)) as Hd.
  { destruct (in_dec ascii_dec d (Str.chars cols)) as [|Hn]; [assumption|].
    exfalso.
    (* the nine cells of the unit hold nine digits; [d] would be a tenth value *)
    pose proof (count_occ_two string_dec (fun box => S.[box]) u p box Hnd Hpu Hb Hne E) as H2.
    simpl in H2. rewrite Ed in H2.
    assert (Hlen : List.length (map (fun box => S.[box]) u) = 9)
      by (rewrite length_map; apply (unit_facts Hin)).
    assert (Hall : forall e, In e (Str.chars cols) ->
                             In (Str.of_char e) (map (fun box => S.[box]) u)).
    { intros e He. apply (count_occ_In string_dec). rewrite (Hu u Hin e He). lia. }
    assert (Hinc : incl (Str.of_char d :: map Str.of_char (Str.chars cols))
                        (map (fun box => S.[box]) u)).
    { intros x [<-|Hx].
      - rewrite <- Ed. now apply (in_map (fun box => S.[box])).
      - apply in_map_iff in Hx as (e & <- & He). now apply Hall. }
    assert (Hnd' : NoDup (Str.of_char d :: map Str.of_char (Str.chars cols))).
    { constructor.
      - intros Hx. apply in_map_iff in Hx as (e & Ee & He).
        inversion Ee; subst. contradiction.
      - apply nodupb_NoDup. vm_compute. reflexivity. }
    pose proof (NoDup_incl_length Hnd' Hinc) as Hl.
    rewrite Hlen in Hl. simpl in Hl. lia. }
  pose proof (count_occ_two string_dec (fun box => S.[box]) u p box Hnd Hpu Hb Hne E) as H2.
  simpl in H2. rewrite Ed, (Hu u Hin d Hd) in H2. lia.
Qed.

Lemma solved_unit_has (S : Values) (unit : list string) (d : ascii) :
  solved S -> In unit unitlist -> In d (Str.chars cols) ->
  exists box, In box unit /\ S.[box] = Str.of_char d.
Proof.
  intros (_ & _ & Hu) Hin Hd.
  assert (In (Str.of_char d) (map (fun box => S.[box]) unit)) as Hi.
  { apply (count_occ_In string_dec). rewrite (Hu unit Hin d Hd). lia. }
  apply in_map_iff in Hi as (box & E & Hb). now exists box.
Qed.

Lemma solved_count0 (S : Values) : solved S -> count0 S = 0.
Proof.
  intros (Hk & Hs & _). unfold count0, check_number_of_solved_values.
  destruct (filter _ _) as [|x l] eqn:E; [reflexivity|].
  assert (In x (filter (fun value => Str.len value =? 0) (Dict.values_of S))) as Hx
      by (rewrite E; now left).
  apply filter_In in Hx as [Hx L]. apply Nat.eqb_eq in L.
  apply in_values_get in Hx as (k & Hkin & Ek); [|now apply grid_ok_NoDup].
  rewrite Hk in Hkin. specialize (Hs k Hkin). rewrite Ek in Hs. lia.
Qed.

(** A grid with a solution below it has no empty cell. *)
Lemma above_solution_count0 (S values : Values) :
  solved S -> le_grid S values -> count0 values = 0.
Proof.
  intros HS Hle. pose proof (solved_count0 S HS). pose proof (le_grid_count0 Hle). lia.
Qed.


End Solutions.

(** ** The passes keep every solution of the grid *)

Lemma le_grid_set_above (low values : Values) (k x : string) :
  le_grid low values -> In k (Dict.keys values) -> Str.shrinks low.[k] x ->
  le_grid low values.[k <- x].
Proof.
  unfold Dict.keys.
  induction 1 as [|[k' y'] [k0 y] l' l [K Sh] H IH]; simpl in *; [tauto|].
  intros Hin Hs. subst k0. destruct (String.eqb_spec k' k) as [->|Hne].
  - constructor; [split; [reflexivity | assumption] | assumption].
  - constructor; [split; [reflexivity | assumption]|].
    apply IH; [destruct Hin; [contradiction | assumption] | assumption].
Qed.

Section Above.

Variable S : Values.
Hypothesis S_solved : solved S.

Lemma solved_cell (box : string) :
  In box boxes -> exists d, S.[box] = Str.of_char d.
Proof. intros Hb. destruct S_solved as (_ & Hs & _). now apply len_one, Hs. Qed.

Lemma above_keys (values : Values) : le_grid S values -> grid_ok values.
Proof.
  intros H. unfold grid_ok. rewrite <- (le_grid_keys H). apply S_solved.
Qed.

Lemma above_contains (values : Values) (box : string) (d : ascii) :
  le_grid S values -> S.[box] = Str.of_char d -> Str.contains values.[box] d = true.
Proof.
  intros H E. apply (le_grid_get box H). rewrite E, contains_of_char.
  apply Ascii.eqb_refl.
Qed.

Lemma assign_value_above (values : Values) (k x : string) :
  le_grid S values -> In k boxes -> Str.shrinks S.[k] x ->
  le_grid S (fst (assign_value values k x)).
Proof.
  intros H Hk Hs. unfold assign_value.
  destruct (String.eqb values.[k] x); [assumption|].
  assert (le_grid S values.[k <- x]).
  { apply le_grid_set_above; auto. now rewrite (above_keys values H). }
  destruct (Str.len x =? 1); assumption.
Qed.

Lemma eliminate_box_above (values : Values) (box : string) :
  le_grid S values -> In box boxes -> Str.len values.[box] <= 1 ->
  le_grid S (fst (eliminate_box values box)).
Proof.
  intros H Hb L. unfold eliminate_box. rewrite fst_for_each.
  destruct (solved_cell box Hb) as [d Ed].
  pose proof (above_contains values box d H Ed) as Hc.
  assert (values.[box] = Str.of_char d) as Edigit.
  { pose proof (contains_nonempty _ _ Hc) as L1.
    destruct (len_one values.[box]) as [c Ec]; [lia|].
    rewrite Ec, contains_of_char in Hc. apply Ascii.eqb_eq in Hc. now subst. }
  rewrite Edigit.
  apply fold_left_invariant with (P := fun v => le_grid S v); [assumption|].
  intros v p Hp Hv.
  assert (In p boxes) as Hpb by (eapply peers_in_boxes; eassumption).
  apply assign_value_above; auto.
  destruct (solved_cell p Hpb) as [e Ee].
  rewrite replace_char, Ee. apply shrinks_of_char.
  rewrite contains_remove_char, (above_contains v p e Hv Ee). simpl.
  destruct (Ascii.eqb_spec d e) as [->|]; [|reflexivity].
  exfalso. apply (solved_peers_differ S box p S_solved Hp). congruence.
Qed.

Lemma eliminate_above (values : Values) :
  le_grid S values -> le_grid S (fst (eliminate values)).
Proof.
  intros H. rewrite eliminate_fold.
  apply (fold_left_invariant (fun v => le_grid S v /\ le_grid v values)).
  - split; [assumption | apply le_grid_refl].
  - intros v box Hbox [Hv Hle].
    pose proof (solved_values_len _ _ Hbox) as L.
    assert (Str.len v.[box] <= 1) as Lv.
    { pose proof (le_grid_get box Hle) as [_ L']. lia. }
    split.
    + apply eliminate_box_above; auto.
      apply filter_In in Hbox as [Hk _]. now rewrite (above_keys values H) in Hk.
    + eapply le_grid_trans; [|exact Hle]. now apply eliminate_box_le.
Qed.

Lemma only_choice_step_above (values : Values) (unit : list string) (number : ascii) :
  le_grid S values -> In unit unitlist -> In number (Str.chars cols) ->
  le_grid S (only_choice_step values unit number).
Proof.
  intros H Hu Hn.
  destruct (only_choice_step_cases values unit number)
    as [->|(box & Hb & Hk & Hc & _ & Huniq & ->)]; [assumption|].
  apply le_grid_set_above; auto.
  destruct (solved_unit_has S unit number S_solved Hu Hn) as (b' & Hb' & E').
  rewrite <- (Huniq b' Hb' (above_contains values b' number H E')), E'. apply shrinks_refl.
Qed.

Lemma only_choice_above (values : Values) :
  le_grid S values -> le_grid S (only_choice values).
Proof.
  intros H. apply only_choice_invariant; [assumption|].
  intros v unit number Hu Hn Hv. now apply only_choice_step_above.
Qed.

Lemma reduce_step_above (values : Values) :
  le_grid S values -> le_grid S (reduce_step values).
Proof. intros H. apply only_choice_above. now apply eliminate_above. Qed.

(** [reduce_puzzle] does not fail on a grid that has a solution, and the
    solution is still one of the reduced grid. *)
Lemma reduce_puzzle_above (fuel : nat) (values : Values) (r : bool * Values) (l : Log) :
  le_grid S values -> reduce_puzzle fuel values = Returns (r, l) ->
  fst r = true /\ le_grid S (snd r).
Proof.
  intros H E.
  assert (le_grid S (snd r)) as Hr.
  { apply (reduce_puzzle_invariant (fun v => le_grid S v) fuel values r l);
      auto using reduce_step_above. }
  split; [|assumption].
  apply reduce_puzzle_result in E as [_ Hres].
  destruct (fst r); [reflexivity|].
  exfalso. apply Hres. now apply (above_solution_count0 S (snd r) S_solved).
Qed.

End Above.

(** ** The store *)

Section Store.

Lemma list_set_length {A} (l : list A) (i : nat) (x : A) :
  List.length (list_set l i x) = List.length l.
Proof.
  revert i. induction l as [|y l IH]; intros [|i]; simpl; auto.
Qed.

Lemma nth_list_set {A} (l : list A) (i j : nat) (x d : A) :
  nth j (list_set l i x) d = if (i =? j) && (i <? List.length l) then x else nth j l d.
Proof.
  revert i j. induction l as [|y l IH]; intros i j.
  - simpl. rewrite andb_false_r. now destruct i.
  - destruct i as [|i], j as [|j]; simpl; try reflexivity.
    rewrite IH. reflexivity.
Qed.

Lemma deref_store (w : World) (r r' : ref) (values : Values) :
  deref (store w r values) r'
  = if (r =? r') && (r <? List.length (heap w)) then values else deref w r'.
Proof. unfold deref, store. simpl. apply nth_list_set. Qed.

Lemma deref_update_at_same (w : World) (r : ref) (m : Logged Values) :
  r < List.length (heap w) -> deref (update_at w r m) r = fst m.
Proof.
  intros H. unfold update_at, append_log, deref. simpl.
  rewrite nth_list_set, Nat.eqb_refl.
  destruct (Nat.ltb_spec r (List.length (heap w))); [reflexivity | lia].
Qed.

Lemma deref_update_at_other (w : World) (r r' : ref) (m : Logged Values) :
  r <> r' -> deref (update_at w r m) r' = deref w r'.
Proof.
  intros H. unfold update_at, append_log, deref. simpl.
  rewrite nth_list_set. destruct (Nat.eqb_spec r r'); [contradiction | reflexivity].
Qed.

Lemma deref_append_store (w : World) (r : ref) (values : Values) (l : Log) :
  r < List.length (heap w) -> deref (append_log (store w r values) l) r = values.
Proof. intros H. apply (deref_update_at_same w r (values, l) H). Qed.

Lemma heap_update_at (w : World) (r : ref) (m : Logged Values) :
  List.length (heap (update_at w r m)) = List.length (heap w).
Proof. unfold update_at, append_log. simpl. apply list_set_length. Qed.

Lemma alloc_ref (w : World) (values : Values) :
  fst (alloc w values) = List.length (heap w).
Proof. reflexivity. Qed.

Lemma heap_alloc (w : World) (values : Values) :
  List.length (heap (snd (alloc w values))) = S (List.length (heap w)).
Proof. unfold alloc. simpl. rewrite length_app. simpl. lia. Qed.

Lemma deref_alloc_new (w : World) (values : Values) :
  deref (snd (alloc w values)) (List.length (heap w)) = values.
Proof.
  unfold alloc, deref. simpl. rewrite app_nth2 by lia.
  now rewrite Nat.sub_diag.
Qed.

Lemma deref_alloc_old (w : World) (values : Values) (r : ref) :
  r < List.length (heap w) -> deref (snd (alloc w values)) r = deref w r.
Proof. intros H. unfold alloc, deref. simpl. now apply app_nth1. Qed.

End Store.

(** ** [search] *)

Section SearchFacts.

Lemma search_S (fuel : nat) (w : World) (values : ref) :
  search (S fuel) w values =
  match reduce_puzzle (S fuel) (deref w values) with
  | Returns ((returned, contents), l) =>
      let w := append_log (store w values contents) l in
      if negb (returned && Dict.truthy contents) then Returns (RFalse, w)
      else if forallb (fun value => Str.len value =? 1) (Dict.values_of (deref w values))
           then Returns (RDict values, w)
           else
             match choose_box (deref w values) with
             | None => Raises ValueError
             | Some (box, box_value) =>
                 try_numbers (search fuel) values box (Str.chars box_value) w
             end
  | Raises e => Raises e
  | OutOfFuel => OutOfFuel
  end.
Proof. reflexivity. Qed.

Lemma try_numbers_cons (srch : World -> ref -> Outcome (Result * World))
      (values : ref) (box : string) (number : ascii) (rest : list ascii) (w : World) :
  try_numbers srch values box (number :: rest) w =
  match srch (snd (branch_world w values box number))
             (fst (branch_world w values box number)) with
  | Returns (attempt, w') =>
      if truthy w' attempt then Returns (attempt, w')
      else try_numbers srch values box rest w'
  | Raises e => Raises e
  | OutOfFuel => OutOfFuel
  end.
Proof. reflexivity. Qed.

Lemma py_min_In (l : list (string * string)) (x : string * string) :
  py_min l = Some x -> In x l.
Proof.
  destruct l as [|y rest]; simpl; [discriminate|].
  intros E. inversion E; subst. clear E.
  revert y. induction rest as [|z rest IH]; intros y; simpl; [now left|].
  destruct (IH (if tuple_ltb z y then z else y)) as [E|H].
  - destruct (tuple_ltb z y); rewrite <- E; auto.
  - auto.
Qed.

Lemma py_min_None (l : list (string * string)) : py_min l = None -> l = [].
Proof. destruct l; [reflexivity | discriminate]. Qed.

Lemma assign_value_set (values : Values) (box value : string) :
  values.[box] <> value -> fst (assign_value values box value) = values.[box <- value].
Proof.
  intros Hne. unfold assign_value.
  destruct (String.eqb_spec values.[box] value); [contradiction|].
  destruct (Str.len value =? 1); reflexivity.
Qed.

(** The branch runs on a new object, which holds the caller's grid with the
    trial digit assigned; no older object is touched. *)
Lemma branch_world_frame (w : World) (values : ref) (box : string) (number : ascii) :
  let nw := branch_world w values box number in
  fst nw = List.length (heap w) /\
  List.length (heap (snd nw)) = S (List.length (heap w)) /\
  deref (snd nw) (fst nw) = fst (assign_value (deref w values) box (Str.of_char number)) /\
  forall r, r < List.length (heap w) -> deref (snd nw) r = deref w r.
Proof.
  unfold branch_world.
  destruct (alloc w (deref w values)) as [nv w1] eqn:Ea.
  assert (E1 : nv = List.length (heap w)) by (apply (f_equal fst) in Ea; exact (eq_sym Ea)).
  assert (E2 : w1 = snd (alloc w (deref w values))) by (rewrite Ea; reflexivity).
  clear Ea. subst nv w1. cbv zeta. cbn [fst snd].
  split; [reflexivity|]. split; [now rewrite heap_update_at, heap_alloc|]. split.
  - rewrite deref_update_at_same by (rewrite heap_alloc; lia).
    now rewrite deref_alloc_new.
  - intros r Hr. rewrite deref_update_at_other by lia. now apply deref_alloc_old.
Qed.

Lemma branch_world_spec (w : World) (values : ref) (box : string) (number : ascii) :
  (deref w values).[box] <> Str.of_char number ->
  let nw := branch_world w values box number in
  fst nw = List.length (heap w) /\
  List.length (heap (snd nw)) = S (List.length (heap w)) /\
  deref (snd nw) (fst nw) = (deref w values).[box <- Str.of_char number] /\
  forall r, r < List.length (heap w) -> deref (snd nw) r = deref w r.
Proof.
  intros Hne. cbv zeta.
  destruct (branch_world_frame w values box number) as (E1 & E2 & E3 & E4).
  rewrite assign_value_set in E3 by assumption. auto.
Qed.

End SearchFacts.

(** ** Correctness of [search] *)

Section SearchCorrect.

(** The grid of a branch: one unresolved cell less than the caller's. *)
Lemma trial_grid (values : Values) (box : string) (number : ascii) :
  grid_ok values -> In box boxes ->
  1 < Str.len values.[box] -> Str.contains values.[box] number = true ->
  let values' := values.[box <- Str.of_char number] in
  grid_ok values' /\ S (multi values') = multi values /\ le_grid values' values.
Proof.
  intros Hk Hb L Hc values'. unfold values'.
  assert (In box (Dict.keys values)) as Hin by now rewrite Hk.
  split; [unfold grid_ok; now rewrite keys_set|].
  split; [now apply multi_set_single|].
  apply le_grid_set; [assumption | now apply shrinks_of_char].
Qed.

Lemma resolved_truthy (values : Values) : resolved values -> Dict.truthy values = true.
Proof. intros (Hk & _). now apply grid_ok_nonempty. Qed.


Lemma try_numbers_spec (n : nat) (srch : World -> ref -> Outcome (Result * World))
      (values : ref) (box : string) (v1 : Values) :
  search_contract n srch ->
  grid_ok v1 -> In box boxes -> 1 < Str.len v1.[box] ->
  multi v1 <= n ->
  forall numbers w,
    (forall d, In d numbers -> Str.contains v1.[box] d = true) ->
    values < List.length (heap w) -> deref w values = v1 ->
    exists res w',
      try_numbers srch values box numbers w = Returns (res, w') /\
      frame_all w w' /\ try_numbers_post v1 box numbers w' res.
Proof.
  intros Hsrch Hk Hb L Hm.
  induction numbers as [|number rest IH]; intros w Hnum Hv Ev.
  - exists RNone, w. split; [reflexivity|]. split; [split; auto|].
    simpl. intros S _ _ d [].
  - rewrite try_numbers_cons.
    assert (Hc : Str.contains v1.[box] number = true) by (apply Hnum; now left).
    assert (Hne : (deref w values).[box] <> Str.of_char number).
    { rewrite Ev. intros E. rewrite E in L. simpl in L. lia. }
    destruct (branch_world_spec w values box number Hne) as (E1 & E2 & E3 & E4).
    rewrite Ev in E3.
    destruct (trial_grid v1 box number Hk Hb L Hc) as (Hk2 & Hm2 & Hle2).
    set (nw := branch_world w values box number) in *.
    destruct (Hsrch (snd nw) (fst nw)) as (res1 & w1 & Es & [F1 F2] & Hpost).
    { rewrite E1, E2. lia. }
    { now rewrite E3. }
    { rewrite E3. lia. }
    rewrite Es. rewrite E3 in Hpost.
    assert (Hold : forall r, r < List.length (heap w) -> deref w1 r = deref w r).
    { intros r Hr. rewrite F2; [now apply E4 | lia | lia]. }
    assert (Hrest : truthy w1 res1 = false ->
              (forall S, solved S -> le_grid S v1.[box <- Str.of_char number] -> False) ->
              exists res w',
                try_numbers srch values box rest w1 = Returns (res, w') /\
                frame_all w w' /\ try_numbers_post v1 box (number :: rest) w' res).
    { intros _ Hfail.
      destruct (IH w1) as (res2 & w2 & Et & [G1 G2] & Hp2).
      - intros d Hdin. apply Hnum. now right.
      - lia.
      - rewrite Hold by assumption. exact Ev.
      - exists res2, w2. split; [assumption|]. split.
        + split; [lia|]. intros r Hr. rewrite G2 by lia. now apply Hold.
        + destruct res2; simpl in *; try assumption;
            intros S HS HSle d [<-|Hdin] ES; try (now apply (Hp2 S HS HSle d Hdin));
            apply (Hfail S HS); apply le_grid_set_above; auto;
              try (rewrite Hk; assumption); rewrite ES; apply shrinks_refl. }
    destruct res1 as [| |r']; simpl truthy; cbv iota; try (now apply Hrest).
    destruct Hpost as (Hr' & Hsol & Hle).
    rewrite (resolved_truthy _ Hsol).
    exists (RDict r'), w1. split; [reflexivity|]. split.
    + split; [lia | exact Hold].
    + simpl. split; [assumption|]. split; [assumption|].
      eapply le_grid_trans; eassumption.
Qed.

Lemma all_single (values : Values) :
  forallb (fun value => Str.len value =? 1) (Dict.values_of values) = true ->
  forall box, In box (Dict.keys values) -> Str.len values.[box] = 1.
Proof.
  intros H box Hb. rewrite forallb_forall in H.
  apply Nat.eqb_eq. apply H. now apply get_in_values.
Qed.

(** When some cell is not resolved and none is empty, there is a cell to
    branch on. *)
Lemma some_multi (values : Values) :
  forallb (fun value => Str.len value =? 1) (Dict.values_of values) = false ->
  count0 values = 0 ->
  filter (fun it => 1 <? Str.len (snd it)) (Dict.items values) <> [].
Proof.
  unfold count0, check_number_of_solved_values, Dict.values_of, Dict.items.
  induction values as [|[k x] rest IH]; simpl; [discriminate|].
  intros H Z. destruct (Str.len x) as [|[|m]]; simpl in *; try discriminate.
  now apply IH.
Qed.

(** [search] returns on every grid with less unresolved cells than it has
    fuel; it touches no dict object but its argument and those it
    creates; a dict it returns is a solved grid below the argument; and
    when it returns [False] or [None] the argument has no solution. *)
Theorem search_spec (fuel : nat) : search_contract fuel (search fuel).
Proof.
  induction fuel as [|fuel IH]; intros w r Hr Hk Hm; [lia|].
  rewrite search_S.
  destruct (reduce_puzzle_returns (S fuel) (deref w r) Hm) as (ok & v1 & l & E & Hred).
  rewrite E. cbv zeta.
  set (w1 := append_log (store w r v1) l).
  assert (E1 : deref w1 r = v1).
  { unfold w1, append_log, deref. simpl. rewrite nth_list_set, Nat.eqb_refl.
    destruct (Nat.ltb_spec r (List.length (heap w))); [reflexivity | lia]. }
  assert (Hlen : List.length (heap w1) = List.length (heap w)).
  { unfold w1, append_log. simpl. apply list_set_length. }
  assert (F1 : frame_but r w w1).
  { split; [lia|]. intros r' Hr' Hne. unfold w1, append_log, deref. simpl.
    rewrite nth_list_set. destruct (Nat.eqb_spec r r'); [congruence | reflexivity]. }
  destruct Hred as [Hle Hres].
  pose proof (le_grid_ok _ _ Hle Hk) as Hk1.
  destruct ok; simpl andb; cbv iota.
  - destruct Hres as (Z & Hfix & _).
    rewrite (grid_ok_nonempty _ Hk1). simpl negb. cbv iota. rewrite E1.
    destruct (forallb _ (Dict.values_of v1)) eqn:Hall.
    + exists (RDict r), w1. split; [reflexivity|]. split; [assumption|].
      unfold search_post. rewrite E1. split; [rewrite Hlen; exact Hr|].
      split; [|assumption].
      split; [assumption|]. split; [|assumption].
      intros box Hb. apply all_single; [assumption | now rewrite Hk1].
    + pose proof (some_multi v1 Hall Z) as Hne.
      unfold choose_box.
      destruct (py_min _) as [[box bv]|] eqn:Emin;
        [|apply py_min_None in Emin; contradiction].
      apply py_min_In, filter_In in Emin as [Hin Lb]. simpl in Lb.
      apply Nat.ltb_lt in Lb.
      pose proof (@in_items_get v1 box bv (grid_ok_NoDup _ Hk1) Hin) as Ebv.
      assert (Hbox : In box boxes).
      { rewrite <- Hk1. change box with (fst (box, bv)). now apply in_map. }
      pose proof (le_grid_multi Hle) as Hmle.
      destruct (try_numbers_spec fuel (search fuel) r box v1 IH Hk1 Hbox)
        with (numbers := Str.chars bv) (w := w1) as (res & w' & Et & [G1 G2] & Hp);
        try (rewrite Ebv; assumption); try lia; try assumption.
      { intros d Hdin. rewrite Ebv. unfold Str.contains.
        apply existsb_exists. exists d. split; [assumption | apply Ascii.eqb_refl]. }
      exists res, w'. split; [assumption|]. split.
      * destruct F1 as [F1 F2]. split; [lia|].
        intros r' Hr' Hne'. rewrite G2 by lia. now apply F2.
      * destruct res as [| |r']; unfold search_post, try_numbers_post in *.
        -- intros sol HS HSle.
           destruct (reduce_puzzle_above sol HS (S fuel) (deref w r) (true, v1) l HSle E)
             as [_ HS1]. cbn [snd] in HS1.
           destruct (solved_cell sol HS box Hbox) as [d Ed].
           apply (Hp sol HS HS1 d); [|assumption].
           pose proof (above_contains sol v1 box d HS1 Ed) as Hc.
           rewrite Ebv in Hc. unfold Str.contains in Hc.
           apply existsb_exists in Hc as (x & Hx & Ex).
           apply Ascii.eqb_eq in Ex. now rewrite Ex.
        -- intros sol HS HSle.
           destruct (reduce_puzzle_above sol HS (S fuel) (deref w r) (true, v1) l HSle E)
             as [_ HS1]. cbn [snd] in HS1.
           destruct (solved_cell sol HS box Hbox) as [d Ed].
           apply (Hp sol HS HS1 d); [|assumption].
           pose proof (above_contains sol v1 box d HS1 Ed) as Hc.
           rewrite Ebv in Hc. unfold Str.contains in Hc.
           apply existsb_exists in Hc as (x & Hx & Ex).
           apply Ascii.eqb_eq in Ex. now rewrite Ex.
        -- destruct Hp as (Hp1 & Hp2 & Hp3). split; [assumption|].
           split; [assumption|]. eapply le_grid_trans; eassumption.
  - simpl negb. cbv iota. exists RFalse, w1. split; [reflexivity|].
    split; [assumption|]. unfold search_post. intros sol HS HSle.
    destruct (reduce_puzzle_above sol HS (S fuel) (deref w r) (false, v1) l HSle E)
      as [Habs _]. discriminate.
Qed.

End SearchCorrect.

(** ** [naked_twins] only shrinks cells *)

Section NakedTwinsOrder.

Lemma twins_box_le (naked_pair0 : string) (num : ascii) (values : Values) (box : string) :
  le_grid (twins_box naked_pair0 num values box) values.
Proof.
  unfold twins_box.
  destruct (Nat.ltb_spec 1 (Str.len values.[box])) as [L|L]; cbn [andb];
    [|apply le_grid_refl].
  destruct (negb _); [|apply le_grid_refl].
  apply le_grid_set.
  - apply get_nonempty_key. intros E. rewrite E in L. simpl in L. lia.
  - apply shrinks_replace. simpl. lia.
Qed.

Lemma naked_twins_unit_le (values : Values) (unit : list string) :
  le_grid (naked_twins_unit values unit) values.
Proof.
  unfold naked_twins_unit. destruct (naked_pairs values unit) as [|p0 _];
    [apply le_grid_refl|].
  apply (fold_left_invariant (fun v => le_grid v values)); [apply le_grid_refl|].
  intros v num _ Hv.
  apply (fold_left_invariant (fun v => le_grid v values)); [assumption|].
  intros v' box _ Hv'. eapply le_grid_trans; [apply twins_box_le | exact Hv'].
Qed.

Lemma naked_twins_le (values : Values) : le_grid (naked_twins values) values.
Proof.
  unfold naked_twins.
  apply (fold_left_invariant (fun v => le_grid v values)); [apply le_grid_refl|].
  intros v unit _ Hv. eapply le_grid_trans; [apply naked_twins_unit_le | exact Hv].
Qed.

End NakedTwinsOrder.

(** ** Claims on the passes *)

(** C6.  Monotonicity: for every grid and every cell, the cell after
    [eliminate], after [only_choice] and after [naked_twins] holds no
    candidate that it did not hold before the pass (and is no longer). *)
Theorem passes_only_shrink (values : Values) (box : string) :
  Str.shrinks (fst (eliminate values)).[box] values.[box] /\
  Str.shrinks (only_choice values).[box] values.[box] /\
  Str.shrinks (naked_twins values).[box] values.[box].
Proof.
  split; [|split]; apply le_grid_get.
  - apply eliminate_le.
  - apply only_choice_le.
  - apply naked_twins_le.
Qed.

Section Contradictions.

Lemma empty_stays_empty (values' values : Values) (box : string) :
  le_grid values' values -> values.[box] = "" -> values'.[box] = "".
Proof.
  intros H E. apply shrinks_empty. rewrite <- E. now apply le_grid_get.
Qed.

Lemma empty_cell_count0 (values : Values) (box : string) :
  In box (Dict.keys values) -> values.[box] = "" -> count0 values <> 0.
Proof. intros Hin E. now apply (@count0_pos values box). Qed.

Lemma reduce_puzzle_false_now (fuel : nat) (values : Values) :
  count0 (reduce_step values) <> 0 ->
  reduce_puzzle (S fuel) values
  = Returns ((false, reduce_step values), snd (eliminate values)).
Proof.
  intros H. rewrite reduce_puzzle_S. cbv zeta.
  destruct (Nat.eqb_spec (count0 (reduce_step values)) 0); [contradiction | reflexivity].
Qed.

Lemma empty_in_iteration_end (values : Values) :
  empty_in_iteration values -> count0 (reduce_step values) <> 0.
Proof.
  intros [H|[H|H]]; [| |assumption].
  - pose proof (le_grid_count0 (reduce_step_le values)). lia.
  - pose proof (le_grid_count0 (only_choice_le (fst (eliminate values)))).
    unfold reduce_step. lia.
Qed.

(** An iteration after which the loop goes on has resolved a cell. *)
Lemma loop_progress (values : Values) :
  loop_continues values ->
  count1 values < count1 (reduce_step values) /\
  multi (reduce_step values) < multi values.
Proof.
  intros [Z C]. pose proof (reduce_step_le values) as Hle.
  pose proof (le_grid_count1 Hle Z). pose proof (le_grid_count0 Hle).
  pose proof (count_total values). pose proof (count_total (reduce_step values)).
  pose proof (le_grid_length Hle). lia.
Qed.

Lemma reduce_puzzle_continues (fuel : nat) (values : Values) :
  loop_continues values ->
  reduce_puzzle (S fuel) values =
  match reduce_puzzle fuel (reduce_step values) with
  | Returns (r, log2) => Returns (r, snd (eliminate values) ++ log2)
  | Raises e => Raises e
  | OutOfFuel => OutOfFuel
  end.
Proof.
  intros [Z C]. rewrite reduce_puzzle_S. cbv zeta. rewrite Z. simpl.
  destruct (Nat.eqb_spec (count1 values) (count1 (reduce_step values)));
    [contradiction | reflexivity].
Qed.

Lemma contradictory_false (values : Values) :
  contradictory values ->
  forall fuel, multi values < fuel ->
               exists v l, reduce_puzzle fuel values = Returns ((false, v), l).
Proof.
  intros (v' & Hreach & Hempty).
  induction Hreach as [v|v v' Hcont Hreach IH]; intros fuel Hf.
  - destruct fuel as [|fuel]; [lia|].
    rewrite reduce_puzzle_false_now by now apply empty_in_iteration_end.
    eauto.
  - destruct fuel as [|fuel]; [lia|].
    rewrite reduce_puzzle_continues by assumption.
    destruct (loop_progress v Hcont) as [_ Hm].
    destruct (IH Hempty fuel) as (vf & l & E); [lia|].
    rewrite E. eauto.
Qed.

(** The same digit in two peers drives a cell empty in the first
    [eliminate]. *)
Lemma peers_clash_empty (values : Values) :
  grid_ok values -> peers_clash values -> count0 (fst (eliminate values)) <> 0.
Proof.
  intros Hk (a & b & d & Ha & Hb & Ea & Eb).
  pose proof (eliminate_le values) as Hle.
  pose proof (le_grid_keys Hle) as Hkeys. rewrite Hk in Hkeys.
  destruct (string_dec (fst (eliminate values)).[a] "") as [Z|Hne].
  - apply (empty_cell_count0 _ a); [now rewrite Hkeys | assumption].
  - apply (empty_cell_count0 _ b).
    + rewrite Hkeys. eapply peers_in_boxes; eassumption.
    + assert (Str.contains (fst (eliminate values)).[b] d = false) as Hc.
      { apply eliminate_clears_peers with (box := a); auto. now rewrite Hk. }
      pose proof (le_grid_get b Hle) as Hs. rewrite Eb in Hs.
      destruct (shrinks_single Hs) as [Z|Z]; [assumption|].
      rewrite Z, contains_of_char, Ascii.eqb_refl in Hc. discriminate.
Qed.

Lemma search_false (fuel : nat) (w : World) (r : ref) (v : Values) (l : Log) :
  reduce_puzzle (S fuel) (deref w r) = Returns ((false, v), l) ->
  search (S fuel) w r = Returns (RFalse, append_log (store w r v) l).
Proof. intros E. rewrite search_S, E. reflexivity. Qed.

Lemma resolved_count0 (values : Values) : resolved values -> count0 values = 0.
Proof.
  intros (Hk & Hs & _). unfold count0, check_number_of_solved_values.
  destruct (filter _ _) as [|x l] eqn:E; [reflexivity|].
  assert (In x (filter (fun value => Str.len value =? 0) (Dict.values_of values))) as Hx
      by (rewrite E; now left).
  apply filter_In in Hx as [Hx L]. apply Nat.eqb_eq in L.
  apply in_values_get in Hx as (k & Hkin & Ek); [|now apply grid_ok_NoDup].
  rewrite Hk in Hkin. specialize (Hs k Hkin). rewrite Ek in Hs. lia.
Qed.

End Contradictions.

(** C2.  On a grid of the 81 boxes in which a cell is empty, or becomes
    empty in some iteration of the reduction, in particular one that holds
    the same digit in two peers, [reduce_puzzle] returns [False] and so does
    [search]; and no grid that either of them returns has an empty cell. *)
Theorem contradiction_is_reported (fuel : nat) (w : World) (r : ref) :
  r < List.length (heap w) -> grid_ok (deref w r) -> multi (deref w r) < fuel ->
  (contradictory (deref w r) \/ peers_clash (deref w r) ->
   (exists v l, reduce_puzzle fuel (deref w r) = Returns ((false, v), l)) /\
   (exists w', search fuel w r = Returns (RFalse, w'))) /\
  (forall v l, reduce_puzzle fuel (deref w r) = Returns ((true, v), l) -> count0 v = 0) /\
  (forall r' w', search fuel w r = Returns (RDict r', w') -> count0 (deref w' r') = 0).
Proof.
  intros Hr Hk Hm. split; [|split].
  - intros H.
    assert (contradictory (deref w r)) as Hc.
    { destruct H as [H|H]; [assumption|].
      exists (deref w r). split; [apply reaches_here|].
      right. left. now apply peers_clash_empty. }
    destruct (contradictory_false _ Hc fuel Hm) as (v & l & E).
    split; [eauto|].
    destruct fuel as [|fuel]; [lia|].
    rewrite (search_false fuel w r v l E). eauto.
  - intros v l E. apply reduce_puzzle_result in E as [_ H]. apply H.
  - intros r' w' E.
    destruct (search_spec fuel w r Hr Hk Hm) as (res & w2 & E2 & _ & Hpost).
    rewrite E in E2. inversion E2; subst.
    destruct Hpost as (_ & Hres & _). now apply resolved_count0.
Qed.

(** C10.  A cell that is empty at the head of an iteration, or after its
    [eliminate], is still empty after [eliminate] and after [only_choice];
    so the test at the end of the iteration finds it and [reduce_puzzle]
    returns [False]. *)
Theorem empty_cell_is_detected (fuel : nat) (values : Values) (box : string) :
  In box (Dict.keys values) ->
  values.[box] = "" \/ (fst (eliminate values)).[box] = "" ->
  (values.[box] = "" -> (only_choice values).[box] = "") /\
  (fst (eliminate values)).[box] = "" /\
  (only_choice (fst (eliminate values))).[box] = "" /\
  exists l, reduce_puzzle (S fuel) values
            = Returns ((false, only_choice (fst (eliminate values))), l).
Proof.
  intros Hin H.
  assert ((fst (eliminate values)).[box] = "") as He.
  { destruct H as [H|H]; [|assumption].
    now apply (empty_stays_empty _ values box (eliminate_le values)). }
  assert ((only_choice (fst (eliminate values))).[box] = "") as Ho.
  { now apply (empty_stays_empty _ _ box (only_choice_le (fst (eliminate values)))). }
  split; [|split; [assumption|split; [assumption|]]].
  - intros Z. now apply (empty_stays_empty _ values box (only_choice_le values)).
  - exists (snd (eliminate values)).
    rewrite <- reduce_step_eq. apply reduce_puzzle_false_now. rewrite reduce_step_eq.
    apply (empty_cell_count0 _ box); [|assumption].
    rewrite (le_grid_keys (only_choice_le (fst (eliminate values)))).
    now rewrite (le_grid_keys (eliminate_le values)).
Qed.

(** The grid with the digit 1 in A1 and A2 meets the hypotheses. *)
Lemma contradiction_is_reported_witness :
  0 < List.length (heap (world_of clash_grid)) /\
  grid_ok (deref (world_of clash_grid) 0) /\
  multi (deref (world_of clash_grid) 0) < 82 /\
  peers_clash (deref (world_of clash_grid) 0) /\
  (contradictory (deref (world_of clash_grid) 0)
   \/ peers_clash (deref (world_of clash_grid) 0) ->
   (exists v l,
       reduce_puzzle 82 (deref (world_of clash_grid) 0) = Returns ((false, v), l)) /\
   (exists w', search 82 (world_of clash_grid) 0 = Returns (RFalse, w'))) /\
  (forall v l,
      reduce_puzzle 82 (deref (world_of clash_grid) 0) = Returns ((true, v), l) ->
      count0 v = 0) /\
  (forall r' w',
      search 82 (world_of clash_grid) 0 = Returns (RDict r', w') ->
      count0 (deref w' r') = 0).
Proof.
  assert (H1 : 0 < List.length (heap (world_of clash_grid))) by (vm_compute; lia).
  assert (H2 : grid_ok (deref (world_of clash_grid) 0)) by (vm_compute; reflexivity).
  assert (H3 : multi (deref (world_of clash_grid) 0) < 82) by (vm_compute; lia).
  assert (H4 : peers_clash (deref (world_of clash_grid) 0)).
  { exists "A1", "A2", "1"%char. repeat split.
    - apply mem_In. vm_compute. reflexivity.
    - apply mem_In. vm_compute. reflexivity. }
  split; [exact H1|]. split; [exact H2|]. split; [exact H3|]. split; [exact H4|].
  apply (contradiction_is_reported 82 (world_of clash_grid) 0 H1 H2 H3).
Defined.

(** On the grid with the digit 1 in A1 and A2, [eliminate] empties A2. *)
Lemma empty_cell_is_detected_witness :
  In "A2" (Dict.keys (grid_values clash_grid)) /\
  ((grid_values clash_grid).["A2"] = ""
   \/ (fst (eliminate (grid_values clash_grid))).["A2"] = "") /\
  ((grid_values clash_grid).["A2"] = "" ->
   (only_choice (grid_values clash_grid)).["A2"] = "") /\
  (fst (eliminate (grid_values clash_grid))).["A2"] = "" /\
  (only_choice (fst (eliminate (grid_values clash_grid)))).["A2"] = "" /\
  exists l, reduce_puzzle 1 (grid_values clash_grid)
            = Returns ((false, only_choice (fst (eliminate (grid_values clash_grid)))), l).
Proof.
  assert (H1 : In "A2" (Dict.keys (grid_values clash_grid)))
    by (apply mem_In; vm_compute; reflexivity).
  assert (H2 : (grid_values clash_grid).["A2"] = ""
               \/ (fst (eliminate (grid_values clash_grid))).["A2"] = "")
    by (right; vm_compute; reflexivity).
  split; [assumption|]. split; [assumption|].
  apply (empty_cell_is_detected 0 (grid_values clash_grid) "A2" H1 H2).
Defined.

(** ** Termination and the frame of [search] *)

Section Termination.

Lemma grid_ok_multi (values : Values) : grid_ok values -> multi values <= 81.
Proof.
  intros Hk. pose proof (count_total values). pose proof (grid_ok_length _ Hk). lia.
Qed.

Lemma choose_box_spec (values : Values) (box bv : string) :
  grid_ok values -> choose_box values = Some (box, bv) ->
  In box boxes /\ values.[box] = bv /\ 1 < Str.len bv.
Proof.
  intros Hk E. unfold choose_box in E.
  apply py_min_In, filter_In in E as [Hin L]. cbn [snd] in L.
  apply Nat.ltb_lt in L. split; [|split; [|assumption]].
  - rewrite <- Hk. change box with (fst (box, bv)). now apply in_map.
  - apply in_items_get; [now apply grid_ok_NoDup | assumption].
Qed.

Lemma chars_contains (s : string) (c : ascii) :
  In c (Str.chars s) -> Str.contains s c = true.
Proof.
  intros H. unfold Str.contains. apply existsb_exists.
  exists c. split; [assumption | apply Ascii.eqb_refl].
Qed.

Lemma try_numbers_frame (srch : World -> ref -> Outcome (Result * World))
      (values : ref) (box : string) :
  (forall w r res w', r < List.length (heap w) -> srch w r = Returns (res, w') ->
                      frame_but r w w') ->
  forall numbers w res w',
    try_numbers srch values box numbers w = Returns (res, w') -> frame_all w w'.
Proof.
  intros Hsrch. induction numbers as [|number rest IH]; intros w res w' E.
  - simpl in E. inversion E; subst. split; auto.
  - rewrite try_numbers_cons in E.
    destruct (branch_world_frame w values box number) as (E1 & E2 & _ & E4).
    destruct (srch _ _) as [[attempt w1]| |] eqn:Es; try discriminate.
    apply Hsrch in Es as [F1 F2]; [|rewrite E1, E2; lia].
    assert (frame_all w w1) as Hf.
    { split; [lia|]. intros r Hr. rewrite F2; [now apply E4 | lia | lia]. }
    destruct (truthy w1 attempt).
    + inversion E; subst. exact Hf.
    + apply IH in E as [G1 G2]. destruct Hf as [H1 H2].
      split; [lia|]. intros r Hr. rewrite G2 by lia. now apply H2.
Qed.

(** Whatever [search] returns, it has touched no dict object that existed
    when it was called, but the one it was called on. *)
Lemma search_frame (fuel : nat) (w : World) (r : ref) (res : Result) (w' : World) :
  r < List.length (heap w) -> search fuel w r = Returns (res, w') -> frame_but r w w'.
Proof.
  revert w r res w'. induction fuel as [|fuel IH]; intros w r res w' Hr E;
    [discriminate|].
  rewrite search_S in E.
  destruct (reduce_puzzle (S fuel) (deref w r)) as [[[ok v1] l]| |]; try discriminate.
  cbv zeta in E.
  set (w1 := append_log (store w r v1) l) in *.
  assert (Hlen : List.length (heap w1) = List.length (heap w)).
  { unfold w1, append_log. cbn [heap]. unfold store. cbn [heap]. apply list_set_length. }
  assert (F1 : frame_but r w w1).
  { split; [lia|]. intros r' Hr' Hne. unfold w1, append_log, deref, store. cbn [heap].
    rewrite nth_list_set. destruct (Nat.eqb_spec r r'); [congruence | reflexivity]. }
  destruct (negb _); [inversion E; subst; exact F1|].
  destruct (forallb _ _); [inversion E; subst; exact F1|].
  destruct (choose_box _) as [[box bv]|]; [|discriminate].
  apply (try_numbers_frame (search fuel) r box IH) in E as [G1 G2].
  destruct F1 as [H1 H2]. split; [lia|].
  intros r' Hr' Hne. rewrite G2 by lia. now apply H2.
Qed.

End Termination.

(** C8.  [search] terminates on every grid of the 81 boxes: an iteration
    of the loop of [reduce_puzzle] after which the loop goes on has raised
    the number of resolved cells, and 82 iterations are enough; the grid of
    a recursive call has less unresolved cells than the grid of the call;
    and one level of recursion more than there are unresolved cells, at
    most 82, is enough for [search] to return. *)
Theorem search_terminates (values : Values) :
  grid_ok values ->
  (loop_continues values -> count1 values < count1 (reduce_step values)) /\
  (exists res l, reduce_puzzle 82 values = Returns (res, l)) /\
  (forall fuel v1 l box bv number w r,
      reduce_puzzle fuel values = Returns ((true, v1), l) ->
      choose_box v1 = Some (box, bv) -> In number (Str.chars bv) ->
      deref w r = v1 ->
      multi (deref (snd (branch_world w r box number)) (fst (branch_world w r box number)))
      < multi values) /\
  multi values <= 81 /\
  (forall w r, r < List.length (heap w) -> deref w r = values ->
               exists res w', search (S (multi values)) w r = Returns (res, w')).
Proof.
  intros Hk. pose proof (grid_ok_multi values Hk) as Hm.
  split; [|split; [|split; [|split; [assumption|]]]].
  - intros H. now apply loop_progress.
  - destruct (reduce_puzzle_returns 82 values) as (ok & v & l & E & _); [lia|].
    eauto.
  - intros fuel v1 l box bv number w r E Ec Hn Ew.
    apply reduce_puzzle_result in E as [Hle _]. cbn [fst snd] in Hle.
    pose proof (le_grid_ok _ _ Hle Hk) as Hk1.
    destruct (choose_box_spec v1 box bv Hk1 Ec) as (Hb & Ebv & L).
    assert (Hne : (deref w r).[box] <> Str.of_char number).
    { rewrite Ew, Ebv. intros Z. rewrite Z in L. simpl in L. lia. }
    destruct (branch_world_spec w r box number Hne) as (_ & _ & E3 & _).
    rewrite E3, Ew.
    destruct (trial_grid v1 box number Hk1 Hb) as (_ & Hs & _).
    + now rewrite Ebv.
    + rewrite Ebv. now apply chars_contains.
    + pose proof (le_grid_multi Hle). lia.
  - intros w r Hr Ew.
    destruct (search_spec (S (multi values)) w r Hr) as (res & w' & E & _).
    + now rewrite Ew.
    + rewrite Ew. lia.
    + eauto.
Qed.

(** The second grid is a grid of the 81 boxes. *)
Lemma search_terminates_witness :
  grid_ok (grid_values second_grid) /\
  (loop_continues (grid_values second_grid) ->
   count1 (grid_values second_grid) < count1 (reduce_step (grid_values second_grid))) /\
  (exists res l, reduce_puzzle 82 (grid_values second_grid) = Returns (res, l)) /\
  (forall fuel v1 l box bv number w r,
      reduce_puzzle fuel (grid_values second_grid) = Returns ((true, v1), l) ->
      choose_box v1 = Some (box, bv) -> In number (Str.chars bv) ->
      deref w r = v1 ->
      multi (deref (snd (branch_world w r box number)) (fst (branch_world w r box number)))
      < multi (grid_values second_grid)) /\
  multi (grid_values second_grid) <= 81 /\
  (forall w r, r < List.length (heap w) -> deref w r = grid_values second_grid ->
               exists res w',
                 search (S (multi (grid_values second_grid))) w r = Returns (res, w')).
Proof.
  assert (H : grid_ok (grid_values second_grid)) by (vm_compute; reflexivity).
  split; [assumption|].
  apply (search_terminates (grid_values second_grid) H).
Defined.

(** C7.  Every trial assignment of [search] is made on a new dict object,
    a copy of the caller's that [assign_value] then updates; the caller's
    dict is not touched by it.  When the branch of a digit returns, every dict
    object that existed before the branch, the caller's grid among them,
    holds what it held before; and when the branch has failed, the loop
    goes on with the remaining digits from there. *)
Theorem failed_branch_leaves_caller_grid (fuel : nat) (w : World) (values : ref)
        (box : string) (number : ascii) (rest : list ascii) :
  values < List.length (heap w) ->
  let new_values := fst (branch_world w values box number) in
  let w1 := snd (branch_world w values box number) in
  new_values = List.length (heap w) /\
  deref w1 new_values = fst (assign_value (deref w values) box (Str.of_char number)) /\
  deref w1 values = deref w values /\
  match search fuel w1 new_values with
  | Returns (attempt, w') =>
      (forall r, r < List.length (heap w) -> deref w' r = deref w r) /\
      (truthy w' attempt = false ->
       deref w' values = deref w values /\
       try_numbers (search fuel) values box (number :: rest) w
       = try_numbers (search fuel) values box rest w')
  | _ => True
  end.
Proof.
  intros Hv new_values w1.
  destruct (branch_world_frame w values box number) as (E1 & E2 & E3 & E4).
  fold new_values in E1, E3. fold w1 in E2, E3, E4.
  split; [assumption|]. split; [assumption|]. split; [now apply E4|].
  destruct (search fuel w1 new_values) as [[attempt w']| |] eqn:Es; [|exact I|exact I].
  pose proof Es as Hfr. apply search_frame in Hfr as [F1 F2]; [|rewrite E1, E2; lia].
  assert (Hold : forall r, r < List.length (heap w) -> deref w' r = deref w r).
  { intros r Hr. rewrite F2; [now apply E4 | lia | lia]. }
  split; [assumption|].
  intros Hfail. split; [now apply Hold|].
  rewrite try_numbers_cons. fold new_values w1. rewrite Es, Hfail. reflexivity.
Qed.

(** A branch on A3 from a world with one dict object. *)
Lemma failed_branch_leaves_caller_grid_witness :
  0 < List.length (heap (world_of clash_grid)) /\
  let new_values := fst (branch_world (world_of clash_grid) 0 "A3" "2") in
  let w1 := snd (branch_world (world_of clash_grid) 0 "A3" "2") in
  new_values = List.length (heap (world_of clash_grid)) /\
  deref w1 new_values
  = fst (assign_value (deref (world_of clash_grid) 0) "A3" (Str.of_char "2")) /\
  deref w1 0 = deref (world_of clash_grid) 0 /\
  match search 1 w1 new_values with
  | Returns (attempt, w') =>
      (forall r, r < List.length (heap (world_of clash_grid)) ->
                 deref w' r = deref (world_of clash_grid) r) /\
      (truthy w' attempt = false ->
       deref w' 0 = deref (world_of clash_grid) 0 /\
       try_numbers (search 1) 0 "A3" ["2"%char] (world_of clash_grid)
       = try_numbers (search 1) 0 "A3" [] w')
  | _ => True
  end.
Proof.
  assert (H : 0 < List.length (heap (world_of clash_grid))) by (vm_compute; lia).
  split; [assumption|].
  apply (failed_branch_leaves_caller_grid 1 (world_of clash_grid) 0 "A3" "2" [] H).
Defined.

(** ** [grid_values] *)

Section GridValues.

Lemma set_absent (values : Values) (k x : string) :
  ~ In k (Dict.keys values) -> values.[k <- x] = values ++ [(k, x)].
Proof.
  unfold Dict.keys. induction values as [|[k0 v0] rest IH]; simpl; [reflexivity|].
  intros H. destruct (String.eqb_spec k0 k) as [->|_]; [tauto|].
  rewrite IH; [reflexivity | tauto].
Qed.

Lemma of_pairs_from (pairs acc : Values) :
  NoDup (Dict.keys pairs) ->
  (forall k, In k (Dict.keys pairs) -> ~ In k (Dict.keys acc)) ->
  fold_left (fun d kv => d.[fst kv <- snd kv]) pairs acc = acc ++ pairs.
Proof.
  unfold Dict.keys. revert acc.
  induction pairs as [|[k x] rest IH]; intros acc Hnd Hdis; simpl.
  - now rewrite app_nil_r.
  - inversion Hnd as [|? ? Hk Hnd']; subst.
    rewrite set_absent by (apply Hdis; now left).
    rewrite IH; [now rewrite <- app_assoc | assumption |].
    intros k' Hk' Hin. rewrite map_app in Hin. apply in_app_or in Hin as [Hin|[<-|[]]].
    + apply (Hdis k'); [now right | assumption].
    + contradiction.
Qed.

Lemma of_pairs_nodup (pairs : Values) :
  NoDup (Dict.keys pairs) -> Dict.of_pairs pairs = pairs.
Proof.
  intros H. unfold Dict.of_pairs. rewrite of_pairs_from; auto.
Qed.



Lemma chars_length (s : string) : List.length (Str.chars s) = Str.len s.
Proof. unfold Str.chars, Str.len. induction s; simpl; congruence. Qed.



Lemma candidate_of_digit (g : ascii) :
  Str.is_digit g = true -> Str.candidate (Str.of_char g) = true.
Proof. intros H. unfold Str.candidate. simpl. now rewrite H. Qed.


Lemma candidates_get (values : Values) (box : string) :
  candidates_ok values = true -> Str.candidate values.[box] = true.
Proof.
  unfold candidates_ok, Dict.values_of.
  induction values as [|[k x] rest IH]; simpl; [reflexivity|].
  intros H. apply andb_true_iff in H as [H1 H2].
  destruct (String.eqb k box); auto.
Qed.

Lemma candidate_digits (s : string) (c : ascii) :
  Str.candidate s = true -> Str.contains s c = true -> Str.is_digit c = true.
Proof.
  unfold Str.candidate, Str.contains. intros H Hc.
  apply andb_true_iff in H as [H _]. rewrite forallb_forall in H.
  apply existsb_exists in Hc as (x & Hx & E). apply Ascii.eqb_eq in E. subst x.
  now apply H.
Qed.

Lemma candidates_digits_only (values : Values) :
  candidates_ok values = true -> digits_only values.
Proof.
  intros H box c Hc. eapply candidate_digits; [|exact Hc]. now apply candidates_get.
Qed.

End GridValues.

(** ** The contract of [solve] *)



(** The grid of the entry point is solved by the reduction alone: no dict
    is copied.  The second grid needs the search: 17 trial copies are made
    before the solution is found. *)
Example solve_diag_sudoku_grid :
  exists w',
    solve 82 (mkWorld [] []) diag_sudoku_grid = Returns (RDict 0, w') /\
    List.length (heap w') = 1 /\
    Dict.values_of (deref w' 0)
    = map Str.of_char
          (Str.chars
             "267945381853716249491823576576438192384192657129657438642379815935281764718564923").
Proof.
  eexists. split; [vm_compute; reflexivity|]. split; vm_compute; reflexivity.
Qed.

Example solve_second_grid :
  exists r w',
    solve 82 (mkWorld [] []) second_grid = Returns (RDict r, w') /\
    List.length (heap w') = 18 /\
    Dict.values_of (deref w' r)
    = map Str.of_char
          (Str.chars
             "931264587865173249274958361417386925583429716629517834348695172792841653156732498").
Proof.
  eexists _, _. split; [vm_compute; reflexivity|]. split; vm_compute; reflexivity.
Qed.

(** A grid with the same digit in two peers has no solution. *)
Example solve_clash_grid :
  exists w', solve 82 (mkWorld [] []) clash_grid = Returns (RFalse, w').
Proof. eexists. vm_compute. reflexivity. Qed.

(** ** The cell [search] branches on *)

Section ChooseBox.

Lemma compare_as_OT (s1 s2 : string) :
  String.compare s1 s2 = String_as_OT.compare s1 s2.
Proof.
  revert s2. induction s1 as [|c1 s1 IH]; intros [|c2 s2]; reflexivity.
Qed.

Lemma compare_refl (s : string) : String.compare s s = Eq.
Proof.
  pose proof (String.compare_antisym s s) as H.
  destruct (String.compare s s); [reflexivity | discriminate | discriminate].
Qed.

Lemma compare_trans (s1 s2 s3 : string) :
  String.compare s1 s2 = Lt -> String.compare s2 s3 = Lt -> String.compare s1 s3 = Lt.
Proof.
  rewrite !compare_as_OT. intros H1 H2.
  exact (@RelationClasses.StrictOrder_Transitive _ _ String_as_OT.lt_strorder s1 s2 s3 H1 H2).
Qed.

Lemma ltb_Lt (s1 s2 : string) : String.ltb s1 s2 = true <-> String.compare s1 s2 = Lt.
Proof.
  unfold String.ltb. destruct (String.compare s1 s2); split; intros; congruence.
Qed.

Lemma tuple_ltb_irrefl (a : string * string) : tuple_ltb a a = false.
Proof.
  unfold tuple_ltb. rewrite compare_refl.
  unfold String.ltb. now rewrite compare_refl.
Qed.

Lemma tuple_ltb_trans (a b c : string * string) :
  tuple_ltb a b = true -> tuple_ltb b c = true -> tuple_ltb a c = true.
Proof.
  unfold tuple_ltb. intros H1 H2.
  destruct (String.compare (fst a) (fst b)) eqn:E1; try discriminate;
    destruct (String.compare (fst b) (fst c)) eqn:E2; try discriminate.
  - apply String.compare_eq_iff in E1, E2. rewrite E1, E2, compare_refl.
    apply ltb_Lt. apply ltb_Lt in H1, H2. eapply compare_trans; eassumption.
  - apply String.compare_eq_iff in E1. now rewrite E1, E2.
  - apply String.compare_eq_iff in E2. now rewrite <- E2, E1.
  - now rewrite (compare_trans _ _ _ E1 E2).
Qed.

(** [min] returns an element that none of the list is less than. *)
Lemma py_min_least (l : list (string * string)) (m : string * string) :
  py_min l = Some m -> forall x, In x l -> tuple_ltb x m = false.
Proof.
  destruct l as [|y rest]; [discriminate|]. cbn [py_min]. intros E.
  inversion E as [Em]. clear E.
  assert (H : forall seen best,
             (forall x, In x seen -> tuple_ltb x best = false) ->
             forall x, In x (seen ++ rest) ->
                       tuple_ltb x (fold_left (fun best y => if tuple_ltb y best then y else best)
                                              rest best) = false).
  { clear. induction rest as [|z rest IH]; intros seen best Hseen x Hx.
    - rewrite app_nil_r in Hx. now apply Hseen.
    - cbn [fold_left]. apply (IH (seen ++ [z])).
      + intros x' Hx'. apply in_app_or in Hx' as [Hx'|[<-|[]]].
        * destruct (tuple_ltb z best) eqn:Hz; [|now apply Hseen].
          destruct (tuple_ltb x' z) eqn:Hxz; [|reflexivity].
          rewrite <- (Hseen x' Hx'). symmetry. now apply tuple_ltb_trans with (b := z).
        * destruct (tuple_ltb z best) eqn:Hz; [apply tuple_ltb_irrefl | assumption].
      + rewrite <- app_assoc. exact Hx. }
  intros x Hx. apply (H [y] y).
  - intros x' [<-|[]]. apply tuple_ltb_irrefl.
  - exact Hx.
Qed.

(** The cell [search] branches on is the unresolved box with the least
    name: no unresolved box has a name before it. *)
Lemma choose_box_least_name (values : Values) (box bv : string) :
  grid_ok values -> choose_box values = Some (box, bv) ->
  forall b, In b boxes -> 1 < Str.len values.[b] -> String.compare b box <> Lt.
Proof.
  intros Hk E b Hb L Hlt.
  assert (Hin : In (b, values.[b])
                   (filter (fun it => 1 <? Str.len (snd it)) (Dict.items values))).
  { apply filter_In. split; [|now apply Nat.ltb_lt].
    rewrite <- Hk in Hb. clear - Hb. unfold Dict.items, Dict.keys in *.
    induction values as [|[k x] rest IH]; [destruct Hb|].
    cbn [Dict.get]. destruct (String.eqb_spec k b) as [->|Hne]; [now left|].
    right. apply IH. destruct Hb as [Hb|Hb]; [contradiction | assumption]. }
  pose proof (py_min_least _ _ E _ Hin) as Hm.
  unfold tuple_ltb in Hm. cbn [fst snd] in Hm. now rewrite Hlt in Hm.
Qed.

End ChooseBox.

(** C3 (the code departs from it).  The cell [search] branches on is the
    first unresolved box in the order of the names, whatever the numbers of
    candidates.  On the grid the entry point holds in a comment, the
    reduction leaves A2 with the three candidates 367 and B2 with the two
    candidates 36; [search] branches on A2 and tries 3, 6 and 7. *)
Theorem search_branches_on_first_unresolved_box :
  (forall values box bv,
      grid_ok values -> choose_box values = Some (box, bv) ->
      forall b, In b boxes -> 1 < Str.len values.[b] -> String.compare b box <> Lt) /\
  reduce_puzzle 82 (grid_values second_grid)
  = Returns ((true, reduced_grid second_grid), reduced_log second_grid) /\
  choose_box (reduced_grid second_grid) = Some ("A2", "367") /\
  (reduced_grid second_grid).["B2"] = "36" /\
  search 82 (world_of second_grid) 0
  = try_numbers (search 81) 0 "A2" ["3"; "6"; "7"]%char
      (append_log (store (world_of second_grid) 0 (reduced_grid second_grid))
                  (reduced_log second_grid)).
Proof.
  assert (E : reduce_puzzle 82 (grid_values second_grid)
              = Returns ((true, reduced_grid second_grid), reduced_log second_grid))
    by (vm_compute; reflexivity).
  assert (Ec : choose_box (reduced_grid second_grid) = Some ("A2", "367"))
    by (vm_compute; reflexivity).
  split; [exact choose_box_least_name|].
  split; [assumption|]. split; [assumption|]. split; [vm_compute; reflexivity|].
  rewrite search_S.
  change (deref (world_of second_grid) 0) with (grid_values second_grid).
  rewrite E. cbv zeta.
  replace (Dict.truthy (reduced_grid second_grid)) with true by (vm_compute; reflexivity).
  cbn [andb negb].
  rewrite deref_append_store by (vm_compute; lia).
  replace (forallb (fun value => Str.len value =? 1)
                   (Dict.values_of (reduced_grid second_grid)))
    with false by (vm_compute; reflexivity).
  rewrite Ec. reflexivity.
Qed.

(** ** The loop of [reduce_puzzle] *)

Section ReduceTrace.

(** The iterations a returning [reduce_puzzle] went through. *)
Lemma reduce_puzzle_trace (fuel : nat) (values : Values) (ok : bool) (v : Values) (l : Log) :
  reduce_puzzle fuel values = Returns ((ok, v), l) ->
  exists v0, reaches values v0 /\ v = reduce_step v0 /\
             if ok then count0 v = 0 /\ count1 v0 = count1 v else count0 v <> 0.
Proof.
  revert values l. induction fuel as [|fuel IH]; intros values l E; [discriminate|].
  rewrite reduce_puzzle_S in E. cbv zeta in E.
  destruct (Nat.eqb_spec (count0 (reduce_step values)) 0) as [Z|Z]; cbn [negb] in E.
  - destruct (Nat.eqb_spec (count1 values) (count1 (reduce_step values))) as [C|C].
    + inversion E; subst. exists values. split; [apply reaches_here|]. auto.
    + destruct (reduce_puzzle fuel (reduce_step values)) as [[r' l']| |] eqn:E';
        try discriminate.
      inversion E; subst. destruct (IH _ _ E') as (v0 & Hr & Hv & Hok).
      exists v0. split; [|auto]. apply reaches_next; [split|]; assumption.
  - inversion E; subst. exists values. split; [apply reaches_here|]. auto.
Qed.

End ReduceTrace.

(** C5 fails as stated: the grid [reduce_puzzle] returns for the puzzle
    [twins_grid] holds the naked pair 89 in A8 and A9, and [naked_twins]
    changes it. *)
Lemma reduce_puzzle_leaves_naked_twins :
  exists v l,
    reduce_puzzle 82 (grid_values twins_grid) = Returns ((true, v), l) /\
    naked_twins v <> v.
Proof.
  exists (reduced_grid twins_grid), (reduced_log twins_grid).
  split; [vm_compute; reflexivity|].
  intros H. apply (f_equal (fun values => values.["B7"])) in H.
  vm_compute in H. discriminate.
Qed.

(** C5, amended.  [reduce_puzzle] returns when it has at least one unit of
    fuel more than the grid has unresolved cells.  Every iteration is
    [eliminate] followed by [only_choice] ([reduce_step]); the loop goes on
    after an iteration that leaves no empty cell and another number of
    resolved cells, and stops after the first one that does otherwise.  The
    dict it then returns, when the iteration left no empty cell, is left
    unchanged by [eliminate] and by [only_choice]. *)
Theorem reduce_puzzle_fixed_point (fuel : nat) (values : Values) :
  multi values < fuel ->
  exists ok v l,
    reduce_puzzle fuel values = Returns ((ok, v), l) /\
    (exists v0, reaches values v0 /\ v = reduce_step v0 /\
                if ok then count0 v = 0 /\ count1 v0 = count1 v else count0 v <> 0) /\
    (ok = true -> eliminate v = ret v /\ only_choice v = v).
Proof.
  intros Hf.
  destruct (reduce_puzzle_returns fuel values Hf) as (ok & v & l & E & _ & Hres).
  exists ok, v, l. split; [assumption|]. split.
  - now apply (reduce_puzzle_trace fuel values ok v l).
  - intros ->. destruct Hres as (_ & He & Ho). now split.
Qed.

(** 82 units of fuel are enough for the grid with the pair 89. *)
Lemma reduce_puzzle_fixed_point_witness :
  multi (grid_values twins_grid) < 82 /\
  exists ok v l,
    reduce_puzzle 82 (grid_values twins_grid) = Returns ((ok, v), l) /\
    (exists v0, reaches (grid_values twins_grid) v0 /\ v = reduce_step v0 /\
                if ok then count0 v = 0 /\ count1 v0 = count1 v else count0 v <> 0) /\
    (ok = true -> eliminate v = ret v /\ only_choice v = v).
Proof.
  assert (H : multi (grid_values twins_grid) < 82) by (vm_compute; lia).
  split; [assumption|].
  apply (reduce_puzzle_fixed_point 82 (grid_values twins_grid) H).
Defined.

(** ** Candidate strings stay candidate strings *)

Section Candidates.

Lemma increasing_tail (a : nat) (l : list nat) :
  Str.increasing (a :: l) = true -> Str.increasing l = true.
Proof.
  destruct l as [|b l]; [reflexivity|]. simpl. intros H.
  now apply andb_true_iff in H.
Qed.

Lemma increasing_lt (a : nat) (l : list nat) :
  Str.increasing (a :: l) = true -> forall x, In x l -> a < x.
Proof.
  revert a. induction l as [|b l IH]; intros a H x Hx; [destruct Hx|].
  simpl in H. apply andb_true_iff in H as [H1 H2]. apply Nat.ltb_lt in H1.
  destruct Hx as [<-|Hx]; [assumption|].
  specialize (IH b H2 x Hx). lia.
Qed.

Lemma increasing_cons (a : nat) (l : list nat) :
  Str.increasing l = true -> (forall x, In x l -> a < x) -> Str.increasing (a :: l) = true.
Proof.
  intros H Hlt. destruct l as [|b l]; [reflexivity|].
  change (((a <? b) && Str.increasing (b :: l)) = true). rewrite H, andb_true_r.
  apply Nat.ltb_lt. apply Hlt. now left.
Qed.

Lemma increasing_filter (p : nat -> bool) (l : list nat) :
  Str.increasing l = true -> Str.increasing (filter p l) = true.
Proof.
  induction l as [|a l IH]; intros H; [reflexivity|].
  pose proof (increasing_tail a l H) as Ht. pose proof (increasing_lt a l H) as Hlt.
  simpl. destruct (p a); [|now apply IH].
  apply increasing_cons; [now apply IH|].
  intros x Hx. apply filter_In in Hx as [Hx _]. now apply Hlt.
Qed.

Lemma chars_remove_char (c : ascii) (s : string) :
  Str.chars (Str.remove_char c s) = filter (fun x => negb (Ascii.eqb c x)) (Str.chars s).
Proof.
  unfold Str.chars. induction s as [|a s IH]; simpl; [reflexivity|].
  destruct (Ascii.eqb c a); simpl; [assumption | now rewrite IH].
Qed.

Lemma map_filter_codes (c : ascii) (l : list ascii) :
  map nat_of_ascii (filter (fun x => negb (Ascii.eqb c x)) l)
  = filter (fun n => negb (n =? nat_of_ascii c)) (map nat_of_ascii l).
Proof.
  induction l as [|a l IH]; simpl; [reflexivity|].
  destruct (Ascii.eqb_spec c a) as [->|Hne]; simpl.
  - now rewrite Nat.eqb_refl.
  - destruct (Nat.eqb_spec (nat_of_ascii a) (nat_of_ascii c)) as [E|_]; simpl.
    + exfalso. apply Hne. rewrite <- (ascii_nat_embedding a), <- (ascii_nat_embedding c).
      now rewrite E.
    + now rewrite IH.
Qed.

Lemma candidate_remove_char (c : ascii) (s : string) :
  Str.candidate s = true -> Str.candidate (Str.remove_char c s) = true.
Proof.
  unfold Str.candidate. intros H. apply andb_true_iff in H as [H1 H2].
  rewrite chars_remove_char. apply andb_true_iff. split.
  - apply forallb_forall. intros x Hx. apply filter_In in Hx as [Hx _].
    rewrite forallb_forall in H1. now apply H1.
  - rewrite map_filter_codes. now apply increasing_filter.
Qed.

Lemma candidate_replace (s old : string) :
  Str.len old <= 1 -> Str.candidate s = true -> Str.candidate (Str.replace s old "") = true.
Proof.
  intros L H. destruct old as [|c [|]]; simpl in L; try lia.
  - now rewrite replace_empty.
  - change (String c "") with (Str.of_char c). rewrite replace_char.
    now apply candidate_remove_char.
Qed.

Lemma candidates_set (values : Values) (k x : string) :
  candidates_ok values = true -> Str.candidate x = true ->
  candidates_ok values.[k <- x] = true.
Proof.
  unfold candidates_ok, Dict.values_of. intros H Hx.
  induction values as [|[k0 x0] rest IH]; cbn [Dict.set map forallb snd].
  - now rewrite Hx.
  - cbn [map forallb snd] in H. apply andb_true_iff in H as [H1 H2].
    destruct (String.eqb k0 k); cbn [map forallb snd].
    + now rewrite Hx.
    + rewrite H1. now apply IH.
Qed.

Lemma assign_value_candidates (values : Values) (k x : string) :
  candidates_ok values = true -> Str.candidate x = true ->
  candidates_ok (fst (assign_value values k x)) = true.
Proof.
  intros H Hx. unfold assign_value. destruct (String.eqb values.[k] x); [assumption|].
  destruct (Str.len x =? 1); now apply candidates_set.
Qed.

Lemma eliminate_box_candidates (values : Values) (box : string) :
  Str.len values.[box] <= 1 -> candidates_ok values = true ->
  candidates_ok (fst (eliminate_box values box)) = true.
Proof.
  intros L H. unfold eliminate_box. rewrite fst_for_each.
  generalize values.[box], L. intros digit Ld.
  apply (fold_left_invariant (fun v => candidates_ok v = true)); [assumption|].
  intros v p _ Hv. apply assign_value_candidates; [assumption|].
  apply candidate_replace; [assumption | now apply candidates_get].
Qed.

Lemma eliminate_candidates (values : Values) :
  candidates_ok values = true -> candidates_ok (fst (eliminate values)) = true.
Proof.
  intros H. rewrite eliminate_fold.
  apply (fold_left_invariant (fun v => candidates_ok v = true /\ le_grid v values)).
  - split; [assumption | apply le_grid_refl].
  - intros v box Hbox [Hv Hle].
    assert (Str.len v.[box] <= 1) as L.
    { pose proof (le_grid_get box Hle) as [_ L'].
      pose proof (solved_values_len _ _ Hbox). lia. }
    split; [now apply eliminate_box_candidates|].
    eapply le_grid_trans; [|exact Hle]. now apply eliminate_box_le.
Qed.

Lemma only_choice_candidates (values : Values) :
  candidates_ok values = true -> candidates_ok (only_choice values) = true.
Proof.
  intros H. apply (only_choice_invariant (fun v => candidates_ok v = true)); [assumption|].
  intros v unit number _ Hn Hv.
  destruct (only_choice_step_cases v unit number)
    as [->|(box & _ & _ & _ & _ & _ & ->)]; [assumption|].
  apply candidates_set; [assumption|].
  apply candidate_of_digit. now apply is_digit_cols.
Qed.

Lemma reduce_step_candidates (values : Values) :
  candidates_ok values = true -> candidates_ok (reduce_step values) = true.
Proof.
  intros H. unfold reduce_step. now apply only_choice_candidates, eliminate_candidates.
Qed.

Lemma reduce_puzzle_candidates (fuel : nat) (values : Values) (r : bool * Values) (l : Log) :
  candidates_ok values = true -> reduce_puzzle fuel values = Returns (r, l) ->
  candidates_ok (snd r) = true.
Proof.
  intros H E.
  apply (reduce_puzzle_invariant (fun v => candidates_ok v = true) fuel values r l);
    auto using reduce_step_candidates.
Qed.

Lemma twins_box_candidates (pair0 : string) (num : ascii) (values : Values) (box : string) :
  candidates_ok values = true -> candidates_ok (twins_box pair0 num values box) = true.
Proof.
  intros H. unfold twins_box. destruct (_ && _); [|assumption].
  apply candidates_set; [assumption|].
  rewrite replace_char. apply candidate_remove_char. now apply candidates_get.
Qed.

Lemma naked_twins_unit_candidates (values : Values) (unit : list string) :
  candidates_ok values = true -> candidates_ok (naked_twins_unit values unit) = true.
Proof.
  intros H. unfold naked_twins_unit. destruct (naked_pairs values unit) as [|p0 _];
    [assumption|].
  apply (fold_left_invariant (fun v => candidates_ok v = true)); [assumption|].
  intros v num _ Hv.
  apply (fold_left_invariant (fun v => candidates_ok v = true)); [assumption|].
  intros v' box _ Hv'. now apply twins_box_candidates.
Qed.

End Candidates.

(** ** The order of the trial digits *)

Section TrialOrder.

(** The loop over the digits goes through a list part by part, as long as
    no branch has succeeded. *)
Lemma try_numbers_app (srch : World -> ref -> Outcome (Result * World))
      (values : ref) (box : string) (pre rest : list ascii) (w : World) :
  try_numbers srch values box (pre ++ rest) w =
  match try_numbers srch values box pre w with
  | Returns (RNone, w1) => try_numbers srch values box rest w1
  | other => other
  end.
Proof.
  revert w. induction pre as [|number pre IH]; intros w; [reflexivity|].
  rewrite <- app_comm_cons, !try_numbers_cons.
  destruct (srch _ _) as [[attempt w1]| |]; try reflexivity.
  destruct (truthy w1 attempt) eqn:Ht; [|apply IH].
  destruct attempt; try discriminate. reflexivity.
Qed.

(** The first digit whose branch succeeds gives the result, and the world
    at the return is the world at the return of that branch. *)
Lemma try_numbers_first_success (srch : World -> ref -> Outcome (Result * World))
      (values : ref) (box : string) (pre : list ascii) (d : ascii) (rest : list ascii)
      (w w1 : World) (attempt : Result) (w2 : World) :
  try_numbers srch values box pre w = Returns (RNone, w1) ->
  srch (snd (branch_world w1 values box d)) (fst (branch_world w1 values box d))
  = Returns (attempt, w2) ->
  truthy w2 attempt = true ->
  try_numbers srch values box (pre ++ d :: rest) w = Returns (attempt, w2).
Proof.
  intros Epre Ed Ht. rewrite try_numbers_app, Epre, try_numbers_cons, Ed, Ht.
  reflexivity.
Qed.

Lemma candidate_increasing (s : string) :
  Str.candidate s = true -> Str.increasing (map nat_of_ascii (Str.chars s)) = true.
Proof. unfold Str.candidate. intros H. now apply andb_true_iff in H. Qed.

End TrialOrder.

(** C9.  When [search] branches, on a grid whose cells are candidate
    strings (digits in increasing order, as [grid_values] builds them and
    the passes keep them), it tries the digits of the chosen cell in
    increasing order, and the first digit whose branch succeeds gives the
    result of [search]: the world at the return is the one that branch
    left, so no further digit was tried.  The grid of every branch is again
    a grid of candidate strings. *)
Theorem digits_tried_in_increasing_order (fuel : nat) (w : World) (r : ref)
        (v1 : Values) (l : Log) (box bv : string) :
  r < List.length (heap w) ->
  grid_ok (deref w r) -> candidates_ok (deref w r) = true ->
  reduce_puzzle (S fuel) (deref w r) = Returns ((true, v1), l) ->
  forallb (fun value => Str.len value =? 1) (Dict.values_of v1) = false ->
  choose_box v1 = Some (box, bv) ->
  let w1 := append_log (store w r v1) l in
  search (S fuel) w r = try_numbers (search fuel) r box (Str.chars bv) w1 /\
  bv = v1.[box] /\
  Str.increasing (map nat_of_ascii (Str.chars bv)) = true /\
  (forall pre d rest w2 attempt w3,
      Str.chars bv = pre ++ d :: rest ->
      try_numbers (search fuel) r box pre w1 = Returns (RNone, w2) ->
      search fuel (snd (branch_world w2 r box d)) (fst (branch_world w2 r box d))
      = Returns (attempt, w3) ->
      truthy w3 attempt = true ->
      search (S fuel) w r = Returns (attempt, w3)) /\
  (forall w2 d,
      In d (Str.chars bv) -> deref w2 r = v1 ->
      grid_ok (deref (snd (branch_world w2 r box d)) (fst (branch_world w2 r box d))) /\
      candidates_ok (deref (snd (branch_world w2 r box d)) (fst (branch_world w2 r box d)))
      = true).
Proof.
  intros Hr Hk Hc E Hall Ec w1.
  pose proof (reduce_puzzle_result _ _ _ _ E) as [Hle _]. cbn [fst snd] in Hle.
  pose proof (le_grid_ok _ _ Hle Hk) as Hk1.
  pose proof (reduce_puzzle_candidates _ _ _ _ Hc E) as Hc1. cbn [snd] in Hc1.
  destruct (choose_box_spec v1 box bv Hk1 Ec) as (Hb & Ebv & L).
  assert (Es : search (S fuel) w r = try_numbers (search fuel) r box (Str.chars bv) w1).
  { rewrite search_S, E. cbv zeta. fold w1.
    rewrite (grid_ok_nonempty _ Hk1). cbn [andb negb].
    unfold w1. rewrite deref_append_store by assumption.
    rewrite Hall, Ec. reflexivity. }
  assert (Hcb : Str.candidate bv = true) by (rewrite <- Ebv; now apply candidates_get).
  split; [assumption|]. split; [now symmetry|]. split; [|split].
  - now apply candidate_increasing.
  - intros pre d rest w2 attempt w3 Hsplit Epre Ed Ht.
    rewrite Es, Hsplit. now apply try_numbers_first_success with (w1 := w2).
  - intros w2 d Hd Ew2.
    assert (Hcd : Str.contains v1.[box] d = true)
      by (rewrite Ebv; now apply chars_contains).
    assert (Hne : (deref w2 r).[box] <> Str.of_char d).
    { rewrite Ew2, Ebv. intros Z. rewrite Z in L. simpl in L. lia. }
    destruct (branch_world_spec w2 r box d Hne) as (_ & _ & E3 & _).
    rewrite E3, Ew2.
    destruct (trial_grid v1 box d Hk1 Hb) as (Hk2 & _ & _);
      [now rewrite Ebv | assumption |].
    split; [assumption|].
    apply candidates_set; [assumption|].
    apply candidate_of_digit. apply (candidate_digits bv d Hcb).
    now apply chars_contains.
Qed.

(** On the second grid [search] branches on A2 and tries 3, 6, 7. *)
Lemma digits_tried_in_increasing_order_witness :
  0 < List.length (heap (world_of second_grid)) /\
  grid_ok (deref (world_of second_grid) 0) /\
  candidates_ok (deref (world_of second_grid) 0) = true /\
  reduce_puzzle 82 (deref (world_of second_grid) 0)
  = Returns ((true, reduced_grid second_grid), reduced_log second_grid) /\
  forallb (fun value => Str.len value =? 1) (Dict.values_of (reduced_grid second_grid))
  = false /\
  choose_box (reduced_grid second_grid) = Some ("A2", "367") /\
  let w1 := append_log (store (world_of second_grid) 0 (reduced_grid second_grid))
                       (reduced_log second_grid) in
  search 82 (world_of second_grid) 0
  = try_numbers (search 81) 0 "A2" (Str.chars "367") w1 /\
  "367" = (reduced_grid second_grid).["A2"] /\
  Str.increasing (map nat_of_ascii (Str.chars "367")) = true /\
  (forall pre d rest w2 attempt w3,
      Str.chars "367" = pre ++ d :: rest ->
      try_numbers (search 81) 0 "A2" pre w1 = Returns (RNone, w2) ->
      search 81 (snd (branch_world w2 0 "A2" d)) (fst (branch_world w2 0 "A2" d))
      = Returns (attempt, w3) ->
      truthy w3 attempt = true ->
      search 82 (world_of second_grid) 0 = Returns (attempt, w3)) /\
  (forall w2 d,
      In d (Str.chars "367") -> deref w2 0 = reduced_grid second_grid ->
      grid_ok (deref (snd (branch_world w2 0 "A2" d)) (fst (branch_world w2 0 "A2" d))) /\
      candidates_ok (deref (snd (branch_world w2 0 "A2" d)) (fst (branch_world w2 0 "A2" d)))
      = true).
Proof.
  assert (H1 : 0 < List.length (heap (world_of second_grid))) by (vm_compute; lia).
  assert (H2 : grid_ok (deref (world_of second_grid) 0)) by (vm_compute; reflexivity).
  assert (H3 : candidates_ok (deref (world_of second_grid) 0) = true)
    by (vm_compute; reflexivity).
  assert (H4 : reduce_puzzle 82 (deref (world_of second_grid) 0)
               = Returns ((true, reduced_grid second_grid), reduced_log second_grid))
    by (vm_compute; reflexivity).
  assert (H5 : forallb (fun value => Str.len value =? 1)
                       (Dict.values_of (reduced_grid second_grid)) = false)
    by (vm_compute; reflexivity).
  assert (H6 : choose_box (reduced_grid second_grid) = Some ("A2", "367"))
    by (vm_compute; reflexivity).
  split; [exact H1|]. split; [exact H2|]. split; [exact H3|].
  split; [exact H4|]. split; [exact H5|]. split; [exact H6|].
  apply (digits_tried_in_increasing_order 81 (world_of second_grid) 0
           (reduced_grid second_grid) (reduced_log second_grid) "A2" "367"
           H1 H2 H3 H4 H5 H6).
Defined.

(** ** [Counter] and the naked pairs *)

Section NakedPairs.

Lemma cget_counter_add (k k' : string) (c : list (string * nat)) :
  cget (counter_add k c) k' = cget c k' + (if String.eqb k k' then 1 else 0).
Proof.
  induction c as [|[k0 n] rest IH]; simpl.
  - destruct (String.eqb k k'); reflexivity.
  - destruct (String.eqb_spec k0 k) as [->|Hne]; simpl.
    + destruct (String.eqb k k'); lia.
    + destruct (String.eqb_spec k0 k') as [->|Hne'].
      * destruct (String.eqb_spec k k'); [congruence | lia].
      * apply IH.
Qed.

Lemma keys_counter_add (k : string) (c : list (string * nat)) :
  map fst (counter_add k c) = if mem k (map fst c) then map fst c else map fst c ++ [k].
Proof.
  unfold mem. induction c as [|[k0 n] rest IH]; simpl; [reflexivity|].
  rewrite (String.eqb_sym k k0).
  destruct (String.eqb_spec k0 k) as [->|Hne]; simpl; [reflexivity|].
  rewrite IH. now destruct (existsb (String.eqb k) (map fst rest)).
Qed.

Lemma counter_add_NoDup (k : string) (c : list (string * nat)) :
  NoDup (map fst c) -> NoDup (map fst (counter_add k c)).
Proof.
  intros H. rewrite keys_counter_add. destruct (mem k (map fst c)) eqn:E; [assumption|].
  apply mem_false in E. apply NoDup_app; [assumption | repeat constructor; intros [] |].
  intros x Hx [<-|[]]. contradiction.
Qed.

Lemma cget_In (c : list (string * nat)) (k : string) (n : nat) :
  NoDup (map fst c) -> In (k, n) c -> cget c k = n.
Proof.
  induction c as [|[k0 n0] rest IH]; simpl; [tauto|].
  intros Hnd [E|Hin].
  - inversion E; subst. now rewrite String.eqb_refl.
  - inversion Hnd as [|? ? Hk Hnd']; subst.
    destruct (String.eqb_spec k0 k) as [->|_]; [|now apply IH].
    exfalso. apply Hk. change k with (fst (k, n)). now apply in_map.
Qed.

Lemma count_occ_snoc (l : list string) (k k' : string) :
  count_occ string_dec (l ++ [k]) k'
  = count_occ string_dec l k' + (if String.eqb k k' then 1 else 0).
Proof.
  rewrite count_occ_app. simpl.
  destruct (string_dec k k') as [->|Hne].
  - now rewrite String.eqb_refl.
  - destruct (String.eqb_spec k k'); [contradiction | reflexivity].
Qed.

Lemma Counter_spec (l : list string) :
  NoDup (map fst (Counter l)) /\
  forall k, cget (Counter l) k = count_occ string_dec l k.
Proof.
  unfold Counter. rewrite <- (rev_involutive l).
  induction (rev l) as [|k t IH]; simpl.
  - split; [constructor | reflexivity].
  - rewrite fold_left_app. simpl. destruct IH as [Hnd Hc]. split.
    + now apply counter_add_NoDup.
    + intros k'. rewrite cget_counter_add, Hc. symmetry. apply count_occ_snoc.
Qed.

(** A value [naked_twins] takes for a naked pair is one. *)
Lemma naked_pairs_spec (values : Values) (unit : list string) (p : string) :
  In p (naked_pairs values unit) -> is_naked_pair values unit p.
Proof.
  unfold naked_pairs, is_naked_pair. intros H.
  apply in_map_iff in H as ([k n] & E & Hin). simpl in E. subst k.
  apply filter_In in Hin as [Hin Hf]. simpl in Hf.
  apply andb_true_iff in Hf as [Hn Hl].
  apply Nat.eqb_eq in Hn. apply Nat.eqb_eq in Hl. subst n.
  split; [assumption|].
  destruct (Counter_spec (map (fun box => values.[box]) unit)) as [Hnd Hc].
  rewrite <- Hc. now apply cget_In.
Qed.

Lemma twins_box_get (p : string) (num : ascii) (values : Values) (b k : string) :
  (twins_box p num values b).[k]
  = if String.eqb b k && twins_test p values.[b]
    then Str.remove_char num values.[b] else values.[k].
Proof.
  unfold twins_box. fold (twins_test p values.[b]).
  destruct (twins_test p values.[b]).
  - rewrite get_set, replace_char. now destruct (String.eqb b k).
  - now rewrite andb_false_r.
Qed.

(** The dict after one [for box in unit] loop, cell by cell. *)
Lemma twins_fold_get (p : string) (num : ascii) (l : list string) (values : Values)
      (k : string) :
  NoDup l ->
  (fold_left (twins_box p num) l values).[k]
  = if mem k l && twins_test p values.[k]
    then Str.remove_char num values.[k] else values.[k].
Proof.
  revert values. induction l as [|b t IH]; intros values Hnd; [reflexivity|].
  inversion Hnd as [|? ? Hb Hnd']; subst.
  cbn [fold_left]. rewrite IH by assumption. rewrite !twins_box_get.
  unfold mem. cbn [existsb]. fold (mem k t). rewrite (String.eqb_sym k b).
  destruct (String.eqb_spec b k) as [->|Hne]; cbn [andb orb].
  - apply mem_false in Hb. rewrite Hb. cbn [andb].
    now destruct (twins_test p values.[k]).
  - reflexivity.
Qed.

End NakedPairs.

(** ** One unit of [naked_twins] *)

Section TwinsUnit.

Lemma codes_differ (a b : ascii) :
  nat_of_ascii a < nat_of_ascii b -> Ascii.eqb a b = false /\ Ascii.eqb b a = false.
Proof.
  intros H. split.
  - destruct (Ascii.eqb_spec a b) as [->|]; [lia | reflexivity].
  - destruct (Ascii.eqb_spec b a) as [->|]; [lia | reflexivity].
Qed.

Lemma candidate_pair (p : string) :
  Str.candidate p = true -> Str.len p = 2 ->
  exists a b, p = String a (String b "") /\ nat_of_ascii a < nat_of_ascii b.
Proof.
  intros H L. destruct p as [|a [|b [|]]]; try discriminate.
  exists a, b. split; [reflexivity|].
  apply candidate_increasing in H. simpl in H.
  apply andb_true_iff in H as [H _]. now apply Nat.ltb_lt.
Qed.

(** Among candidate strings, only the pair itself is left with its second
    digit alone when its first digit is removed. *)
Lemma pair_only_source (x : string) (a b : ascii) :
  Str.candidate x = true -> nat_of_ascii a < nat_of_ascii b -> 1 < Str.len x ->
  Str.remove_char a x = Str.of_char b -> x = String a (String b "").
Proof.
  intros Hc Hab L E. destruct x as [|c1 [|c2 rest]]; simpl in L; try lia.
  apply candidate_increasing in Hc.
  change (Str.increasing (nat_of_ascii c1 :: nat_of_ascii c2
                                       :: map nat_of_ascii (Str.chars rest)) = true) in Hc.
  pose proof (increasing_lt _ _ Hc (nat_of_ascii c2) (or_introl eq_refl)) as H12.
  pose proof (increasing_lt _ _ (increasing_tail _ _ Hc)) as Hrest.
  simpl in E. destruct (Ascii.eqb_spec a c1) as [->|Hne1].
  - destruct (Ascii.eqb_spec c1 c2) as [->|_]; [lia|].
    inversion E as [[E2 E3]]. subst c2.
    assert (Str.contains rest c1 = false) as Habs.
    { unfold Str.contains. destruct (existsb _ _) eqn:Hex; [|reflexivity].
      apply existsb_exists in Hex as (y & Hy & Ey). apply Ascii.eqb_eq in Ey. subst y.
      specialize (Hrest (nat_of_ascii c1) (in_map _ _ _ Hy)). lia. }
    rewrite (remove_char_absent _ _ Habs) in E3. now subst rest.
  - inversion E as [[E1 E2]]. subst c1.
    destruct (Ascii.eqb_spec a c2) as [->|_]; [lia | discriminate].
Qed.

(** What the two loops over a unit leave of a cell that passes the test:
    the cell without the two digits of the pair. *)
Lemma twin_digits_removed (x : string) (a b : ascii) :
  let p := String a (String b "") in
  nat_of_ascii a < nat_of_ascii b -> Str.candidate x = true ->
  twins_test p x = true ->
  forall c,
    Str.contains (if twins_test p (Str.remove_char a x)
                  then Str.remove_char b (Str.remove_char a x)
                  else Str.remove_char a x) c
    = Str.contains x c && negb (Str.contains p c).
Proof.
  intros p Hab Hc Ht c.
  assert (Hp : Str.contains p c = Ascii.eqb c a || Ascii.eqb c b).
  { unfold p, Str.contains. simpl. now rewrite orb_false_r. }
  rewrite Hp.
  unfold twins_test in Ht. apply andb_true_iff in Ht as [L Hne].
  apply Nat.ltb_lt in L. apply negb_true_iff in Hne.
  destruct (twins_test p (Str.remove_char a x)) eqn:Ht1.
  - rewrite !contains_remove_char, (Ascii.eqb_sym a c), (Ascii.eqb_sym b c).
    rewrite negb_orb. now rewrite andb_assoc.
  - rewrite contains_remove_char, (Ascii.eqb_sym a c).
    destruct (Ascii.eqb_spec c a) as [Eca|Hca]; cbn [negb orb andb];
      [now rewrite !andb_false_r|].
    destruct (Ascii.eqb_spec c b) as [Ecb|Hcb]; cbn [negb andb];
      [|reflexivity].
    rewrite !andb_true_r, andb_false_r. rewrite Ecb.
    destruct (Str.contains x b) eqn:Hxb; [|reflexivity]. exfalso.
    (* the cell would be left with the second digit alone *)
    assert (Hx1 : Str.contains (Str.remove_char a x) b = true).
    { rewrite contains_remove_char, Hxb. cbn [andb].
      destruct (codes_differ a b Hab) as [-> _]. reflexivity. }
    unfold twins_test in Ht1. apply andb_false_iff in Ht1 as [L1|E1].
    + apply Nat.ltb_ge in L1. pose proof (contains_nonempty _ _ Hx1) as L1'.
      destruct (len_one (Str.remove_char a x)) as [e Ee]; [lia|].
      rewrite Ee, contains_of_char in Hx1. apply Ascii.eqb_eq in Hx1. subst e.
      pose proof (pair_only_source x a b Hc Hab L Ee) as Ex.
      fold p in Ex. rewrite Ex, String.eqb_refl in Hne. discriminate.
    + apply negb_false_iff, String.eqb_eq in E1.
      assert (Str.contains (Str.remove_char a x) a = true) as Ha.
      { rewrite E1. unfold p, Str.contains. simpl. now rewrite Ascii.eqb_refl. }
      rewrite contains_remove_char, Ascii.eqb_refl, andb_false_r in Ha. discriminate.
Qed.

Lemma naked_twins_candidates_prefix (units : list (list string)) (values : Values) :
  candidates_ok values = true ->
  candidates_ok (fold_left naked_twins_unit units values) = true.
Proof.
  intros H. apply (fold_left_invariant (fun v => candidates_ok v = true)); [assumption|].
  intros v unit _ Hv. now apply naked_twins_unit_candidates.
Qed.

End TwinsUnit.

(** The first row of [two_pairs_grid] holds the naked pairs 12 and 34;
    [naked_twins] leaves the digit 3 of the second pair in A5, a cell of
    the row with several candidates. *)
Lemma naked_twins_skips_second_pair : ~ removes_every_naked_pair two_pairs_grid.
Proof.
  intros H.
  specialize (H ["A1"; "A2"; "A3"; "A4"; "A5"; "A6"; "A7"; "A8"; "A9"]
                "34" "A5" "3"%char).
  assert (E : Str.contains (naked_twins two_pairs_grid).["A5"] "3" = true)
    by (vm_compute; reflexivity).
  rewrite H in E; [discriminate| | | | | |].
  - left. vm_compute. reflexivity.
  - split; vm_compute; reflexivity.
  - apply mem_In. vm_compute. reflexivity.
  - vm_compute. lia.
  - vm_compute. discriminate.
  - vm_compute. left. reflexivity.
Qed.

(** C4.  The code at the failing input.  The first row of [two_pairs_grid]
    holds two naked pairs, 12 in A1 and A2 and 34 in A3 and A4, and
    [naked_pair] of [naked_twins] lists both.  The function's docstring
    promises "the values dictionary with the naked twins eliminated from
    peers"; the loop reads [naked_pair[0]] only, so the grid it returns has
    12 removed from A5 but still 3 and 4 in it, beside the twins A3 and A4
    that hold 34: the property of the claim fails on this grid. *)
Theorem naked_twins_uses_first_pair_only :
  In ["A1"; "A2"; "A3"; "A4"; "A5"; "A6"; "A7"; "A8"; "A9"] unitlist /\
  naked_pairs two_pairs_grid ["A1"; "A2"; "A3"; "A4"; "A5"; "A6"; "A7"; "A8"; "A9"]
  = ["12"; "34"] /\
  is_naked_pair two_pairs_grid ["A1"; "A2"; "A3"; "A4"; "A5"; "A6"; "A7"; "A8"; "A9"] "34" /\
  two_pairs_grid.["A5"] = "123456789" /\
  (naked_twins two_pairs_grid).["A3"] = "34" /\
  (naked_twins two_pairs_grid).["A4"] = "34" /\
  (naked_twins two_pairs_grid).["A5"] = "3456789" /\
  ~ removes_every_naked_pair two_pairs_grid.
Proof.
  split; [vm_compute; left; reflexivity|].
  split; [vm_compute; reflexivity|].
  split; [split; vm_compute; reflexivity|].
  split; [vm_compute; reflexivity|].
  split; [vm_compute; reflexivity|].
  split; [vm_compute; reflexivity|].
  split; [vm_compute; reflexivity|].
  exact naked_twins_skips_second_pair.
Qed.

(** What the code does for one unit.  On a grid of candidate strings, when
    [naked_twins] reaches a unit in which the grid, as the units before have
    left it, holds naked pairs, the first of them (the first in the order of
    the unit's boxes) is the one its loop reads: every box of the unit with
    several candidates, other than the twins, loses the two digits of that
    pair and nothing else; the twins, the boxes with one candidate and the
    boxes outside the unit are left as they are; then the next unit is
    taken. *)
Theorem naked_twins_treats_first_pair (values : Values) (pre : list (list string))
        (unit : list string) (post : list (list string)) (p : string)
        (others : list string) :
  candidates_ok values = true ->
  unitlist = pre ++ unit :: post ->
  naked_pairs (fold_left naked_twins_unit pre values) unit = p :: others ->
  let v := fold_left naked_twins_unit pre values in
  let v' := naked_twins_unit v unit in
  is_naked_pair v unit p /\
  (forall box, In box unit -> 1 < Str.len v.[box] -> v.[box] <> p ->
               forall c, Str.contains v'.[box] c
                         = Str.contains v.[box] c && negb (Str.contains p c)) /\
  (forall box, In box unit -> Str.len v.[box] <= 1 \/ v.[box] = p ->
               v'.[box] = v.[box]) /\
  (forall box, ~ In box unit -> v'.[box] = v.[box]) /\
  naked_twins values = fold_left naked_twins_unit post v'.
Proof.
  intros Hc Hsplit Hp v v'.
  assert (Hu : In unit unitlist) by (rewrite Hsplit; apply in_elt).
  destruct (unit_facts Hu) as (Hnd & _ & _).
  pose proof (naked_twins_candidates_prefix pre values Hc) as Hcv. fold v in Hcv, Hp.
  assert (Hpair : is_naked_pair v unit p).
  { apply naked_pairs_spec. rewrite Hp. now left. }
  assert (Hcp : Str.candidate p = true).
  { destruct Hpair as [_ Hcount].
    assert (In p (map (fun box => v.[box]) unit)) as Hin
        by (apply (count_occ_In string_dec); lia).
    apply in_map_iff in Hin as (b0 & <- & _). now apply candidates_get. }
  destruct (candidate_pair p Hcp (proj1 Hpair)) as (a & b & Ep & Hab).
  assert (Hget : forall k,
             v'.[k] = if mem k unit && twins_test p v.[k]
                      then (if twins_test p (Str.remove_char a v.[k])
                            then Str.remove_char b (Str.remove_char a v.[k])
                            else Str.remove_char a v.[k])
                      else v.[k]).
  { intros k. unfold v', naked_twins_unit. rewrite Hp.
    replace (Str.chars p) with [a; b] by (rewrite Ep; reflexivity).
    cbn [fold_left]. rewrite !twins_fold_get by assumption.
    destruct (mem k unit); cbn [andb]; [|reflexivity].
    destruct (twins_test p v.[k]) eqn:Ht; [reflexivity|]. now rewrite Ht. }
  split; [assumption|]. split; [|split; [|split]].
  - intros box Hb L Hne c. rewrite Hget.
    assert (Ht : twins_test p v.[box] = true).
    { unfold twins_test. apply andb_true_iff. split; [now apply Nat.ltb_lt|].
      apply negb_true_iff. now apply String.eqb_neq. }
    rewrite (proj2 (mem_In box unit) Hb), Ht. cbn [andb].
    rewrite Ep in *. apply twin_digits_removed; auto. now apply candidates_get.
  - intros box Hb Hcase. rewrite Hget.
    assert (Ht : twins_test p v.[box] = false).
    { unfold twins_test. destruct Hcase as [L|E].
      - destruct (Nat.ltb_spec 1 (Str.len v.[box])); [lia | reflexivity].
      - rewrite E, String.eqb_refl. apply andb_false_r. }
    now rewrite Ht, andb_false_r.
  - intros box Hb. rewrite Hget. apply mem_false in Hb. now rewrite Hb.
  - unfold naked_twins. rewrite Hsplit, fold_left_app. reflexivity.
Qed.

(** The first row of the grid with two naked pairs: 12 is treated. *)
Lemma naked_twins_treats_first_pair_witness :
  candidates_ok two_pairs_grid = true /\
  unitlist = [] ++ ["A1"; "A2"; "A3"; "A4"; "A5"; "A6"; "A7"; "A8"; "A9"] :: tl unitlist /\
  naked_pairs (fold_left naked_twins_unit [] two_pairs_grid)
              ["A1"; "A2"; "A3"; "A4"; "A5"; "A6"; "A7"; "A8"; "A9"] = "12" :: ["34"] /\
  let unit := ["A1"; "A2"; "A3"; "A4"; "A5"; "A6"; "A7"; "A8"; "A9"] in
  let v := fold_left naked_twins_unit [] two_pairs_grid in
  let v' := naked_twins_unit v unit in
  is_naked_pair v unit "12" /\
  (forall box, In box unit -> 1 < Str.len v.[box] -> v.[box] <> "12" ->
               forall c, Str.contains v'.[box] c
                         = Str.contains v.[box] c && negb (Str.contains "12" c)) /\
  (forall box, In box unit -> Str.len v.[box] <= 1 \/ v.[box] = "12" ->
               v'.[box] = v.[box]) /\
  (forall box, ~ In box unit -> v'.[box] = v.[box]) /\
  naked_twins two_pairs_grid = fold_left naked_twins_unit (tl unitlist) v'.
Proof.
  assert (H1 : candidates_ok two_pairs_grid = true) by (vm_compute; reflexivity).
  assert (H2 : unitlist
               = [] ++ ["A1"; "A2"; "A3"; "A4"; "A5"; "A6"; "A7"; "A8"; "A9"] :: tl unitlist)
    by (vm_compute; reflexivity).
  assert (H3 : naked_pairs (fold_left naked_twins_unit [] two_pairs_grid)
                           ["A1"; "A2"; "A3"; "A4"; "A5"; "A6"; "A7"; "A8"; "A9"]
               = "12" :: ["34"]) by (vm_compute; reflexivity).
  split; [exact H1|]. split; [exact H2|]. split; [exact H3|].
  apply (naked_twins_treats_first_pair two_pairs_grid []
           ["A1"; "A2"; "A3"; "A4"; "A5"; "A6"; "A7"; "A8"; "A9"] (tl unitlist)
           "12" ["34"] H1 H2 H3).
Defined.

(** * Further properties of the program *)

(** ** [cross] and the board *)

Section CrossFacts.

Lemma cross_cons (s : ascii) (A B : string) :
  cross (String s A) B
  = map (fun t => String s (String t "")) (Str.chars B) ++ cross A B.
Proof. reflexivity. Qed.

(** X1. [cross(A, B)] has [len(A) * len(B)] elements and lists them row by
    row: the element at index [i * len(B) + j] is [A[i] + B[j]]. *)
Theorem cross_row_major (A B : string) :
  List.length (cross A B) = Str.len A * Str.len B /\
  forall i j s t,
    nth_error (Str.chars A) i = Some s -> nth_error (Str.chars B) j = Some t ->
    nth_error (cross A B) (i * Str.len B + j) = Some (String s (String t "")).
Proof.
  split.
  - induction A as [|a A IH]; [reflexivity|].
    rewrite cross_cons, length_app, length_map, IH, chars_length. reflexivity.
  - induction A as [|a A IH]; intros i j s t Hi Hj.
    + destruct i; discriminate.
    + rewrite cross_cons.
      assert (Hlt : j < Str.len B).
      { rewrite <- chars_length. apply nth_error_Some. congruence. }
      destruct i as [|i]; cbn [Str.chars list_ascii_of_string nth_error] in Hi.
      * inversion Hi; subst. cbn [Nat.mul Nat.add].
        rewrite nth_error_app1 by (rewrite length_map, chars_length; lia).
        now apply (map_nth_error (fun t => String s (String t ""))).
      * rewrite nth_error_app2 by (rewrite length_map, chars_length; lia).
        rewrite length_map, chars_length.
        replace (S i * Str.len B + j - Str.len B) with (i * Str.len B + j) by lia.
        now apply IH.
Qed.

(** X2. The peers of the diagonal board: the relation is symmetric and
    irreflexive, it holds between boxes only, and a box has 32 peers if it
    is the centre E5, 26 if it is another box of a diagonal, 20 otherwise. *)
Theorem peers_of_the_diagonal_board (b p : string) :
  (In p (peers b) <-> In b (peers p)) /\
  ~ In b (peers b) /\
  (In p (peers b) -> In p boxes /\ In b boxes) /\
  (In b boxes ->
   List.length (peers b)
   = if String.eqb b "E5" then 32
     else if mem b (List.concat diagonal_units) then 26 else 20).
Proof.
  split; [split; apply peers_sym|]. split; [apply peers_irrefl|]. split.
  - intros H. split; [now apply (peers_in_boxes b)|].
    apply peers_sym in H. now apply (peers_in_boxes p).
  - intros Hb.
    assert (H : forallb
                  (fun b => List.length (peers b)
                            =? (if String.eqb b "E5" then 32
                                else if mem b (List.concat diagonal_units) then 26 else 20))
                  boxes = true) by (vm_compute; reflexivity).
    rewrite forallb_forall in H. apply Nat.eqb_eq. now apply H.
Qed.

End CrossFacts.

(** ** [assign_value] *)

(** X3. On a dict that holds the box, [assign_value] leaves the keys as
    they are, the box with the value and every other cell untouched; it
    records the new board exactly when the value differs from the old one
    and is one character long. *)
Theorem assign_value_spec (values : Values) (box value : string) :
  In box (Dict.keys values) ->
  Dict.keys (fst (assign_value values box value)) = Dict.keys values /\
  (fst (assign_value values box value)).[box] = value /\
  (forall k, k <> box -> (fst (assign_value values box value)).[k] = values.[k]) /\
  snd (assign_value values box value)
  = if negb (String.eqb values.[box] value) && (Str.len value =? 1)
    then [fst (assign_value values box value)] else [].
Proof.
  intros Hk. unfold assign_value.
  destruct (String.eqb_spec values.[box] value) as [E|Hne]; cbn [negb andb].
  - cbn [ret fst snd]. repeat split; auto.
  - destruct (Str.len value =? 1); cbn [ret fst snd].
    + repeat split; auto using keys_set, get_set_same.
      intros k Hkb. apply get_set_other. congruence.
    + repeat split; auto using keys_set, get_set_same.
      intros k Hkb. apply get_set_other. congruence.
Qed.

Lemma assign_value_spec_witness :
  In "A3" (Dict.keys (grid_values clash_grid)) /\
  Dict.keys (fst (assign_value (grid_values clash_grid) "A3" "2"))
  = Dict.keys (grid_values clash_grid) /\
  (fst (assign_value (grid_values clash_grid) "A3" "2")).["A3"] = "2" /\
  (forall k, k <> "A3" ->
             (fst (assign_value (grid_values clash_grid) "A3" "2")).[k]
             = (grid_values clash_grid).[k]) /\
  snd (assign_value (grid_values clash_grid) "A3" "2")
  = if negb (String.eqb (grid_values clash_grid).["A3"] "2") && (Str.len "2" =? 1)
    then [fst (assign_value (grid_values clash_grid) "A3" "2")] else [].
Proof.
  assert (H : In "A3" (Dict.keys (grid_values clash_grid))).
  { apply mem_In. vm_compute. reflexivity. }
  split; [exact H|].
  apply (assign_value_spec (grid_values clash_grid) "A3" "2" H).
Defined.

(** ** [grid_values] *)

Section GridValuesAnyLength.

Lemma chars_app (a b : string) : Str.chars (a ++ b) = Str.chars a ++ Str.chars b.
Proof. induction a as [|c a IH]; simpl; [reflexivity | now rewrite <- IH]. Qed.

Lemma keys_combine_firstn (ks vs : list string) :
  Dict.keys (combine ks vs) = firstn (List.length vs) ks.
Proof.
  unfold Dict.keys. revert vs. induction ks as [|k ks IH]; intros [|v vs]; simpl; try reflexivity.
  now rewrite IH.
Qed.

Lemma NoDup_firstn_of {A} (n : nat) (l : list A) : NoDup l -> NoDup (firstn n l).
Proof.
  intros H. rewrite <- (firstn_skipn n l) in H. now apply NoDup_app_remove_r in H.
Qed.

Lemma get_combine (ks vs : list string) (i : nat) (k v : string) :
  NoDup ks -> nth_error ks i = Some k -> nth_error vs i = Some v ->
  (combine ks vs).[k] = v.
Proof.
  revert vs i. induction ks as [|k0 ks IH]; intros vs i Hnd Hk Hv.
  - destruct i; discriminate.
  - inversion Hnd as [|? ? Hnin Hnd']; subst.
    destruct vs as [|v0 vs]; [destruct i; discriminate|].
    destruct i as [|i]; simpl in Hk, Hv |- *.
    + inversion Hk; inversion Hv; subst. now rewrite String.eqb_refl.
    + destruct (String.eqb_spec k0 k) as [->|_].
      * exfalso. apply Hnin. eapply nth_error_In. eassumption.
      * now apply (IH vs i).
Qed.

Lemma combine_app_long {A B} (l : list A) (l1 l2 : list B) :
  List.length l <= List.length l1 -> combine l (l1 ++ l2) = combine l l1.
Proof.
  revert l1. induction l as [|x l IH]; intros [|y l1] H; simpl in *; try reflexivity; try lia.
  f_equal. apply IH. lia.
Qed.

Lemma grid_values_zip (grid : string) :
  grid_values grid = combine boxes (modified_grid grid).
Proof.
  unfold grid_values. apply of_pairs_nodup. rewrite keys_combine_firstn.
  apply NoDup_firstn_of, boxes_NoDup.
Qed.

(** X4. [grid_values] accepts a string of any length and any characters:
    it fills the boxes in order, as far as the string goes, so a string
    shorter than 81 gives a dict without the last boxes; a character other
    than ['.'] is kept as the value of its box, whatever it is; and the
    characters after the 81st are ignored. *)
Theorem grid_values_any_string (grid : string) :
  Dict.keys (grid_values grid) = firstn (Str.len grid) boxes /\
  (forall i box g,
      nth_error boxes i = Some box -> nth_error (Str.chars grid) i = Some g ->
      (grid_values grid).[box] = if Ascii.eqb g "." then "123456789" else Str.of_char g) /\
  (forall box, ~ In box (firstn (Str.len grid) boxes) -> (grid_values grid).[box] = "") /\
  (forall extra, 81 <= Str.len grid -> grid_values (grid ++ extra) = grid_values grid).
Proof.
  assert (Hk : Dict.keys (grid_values grid) = firstn (Str.len grid) boxes).
  { rewrite grid_values_zip, keys_combine_firstn.
    unfold modified_grid. now rewrite length_map, chars_length. }
  split; [exact Hk|]. split; [|split].
  - intros i box g Hb Hg. rewrite grid_values_zip.
    apply (get_combine boxes (modified_grid grid) i); [apply boxes_NoDup | assumption|].
    unfold modified_grid. rewrite (map_nth_error _ _ _ Hg).
    now destruct (Ascii.eqb g ".").
  - intros box Hn. apply get_absent. now rewrite Hk.
  - intros extra L. rewrite !grid_values_zip. unfold modified_grid.
    rewrite chars_app, map_app. apply combine_app_long.
    rewrite length_map, chars_length, boxes_length. exact L.
Qed.

End GridValuesAnyLength.

(** ** [eliminate], cell by cell *)

Section EliminateCells.

(** The digit [eliminate] reads in a box that was resolved at the start is
    the one it held then, unless the box has been emptied since. *)
Lemma resolved_cell_later (values v : Values) (x : string) :
  le_grid v values -> In x (solved_values values) ->
  exists d, values.[x] = Str.of_char d /\ (v.[x] = "" \/ v.[x] = Str.of_char d).
Proof.
  intros Hle Hx. apply filter_In in Hx as [_ L]. apply Nat.eqb_eq in L.
  destruct (len_one _ L) as [d Ed]. exists d. split; [assumption|].
  apply shrinks_single. rewrite <- Ed. apply (le_grid_get x Hle).
Qed.

(** A candidate that [eliminate] has removed from a cell is the digit of a
    peer of the cell that was resolved at the start. *)
Lemma eliminate_removed_digit (values : Values) (p : string) (c : ascii) :
  Str.contains values.[p] c = true ->
  Str.contains (fst (eliminate values)).[p] c = false ->
  exists box, In box (Dict.keys values) /\ In p (peers box) /\
              values.[box] = Str.of_char c.
Proof.
  intros Hc. rewrite eliminate_fold.
  apply (fold_left_invariant
           (fun v => le_grid v values /\
                     (Str.contains v.[p] c = false ->
                      exists box, In box (Dict.keys values) /\ In p (peers box) /\
                                  values.[box] = Str.of_char c))).
  - split; [apply le_grid_refl | congruence].
  - intros v x Hx [Hle IH].
    destruct (resolved_cell_later values v x Hle Hx) as (d & Ed & Hv).
    split.
    + eapply le_grid_trans; [|exact Hle]. apply eliminate_box_le.
      destruct Hv as [-> | ->]; simpl; lia.
    + rewrite eliminate_box_get.
      destruct (mem p (peers x)) eqn:Hm; [|exact IH].
      destruct Hv as [-> | ->].
      * now rewrite replace_empty.
      * rewrite replace_char, contains_remove_char. intros H.
        apply andb_false_iff in H as [H|H]; [now apply IH|].
        apply negb_false_iff, Ascii.eqb_eq in H. subst d.
        exists x. split; [now apply filter_In in Hx as [Hx _]|].
        split; [now apply mem_In | assumption].
Qed.

(** X5. [eliminate] removes a candidate from a cell only if a peer of the
    cell held that digit, resolved, when the pass began; a cell none of
    whose peers was resolved then is left as it was. *)
Theorem eliminate_touches_only_peers_of_resolved (values : Values) (p : string) :
  (forall c, Str.contains values.[p] c = true ->
             Str.contains (fst (eliminate values)).[p] c = false ->
             exists box, In box (Dict.keys values) /\ In p (peers box) /\
                         values.[box] = Str.of_char c) /\
  ((forall box, In box (peers p) -> In box (Dict.keys values) ->
                Str.len values.[box] <> 1) ->
   (fst (eliminate values)).[p] = values.[p]).
Proof.
  split; [intros c; apply eliminate_removed_digit|].
  intros Hnone. rewrite eliminate_fold.
  apply (fold_left_invariant (fun v => v.[p] = values.[p])); [reflexivity|].
  intros v x Hx IH. rewrite eliminate_box_get.
  destruct (mem p (peers x)) eqn:Hm; [|exact IH].
  exfalso. apply mem_In, peers_sym in Hm.
  apply filter_In in Hx as [Hk L]. apply Nat.eqb_eq in L.
  now apply (Hnone x).
Qed.

(** X6. When [eliminate] leaves no cell empty, it has removed from every
    cell exactly the digits that the peers of the cell held, resolved, when
    the pass began. *)
Theorem eliminate_removes_exactly_peer_digits (values : Values) (p : string) (c : ascii) :
  grid_ok values -> count0 (fst (eliminate values)) = 0 ->
  Str.contains (fst (eliminate values)).[p] c
  = Str.contains values.[p] c
    && negb (existsb (fun box => String.eqb values.[box] (Str.of_char c)) (peers p)).
Proof.
  intros Hk H0.
  destruct (existsb _ (peers p)) eqn:Hex; cbn [negb].
  - rewrite andb_false_r.
    apply existsb_exists in Hex as (box & Hb & E). apply String.eqb_eq in E.
    assert (In box (Dict.keys values)) as Hin.
    { rewrite Hk. now apply (peers_in_boxes p). }
    apply (@eliminate_clears_peers values box c Hin E); [|now apply peers_sym].
    apply count0_zero; [assumption|].
    now rewrite (le_grid_keys (eliminate_le values)).
  - rewrite andb_true_r.
    destruct (Str.contains values.[p] c) eqn:Hc.
    + destruct (Str.contains (fst (eliminate values)).[p] c) eqn:Hc'; [reflexivity|].
      destruct (eliminate_removed_digit values p c Hc Hc') as (box & _ & Hp & E).
      assert (existsb (fun box => String.eqb values.[box] (Str.of_char c)) (peers p) = true)
        as Hex'.
      { apply existsb_exists. exists box. split; [now apply peers_sym|].
        now apply String.eqb_eq. }
      congruence.
    + destruct (Str.contains (fst (eliminate values)).[p] c) eqn:Hc'; [|reflexivity].
      apply (le_grid_get p (eliminate_le values)) in Hc'. congruence.
Qed.

Lemma eliminate_removes_exactly_peer_digits_witness :
  grid_ok (grid_values diag_sudoku_grid) /\
  count0 (fst (eliminate (grid_values diag_sudoku_grid))) = 0 /\
  Str.contains (fst (eliminate (grid_values diag_sudoku_grid))).["A2"] "2"
  = Str.contains (grid_values diag_sudoku_grid).["A2"] "2"
    && negb (existsb (fun box => String.eqb (grid_values diag_sudoku_grid).[box]
                                            (Str.of_char "2"))
                     (peers "A2")).
Proof.
  assert (H1 : grid_ok (grid_values diag_sudoku_grid)) by (vm_compute; reflexivity).
  assert (H2 : count0 (fst (eliminate (grid_values diag_sudoku_grid))) = 0)
    by (vm_compute; reflexivity).
  split; [exact H1|]. split; [exact H2|].
  apply (eliminate_removes_exactly_peer_digits (grid_values diag_sudoku_grid) "A2" "2" H1 H2).
Defined.

End EliminateCells.

(** ** [only_choice], cell by cell *)

Section OnlyChoiceCells.

(** X7. [only_choice] leaves a cell as it was or replaces it by one of the
    digits it held among several: it never touches a resolved or an empty
    cell, and never writes a digit that was not a candidate of the cell. *)
Theorem only_choice_assigns_own_candidates (values : Values) (box : string) :
  (only_choice values).[box] = values.[box] \/
  exists d, In d (Str.chars cols) /\ Str.contains values.[box] d = true /\
            1 < Str.len values.[box] /\ (only_choice values).[box] = Str.of_char d.
Proof.
  apply (only_choice_invariant
           (fun v => v.[box] = values.[box] \/
                     exists d, In d (Str.chars cols) /\ Str.contains values.[box] d = true /\
                               1 < Str.len values.[box] /\ v.[box] = Str.of_char d)).
  - now left.
  - intros v unit number Hu Hn IH.
    destruct (only_choice_step_cases v unit number)
      as [->|(b & Hb & Hk & Hc & L & _ & ->)]; [exact IH|].
    rewrite get_set. destruct (String.eqb_spec b box) as [->|_]; [|exact IH].
    right. exists number. destruct IH as [E|(d & _ & _ & _ & E)].
    + rewrite <- E. auto.
    + rewrite E in L. simpl in L. lia.
Qed.

(** The two loops of [only_choice] as one loop over the pairs of a unit and
    a digit. *)
Lemma only_choice_pairs (values : Values) :
  only_choice values
  = fold_left (fun v un => only_choice_step v (fst un) (snd un))
              (list_prod unitlist (Str.chars cols)) values.
Proof.
  unfold only_choice. generalize unitlist as us. generalize (Str.chars cols) as ns.
  intros ns us. revert values. induction us as [|u us IH]; intros values; [reflexivity|].
  cbn [fold_left list_prod]. rewrite fold_left_app, IH. f_equal.
  clear IH. generalize values. induction ns as [|n ns IHn]; intros v; [reflexivity|].
  cbn [map fold_left fst snd]. apply IHn.
Qed.

Lemma only_choice_step_count1 (values : Values) (unit : list string) (number : ascii) :
  only_choice_step values unit number = values \/
  count1 (only_choice_step values unit number) = S (count1 values).
Proof.
  destruct (only_choice_step_cases values unit number)
    as [->|(b & Hb & Hk & Hc & L & _ & ->)]; [now left|].
  right. now apply count1_set_multi.
Qed.

(** A loop of [only_choice] steps that ends on the grid it began on has
    changed nothing on the way. *)
Lemma only_choice_steps_idle (l : list (list string * ascii)) (values : Values) :
  count1 values
  <= count1 (fold_left (fun v un => only_choice_step v (fst un) (snd un)) l values) /\
  (fold_left (fun v un => only_choice_step v (fst un) (snd un)) l values = values ->
   forall un, In un l -> only_choice_step values (fst un) (snd un) = values).
Proof.
  revert values. induction l as [|[u n] l IH]; intros values.
  - split; [apply Nat.le_refl | intros _ un []].
  - cbn [fold_left fst snd].
    destruct (IH (only_choice_step values u n)) as [Hle Hidle].
    destruct (only_choice_step_count1 values u n) as [E|E].
    + rewrite E in *. split; [exact Hle|].
      intros Hfix un [<-|Hin]; [exact E | now apply Hidle].
    + split; [lia|]. intros Hfix. rewrite Hfix in Hle. lia.
Qed.

(** X8. A grid that [only_choice] leaves as it is has no hidden single:
    whenever exactly one box of a unit holds a digit, that box holds
    nothing else. *)
Theorem only_choice_fixed_point_has_no_hidden_single
        (values : Values) (unit : list string) (number : ascii) (box : string) :
  only_choice values = values ->
  In unit unitlist -> In number (Str.chars cols) ->
  filter (fun b => Str.contains values.[b] number) unit = [box] ->
  values.[box] = Str.of_char number.
Proof.
  intros Hfix Hu Hn Hfit. rewrite only_choice_pairs in Hfix.
  destruct (only_choice_steps_idle (list_prod unitlist (Str.chars cols)) values)
    as [_ Hidle].
  specialize (Hidle Hfix (unit, number) (in_prod _ _ _ _ Hu Hn)).
  cbn [fst snd] in Hidle. unfold only_choice_step in Hidle.
  rewrite Hfit in Hidle. cbn [List.length Nat.eqb last] in Hidle.
  rewrite <- Hidle at 1. apply get_set_same.
Qed.

Lemma only_choice_fixed_point_has_no_hidden_single_witness :
  only_choice twins_grid_solution = twins_grid_solution /\
  In ["A1"; "A2"; "A3"; "A4"; "A5"; "A6"; "A7"; "A8"; "A9"] unitlist /\
  In "6"%char (Str.chars cols) /\
  filter (fun b => Str.contains twins_grid_solution.[b] "6")
         ["A1"; "A2"; "A3"; "A4"; "A5"; "A6"; "A7"; "A8"; "A9"] = ["A6"] /\
  twins_grid_solution.["A6"] = Str.of_char "6".
Proof.
  assert (H1 : only_choice twins_grid_solution = twins_grid_solution)
    by (vm_compute; reflexivity).
  assert (H2 : In ["A1"; "A2"; "A3"; "A4"; "A5"; "A6"; "A7"; "A8"; "A9"] unitlist)
    by (vm_compute; left; reflexivity).
  assert (H3 : In "6"%char (Str.chars cols)) by (vm_compute; tauto).
  assert (H4 : filter (fun b => Str.contains twins_grid_solution.[b] "6")
                      ["A1"; "A2"; "A3"; "A4"; "A5"; "A6"; "A7"; "A8"; "A9"] = ["A6"])
    by (vm_compute; reflexivity).
  split; [exact H1|]. split; [exact H2|]. split; [exact H3|]. split; [exact H4|].
  apply (only_choice_fixed_point_has_no_hidden_single
           twins_grid_solution ["A1"; "A2"; "A3"; "A4"; "A5"; "A6"; "A7"; "A8"; "A9"]
           "6" "A6" H1 H2 H3 H4).
Defined.

End OnlyChoiceCells.

(** ** Deciding the order on grids and solved grids *)

Section Deciding.

Lemma shrinksb_sound (s' s : string) : shrinksb s' s = true -> Str.shrinks s' s.
Proof.
  unfold shrinksb, Str.shrinks. intros H. apply andb_true_iff in H as [Hc L].
  split; [|now apply Nat.leb_le].
  intros c Hin. unfold Str.contains in Hin.
  apply existsb_exists in Hin as (x & Hx & E). apply Ascii.eqb_eq in E. subst x.
  rewrite forallb_forall in Hc. now apply Hc.
Qed.

Lemma le_gridb_sound (values' values : Values) :
  le_gridb values' values = true -> le_grid values' values.
Proof.
  revert values. induction values' as [|[k' x'] t' IH]; intros [|[k x] t] H;
    simpl in H; try discriminate; [constructor|].
  apply andb_true_iff in H as [H Ht]. apply andb_true_iff in H as [Hk Hx].
  constructor; [|now apply IH].
  split; [now apply String.eqb_eq | now apply shrinksb_sound].
Qed.

Lemma list_eqb_sound (l1 l2 : list string) : list_eqb l1 l2 = true -> l1 = l2.
Proof.
  revert l2. induction l1 as [|x t IH]; intros [|y t2] H; simpl in H;
    try discriminate; [reflexivity|].
  apply andb_true_iff in H as [Hx Ht]. apply String.eqb_eq in Hx.
  f_equal; [assumption | now apply IH].
Qed.

Lemma solvedb_sound (values : Values) : solvedb values = true -> solved values.
Proof.
  unfold solvedb, solved, grid_ok, unit_complete. intros H.
  apply andb_true_iff in H as [H Hu]. apply andb_true_iff in H as [Hk Hs].
  split; [now apply list_eqb_sound|]. split.
  - intros box Hb. rewrite forallb_forall in Hs. apply Nat.eqb_eq. now apply Hs.
  - intros unit Hin d Hd. rewrite forallb_forall in Hu. specialize (Hu unit Hin).
    rewrite forallb_forall in Hu. apply Nat.eqb_eq. now apply Hu.
Qed.

Lemma twins_grid_solution_solved : solved twins_grid_solution.
Proof. apply solvedb_sound. vm_compute. reflexivity. Qed.

Lemma twins_grid_solution_below :
  le_grid twins_grid_solution (grid_values twins_grid).
Proof. apply le_gridb_sound. vm_compute. reflexivity. Qed.

Lemma twins_grid_solution_below_reduced :
  le_grid twins_grid_solution (reduced_grid twins_grid).
Proof. apply le_gridb_sound. vm_compute. reflexivity. Qed.

End Deciding.

(** ** [naked_twins] keeps every solution *)

Section NakedTwinsSound.

(** A value that occurs twice among the cells of a unit is held by two
    boxes of the unit. *)
Lemma count_occ_twice (f : string -> string) (u : list string) (x : string) :
  2 <= count_occ string_dec (map f u) x ->
  exists b1 b2, In b1 u /\ In b2 u /\ (NoDup u -> b1 <> b2) /\ f b1 = x /\ f b2 = x.
Proof.
  induction u as [|b u IH]; simpl; [lia|].
  destruct (string_dec (f b) x) as [E|Hne]; intros H.
  - assert (In x (map f u)) as Hin by (apply (count_occ_In string_dec); lia).
    apply in_map_iff in Hin as (b2 & E2 & Hb2).
    exists b, b2. repeat split; auto.
    intros Hnd. inversion Hnd; subst. congruence.
  - destruct (IH H) as (b1 & b2 & H1 & H2 & Hd & E1 & E2).
    exists b1, b2. repeat split; auto.
    intros Hnd. inversion Hnd; subst. auto.
Qed.

Variable sol : Values.
Hypothesis sol_solved : solved sol.

(** Two boxes of a unit that hold the same two characters, in a grid above
    the solution: the solution has those two characters in the two boxes,
    and no other box of the unit has either. *)
Lemma twins_take_the_pair (values : Values) (unit : list string) (b1 b2 p : string) :
  le_grid sol values -> In unit unitlist -> In b1 unit -> In b2 unit -> b1 <> b2 ->
  values.[b1] = p -> values.[b2] = p -> Str.len p = 2 ->
  forall k num, In k unit -> k <> b1 -> k <> b2 -> In num (Str.chars p) ->
                sol.[k] <> Str.of_char num.
Proof.
  intros Hle Hu H1 H2 Hne E1 E2 L k num Hk Hk1 Hk2 Hnum Eq.
  destruct (unit_facts Hu) as (_ & Hincl & _).
  destruct (solved_cell sol sol_solved b1 (Hincl b1 H1)) as [d1 Ed1].
  destruct (solved_cell sol sol_solved b2 (Hincl b2 H2)) as [d2 Ed2].
  pose proof (above_contains sol values b1 d1 Hle Ed1) as C1.
  pose proof (above_contains sol values b2 d2 Hle Ed2) as C2.
  rewrite E1 in C1. rewrite E2 in C2.
  assert (Hpeer : forall a b, In a unit -> In b unit -> a <> b -> sol.[a] <> sol.[b]).
  { intros a b Ha Hb Hab. apply (solved_peers_differ sol b a sol_solved).
    apply peers_spec. split; [assumption | now exists unit]. }
  pose proof (Hpeer b1 b2 H1 H2 Hne) as D12.
  pose proof (Hpeer k b1 Hk H1 Hk1) as Dk1.
  pose proof (Hpeer k b2 Hk H2 Hk2) as Dk2.
  rewrite Ed1, Ed2 in D12. rewrite Eq, Ed1 in Dk1. rewrite Eq, Ed2 in Dk2.
  destruct p as [|a [|b [|]]]; try discriminate.
  unfold Str.contains in C1, C2. simpl in C1, C2, Hnum.
  rewrite orb_false_r in C1, C2.
  assert (Hd1 : d1 = a \/ d1 = b).
  { apply orb_true_iff in C1 as [C|C]; apply Ascii.eqb_eq in C; auto. }
  assert (Hd2 : d2 = a \/ d2 = b).
  { apply orb_true_iff in C2 as [C|C]; apply Ascii.eqb_eq in C; auto. }
  destruct Hnum as [<-|[<-|[]]]; destruct Hd1 as [->| ->]; destruct Hd2 as [->| ->];
    congruence.
Qed.

Lemma naked_twins_unit_above (values : Values) (unit : list string) :
  le_grid sol values -> In unit unitlist -> le_grid sol (naked_twins_unit values unit).
Proof.
  intros Hle Hu. unfold naked_twins_unit.
  destruct (naked_pairs values unit) as [|p others] eqn:Hp; [assumption|].
  assert (Hpair : is_naked_pair values unit p).
  { apply naked_pairs_spec. rewrite Hp. now left. }
  destruct Hpair as [L Hcount].
  destruct (unit_facts Hu) as (Hnd & Hincl & _).
  destruct (count_occ_twice (fun box => values.[box]) unit p)
    as (b1 & b2 & H1 & H2 & Hne & E1 & E2); [lia|].
  specialize (Hne Hnd).
  set (P := fun v : Values => le_grid sol v /\ v.[b1] = p /\ v.[b2] = p).
  assert (Hstep : forall num v box,
             In num (Str.chars p) -> In box unit -> P v -> P (twins_box p num v box)).
  { intros num v box Hnum Hbox (Hv & Ev1 & Ev2). unfold P.
    rewrite !twins_box_get.
    destruct (twins_test p v.[box]) eqn:Ht.
    - assert (box <> b1) as N1.
      { intros ->. unfold twins_test in Ht. rewrite Ev1, String.eqb_refl in Ht.
        now rewrite andb_false_r in Ht. }
      assert (box <> b2) as N2.
      { intros ->. unfold twins_test in Ht. rewrite Ev2, String.eqb_refl in Ht.
        now rewrite andb_false_r in Ht. }
      apply String.eqb_neq in N1 as N1'. apply String.eqb_neq in N2 as N2'.
      rewrite N1', N2'. cbn [andb]. split; [|split; assumption].
      unfold twins_box. fold (twins_test p v.[box]). rewrite Ht.
      apply le_grid_set_above; [assumption | |].
      + rewrite (above_keys sol sol_solved v Hv). now apply Hincl.
      + destruct (solved_cell sol sol_solved box (Hincl box Hbox)) as [e Ee].
        rewrite replace_char, Ee. apply shrinks_of_char.
        rewrite contains_remove_char, (above_contains sol v box e Hv Ee). cbn [andb].
        destruct (Ascii.eqb_spec num e) as [->|]; [|reflexivity].
        exfalso.
        apply (twins_take_the_pair v unit b1 b2 p Hv Hu H1 H2 Hne Ev1 Ev2 L
                                   box e Hbox N1 N2 Hnum Ee).
    - rewrite !andb_false_r. split; [|split; assumption].
      unfold twins_box. fold (twins_test p v.[box]). now rewrite Ht. }
  assert (HP : P (fold_left
                    (fun values num => fold_left (twins_box p num) unit values)
                    (Str.chars p) values)).
  { apply (fold_left_invariant P); [now split|].
    intros v num Hnum Hv.
    apply (fold_left_invariant P); [assumption|].
    intros v' box Hbox Hv'. now apply Hstep. }
  apply HP.
Qed.

End NakedTwinsSound.

(** X9. [naked_twins] keeps every solution of the grid: a solved grid whose
    digits are among the candidates of the cells has its digits among the
    candidates that [naked_twins] leaves. *)
Theorem naked_twins_keeps_solutions (sol values : Values) :
  solved sol -> le_grid sol values -> le_grid sol (naked_twins values).
Proof.
  intros Hs Hle. unfold naked_twins.
  apply (fold_left_invariant (fun v => le_grid sol v)); [assumption|].
  intros v unit Hu Hv. now apply (naked_twins_unit_above sol Hs).
Qed.

(** The reduced grid of [twins_grid] holds the pair 89 in A8 and A9. *)
Lemma naked_twins_keeps_solutions_witness :
  solved twins_grid_solution /\
  le_grid twins_grid_solution (reduced_grid twins_grid) /\
  le_grid twins_grid_solution (naked_twins (reduced_grid twins_grid)).
Proof.
  split; [exact twins_grid_solution_solved|].
  split; [exact twins_grid_solution_below_reduced|].
  apply (naked_twins_keeps_solutions twins_grid_solution (reduced_grid twins_grid)
           twins_grid_solution_solved twins_grid_solution_below_reduced).
Defined.

(** ** Resolved cells and solved grids *)

Section ResolvedCells.

Lemma twins_box_idle (p : string) (num : ascii) (values : Values) (box : string) :
  Str.len values.[box] <= 1 -> twins_box p num values box = values.
Proof.
  intros L. unfold twins_box.
  destruct (Nat.ltb_spec 1 (Str.len values.[box])); [lia | reflexivity].
Qed.

(** X10. [naked_twins] never changes a cell that holds at most one
    candidate; a grid in which every cell does is returned unchanged. *)
Theorem naked_twins_keeps_resolved_cells (values : Values) :
  (forall box, Str.len values.[box] <= 1 -> (naked_twins values).[box] = values.[box]) /\
  ((forall box, Str.len values.[box] <= 1) -> naked_twins values = values).
Proof.
  split.
  - intros box L. unfold naked_twins.
    apply (fold_left_invariant (fun v => v.[box] = values.[box])); [reflexivity|].
    intros v unit _ IH. unfold naked_twins_unit.
    destruct (naked_pairs v unit) as [|p _]; [exact IH|].
    apply (fold_left_invariant (fun v => v.[box] = values.[box])); [exact IH|].
    intros v1 num _ IH1.
    apply (fold_left_invariant (fun v => v.[box] = values.[box])); [exact IH1|].
    intros v2 b _ IH2. rewrite twins_box_get.
    destruct (String.eqb_spec b box) as [->|_]; [|exact IH2].
    unfold twins_test. rewrite IH2.
    destruct (Nat.ltb_spec 1 (Str.len values.[box])); [lia | reflexivity].
  - intros L. unfold naked_twins.
    apply (fold_left_invariant (fun v => v = values)); [reflexivity|].
    intros v unit _ ->. unfold naked_twins_unit.
    destruct (naked_pairs values unit) as [|p _]; [reflexivity|].
    apply (fold_left_invariant (fun v => v = values)); [reflexivity|].
    intros v1 num _ ->.
    apply (fold_left_invariant (fun v => v = values)); [reflexivity|].
    intros v2 b _ ->. apply twins_box_idle, L.
Qed.

Lemma list_set_nth {A} (l : list A) (i : nat) (d : A) : list_set l i (nth i l d) = l.
Proof.
  revert i. induction l as [|x l IH]; intros [|i]; simpl; try reflexivity.
  now rewrite IH.
Qed.

Lemma solved_eliminate (sol : Values) : solved sol -> eliminate sol = ret sol.
Proof.
  intros Hs. apply eliminate_idle. intros box p Hb Hp.
  pose proof (solved_peers_differ sol box p Hs Hp) as Hne.
  assert (In p boxes) as Hpb by now apply (peers_in_boxes box).
  assert (In box boxes) as Hbb.
  { apply peers_sym in Hp. now apply (peers_in_boxes p). }
  destruct (solved_cell sol Hs box Hbb) as [d Ed].
  destruct (solved_cell sol Hs p Hpb) as [e Ee].
  rewrite Ed, Ee in *. rewrite replace_char. simpl.
  destruct (Ascii.eqb_spec d e) as [->|]; [congruence | reflexivity].
Qed.

Lemma solved_count1 (sol : Values) : solved sol -> count1 sol = List.length sol.
Proof.
  intros Hs. pose proof (count_total sol) as T.
  pose proof (solved_count0 sol Hs) as Z.
  assert (multi sol = 0) as M.
  { unfold multi. destruct (filter _ _) as [|x l] eqn:E; [reflexivity|].
    assert (In x (filter (fun value => 1 <? Str.len value) (Dict.values_of sol))) as Hx
        by (rewrite E; now left).
    apply filter_In in Hx as [Hx L]. apply Nat.ltb_lt in L.
    destruct Hs as (Hk & Hs & _).
    apply in_values_get in Hx as (k & Hkin & Ek); [|now apply grid_ok_NoDup].
    rewrite Hk in Hkin. specialize (Hs k Hkin). rewrite Ek in Hs. lia. }
  lia.
Qed.

Lemma solved_only_choice (sol : Values) : solved sol -> only_choice sol = sol.
Proof.
  intros Hs. apply only_choice_count1.
  pose proof (solved_count1 sol Hs) as C.
  pose proof (count_total (only_choice sol)) as T.
  pose proof (le_grid_length (only_choice_le sol)) as L.
  pose proof (proj1 (only_choice_count1 sol)). lia.
Qed.

(** X11. A solved grid is a fixed point of the program: each of the three
    passes returns it unchanged, [reduce_puzzle] returns it after one
    iteration without recording anything, and [search] returns the dict
    object it was given and leaves the store and the log as they were. *)
Theorem solved_grid_is_returned_unchanged (fuel : nat) (w : World) (r : ref) :
  r < List.length (heap w) -> solved (deref w r) ->
  eliminate (deref w r) = ret (deref w r) /\
  only_choice (deref w r) = deref w r /\
  naked_twins (deref w r) = deref w r /\
  reduce_puzzle (S fuel) (deref w r) = Returns ((true, deref w r), []) /\
  search (S fuel) w r = Returns (RDict r, w).
Proof.
  intros Hr Hs.
  pose proof (solved_eliminate (deref w r) Hs) as He.
  pose proof (solved_only_choice (deref w r) Hs) as Ho.
  assert (Hstep : reduce_step (deref w r) = deref w r).
  { rewrite reduce_step_eq, He. exact Ho. }
  assert (Hred : reduce_puzzle (S fuel) (deref w r) = Returns ((true, deref w r), [])).
  { rewrite reduce_puzzle_S. cbv zeta. rewrite Hstep, He.
    rewrite (solved_count0 (deref w r) Hs), !Nat.eqb_refl. reflexivity. }
  split; [exact He|]. split; [exact Ho|]. split; [|split; [exact Hred|]].
  - apply naked_twins_keeps_resolved_cells. intros box.
    destruct Hs as (Hk & Hl & _).
    destruct (in_dec string_dec box boxes) as [Hb|Hb]; [rewrite (Hl box Hb); lia|].
    rewrite get_absent; [simpl; lia | now rewrite Hk].
  - rewrite search_S, Hred.
    assert (Hw : append_log (store w r (deref w r)) [] = w).
    { destruct w as [h a]. unfold append_log, store, deref. cbn [heap assignments].
      now rewrite list_set_nth, app_nil_r. }
    cbv zeta. rewrite Hw.
    rewrite (grid_ok_nonempty (deref w r) (proj1 Hs)). cbn [andb negb].
    assert (Hall : forallb (fun value => Str.len value =? 1) (Dict.values_of (deref w r))
                   = true).
    { apply forallb_forall. intros x Hx.
      destruct Hs as (Hk & Hl & _).
      apply in_values_get in Hx as (k & Hkin & <-); [|now apply grid_ok_NoDup].
      apply Nat.eqb_eq, Hl. now rewrite <- Hk. }
    now rewrite Hall.
Qed.

Lemma solved_grid_is_returned_unchanged_witness :
  0 < List.length (heap (mkWorld [twins_grid_solution] [])) /\
  solved (deref (mkWorld [twins_grid_solution] []) 0) /\
  eliminate (deref (mkWorld [twins_grid_solution] []) 0)
  = ret (deref (mkWorld [twins_grid_solution] []) 0) /\
  only_choice (deref (mkWorld [twins_grid_solution] []) 0)
  = deref (mkWorld [twins_grid_solution] []) 0 /\
  naked_twins (deref (mkWorld [twins_grid_solution] []) 0)
  = deref (mkWorld [twins_grid_solution] []) 0 /\
  reduce_puzzle 1 (deref (mkWorld [twins_grid_solution] []) 0)
  = Returns ((true, deref (mkWorld [twins_grid_solution] []) 0), []) /\
  search 1 (mkWorld [twins_grid_solution] []) 0
  = Returns (RDict 0, mkWorld [twins_grid_solution] []).
Proof.
  assert (H1 : 0 < List.length (heap (mkWorld [twins_grid_solution] [])))
    by (simpl; lia).
  assert (H2 : solved (deref (mkWorld [twins_grid_solution] []) 0))
    by exact twins_grid_solution_solved.
  split; [exact H1|]. split; [exact H2|].
  apply (solved_grid_is_returned_unchanged 0 (mkWorld [twins_grid_solution] []) 0 H1 H2).
Defined.

End ResolvedCells.

(** ** [reduce_puzzle] keeps every solution *)

(** X12. On a grid that has a solution among its candidates,
    [reduce_puzzle] does not return [False]: with fuel for its iterations it
    returns the dict, whose cells have only shrunk, and the solution is
    still among the candidates. *)
Theorem reduce_puzzle_keeps_solutions (fuel : nat) (sol values : Values) :
  solved sol -> le_grid sol values -> multi values < fuel ->
  exists v l,
    reduce_puzzle fuel values = Returns ((true, v), l) /\
    le_grid sol v /\ le_grid v values.
Proof.
  intros Hs Hle Hf.
  destruct (reduce_puzzle_returns fuel values Hf) as (ok & v & l & E & Hv & _).
  destruct (reduce_puzzle_above sol Hs fuel values (ok, v) l Hle E) as [Hok Hsv].
  cbn [fst snd] in Hok, Hsv. subst ok. now exists v, l.
Qed.

Lemma reduce_puzzle_keeps_solutions_witness :
  solved twins_grid_solution /\
  le_grid twins_grid_solution (grid_values twins_grid) /\
  multi (grid_values twins_grid) < 82 /\
  exists v l,
    reduce_puzzle 82 (grid_values twins_grid) = Returns ((true, v), l) /\
    le_grid twins_grid_solution v /\ le_grid v (grid_values twins_grid).
Proof.
  assert (H3 : multi (grid_values twins_grid) < 82) by (vm_compute; lia).
  split; [exact twins_grid_solution_solved|].
  split; [exact twins_grid_solution_below|]. split; [exact H3|].
  apply (reduce_puzzle_keeps_solutions 82 twins_grid_solution (grid_values twins_grid)
           twins_grid_solution_solved twins_grid_solution_below H3).
Defined.

(** ** [display] *)

Section DisplayFacts.

Lemma len_app (a b : string) : Str.len (a ++ b) = Str.len a + Str.len b.
Proof. induction a as [|c a IH]; simpl; [reflexivity | now rewrite <- IH]. Qed.

Lemma len_str_mul (s : string) (n : nat) : Str.len (str_mul s n) = n * Str.len s.
Proof. induction n as [|n IH]; simpl; [reflexivity | now rewrite len_app, IH]. Qed.

(** A centred string is as long as the width asked for, or as the string
    when that is longer. *)
Lemma len_center (s : string) (width : nat) :
  Str.len (center s width) = Nat.max (Str.len s) width.
Proof.
  unfold center. destruct (Nat.leb_spec width (Str.len s)) as [H|H]; [lia|].
  rewrite !len_app, !len_str_mul. change (Str.len " ") with 1.
  pose proof (Nat.div_mod_eq (width - Str.len s) 2) as D.
  pose proof (Nat.mod_upper_bound (width - Str.len s) 2 (Nat.neq_succ_0 1)) as U.
  set (q := (width - Str.len s) / 2) in *. set (m := (width - Str.len s) mod 2) in *.
  destruct (Nat.odd (width - Str.len s) && Nat.odd width); lia.
Qed.

Lemma len_concat_empty (l : list string) :
  Str.len (String.concat "" l) = list_sum (map Str.len l).
Proof.
  induction l as [|x [|y l] IH]; [reflexivity | simpl; lia |].
  change (String.concat "" (x :: y :: l)) with (x ++ "" ++ String.concat "" (y :: l))%string.
  rewrite !len_app, IH. reflexivity.
Qed.

Lemma cross_In (A B : string) (s t : ascii) :
  In s (Str.chars A) -> In t (Str.chars B) -> In (String s (String t "")) (cross A B).
Proof.
  intros Hs Ht. unfold cross. apply in_flat_map. exists s. split; [assumption|].
  now apply (in_map (fun t => String s (String t ""))).
Qed.

Lemma cell_fits (values : Values) (box : string) :
  In box boxes ->
  Str.len values.[box] <= list_max (map (fun s => Str.len values.[s]) boxes).
Proof.
  intros Hb.
  pose proof (proj1 (list_max_le (map (fun s => Str.len values.[s]) boxes) _)
                    (Nat.le_refl _)) as H.
  rewrite Forall_forall in H. apply H.
  now apply (in_map (fun s => Str.len values.[s])).
Qed.

Lemma len_display_row (values : Values) (width : nat) (r : ascii) :
  (forall c, In c (Str.chars cols) ->
             Str.len values.[String r (String c "")] <= width) ->
  Str.len (display_row values width r) = 9 * width + 2.
Proof.
  intros H. unfold display_row. rewrite len_concat_empty, map_map.
  rewrite (map_ext_in _ (fun c => width + (if Str.contains "36" c then 1 else 0))).
  - simpl. lia.
  - intros c Hc. rewrite len_app, len_center. specialize (H c Hc).
    destruct (Str.contains "36" c); simpl; lia.
Qed.

Lemma len_display_line (width : nat) : Str.len (display_line width) = 9 * width + 2.
Proof.
  unfold display_line. cbn [List.repeat String.concat].
  rewrite !len_app, !len_str_mul. simpl. lia.
Qed.

Lemma display_lines (values : Values) (line : string) :
  In line (display values) ->
  let width := 1 + list_max (map (fun s => Str.len values.[s]) boxes) in
  line = display_line width \/
  exists r, In r (Str.chars rows) /\ line = display_row values width r.
Proof.
  unfold display. destruct (Dict.truthy values); [|intros []].
  intros H. cbv zeta. apply in_flat_map in H as (r & Hr & [<-|H]).
  - right. now exists r.
  - left. destruct (Str.contains "CF" r); [|destruct H].
    destruct H as [<-|[]]. reflexivity.
Qed.

Lemma display_length (values : Values) :
  Dict.truthy values = true -> List.length (display values) = 11.
Proof. intros H. unfold display. rewrite H. reflexivity. Qed.

Lemma display_line_lengths (values : Values) :
  Forall (fun line =>
            Str.len line
            = 9 * (1 + list_max (map (fun s => Str.len values.[s]) boxes)) + 2)
         (display values).
Proof.
  apply Forall_forall. intros line Hin.
  destruct (display_lines values line Hin) as [->|(r & Hr & ->)].
  - apply len_display_line.
  - apply len_display_row. intros c Hc.
    pose proof (cell_fits values (String r (String c "")) (cross_In rows cols r c Hr Hc)).
    lia.
Qed.

(** X13. For a dict of the 81 boxes [display] prints eleven lines, the
    nine rows and a rule after the third and after the sixth, all of the
    same length: nine columns one wider than the longest cell, and the two
    bars. *)
Theorem display_layout (values : Values) :
  grid_ok values ->
  let width := 1 + list_max (map (fun s => Str.len values.[s]) boxes) in
  List.length (display values) = 11 /\
  Forall (fun line => Str.len line = 9 * width + 2) (display values) /\
  nth 3 (display values) "" = display_line width /\
  nth 7 (display values) "" = display_line width.
Proof.
  intros Hk width. pose proof (grid_ok_nonempty values Hk) as Ht.
  split; [now apply display_length|]. split; [apply display_line_lengths|].
  unfold display. rewrite Ht. split; reflexivity.
Qed.

Lemma display_layout_witness :
  grid_ok twins_grid_solution /\
  List.length (display twins_grid_solution) = 11 /\
  Forall (fun line =>
            Str.len line
            = 9 * (1 + list_max (map (fun s => Str.len twins_grid_solution.[s]) boxes)) + 2)
         (display twins_grid_solution) /\
  nth 3 (display twins_grid_solution) ""
  = display_line (1 + list_max (map (fun s => Str.len twins_grid_solution.[s]) boxes)) /\
  nth 7 (display twins_grid_solution) ""
  = display_line (1 + list_max (map (fun s => Str.len twins_grid_solution.[s]) boxes)).
Proof.
  assert (H : grid_ok twins_grid_solution) by (vm_compute; reflexivity).
  split; [exact H|]. apply (display_layout twins_grid_solution H).
Defined.

Lemma digits_of_app (a b : string) : digits_of (a ++ b) = digits_of a ++ digits_of b.
Proof. unfold digits_of. now rewrite chars_app, filter_app. Qed.

Lemma digits_of_str_mul (s : string) (n : nat) :
  digits_of s = [] -> digits_of (str_mul s n) = [].
Proof.
  intros H. induction n as [|n IH]; [reflexivity|].
  simpl. now rewrite digits_of_app, H, IH.
Qed.

Lemma digits_of_center (s : string) (width : nat) : digits_of (center s width) = digits_of s.
Proof.
  unfold center. destruct (width <=? Str.len s); [reflexivity|].
  rewrite !digits_of_app, !digits_of_str_mul by reflexivity. apply app_nil_r.
Qed.

Lemma digits_of_digits (values : Values) (box : string) :
  digits_only values -> digits_of values.[box] = Str.chars values.[box].
Proof.
  intros Hd. unfold digits_of.
  assert (H : forall c, In c (Str.chars values.[box]) -> Str.is_digit c = true).
  { intros c Hc. apply (Hd box). now apply chars_contains. }
  induction (Str.chars values.[box]) as [|c l IH]; [reflexivity|].
  simpl. rewrite (H c (or_introl eq_refl)). f_equal. apply IH.
  intros c' Hc'. apply H. now right.
Qed.

Lemma digits_of_concat_empty (l : list string) :
  digits_of (String.concat "" l) = flat_map digits_of l.
Proof.
  induction l as [|x [|y l] IH]; [reflexivity | simpl; now rewrite app_nil_r |].
  change (String.concat "" (x :: y :: l)) with (x ++ "" ++ String.concat "" (y :: l))%string.
  rewrite !digits_of_app, IH. reflexivity.
Qed.

Lemma digits_of_display_row (values : Values) (width : nat) (r : ascii) :
  digits_only values ->
  digits_of (display_row values width r)
  = flat_map (fun c => Str.chars values.[String r (String c "")]) (Str.chars cols).
Proof.
  intros Hd. unfold display_row. rewrite digits_of_concat_empty.
  induction (Str.chars cols) as [|c l IH]; [reflexivity|].
  cbn [map flat_map]. rewrite IH, digits_of_app, digits_of_center, digits_of_digits by assumption.
  destruct (Str.contains "36" c); cbn; now rewrite app_nil_r.
Qed.

Lemma digits_of_display_line (width : nat) : digits_of (display_line width) = [].
Proof.
  unfold display_line. cbn [List.repeat String.concat].
  now rewrite !digits_of_app, !digits_of_str_mul.
Qed.

Lemma flat_map_cross {X} (g : string -> list X) (A B : string) :
  flat_map g (cross A B)
  = flat_map (fun s => flat_map (fun t => g (String s (String t ""))) (Str.chars B))
             (Str.chars A).
Proof.
  induction A as [|a A IH]; [reflexivity|].
  rewrite cross_cons, flat_map_app, IH.
  change (Str.chars (String a A)) with (a :: Str.chars A). cbn [flat_map].
  f_equal. clear IH. induction (Str.chars B) as [|b l IHl]; [reflexivity|].
  cbn [map flat_map]. now rewrite IHl.
Qed.

Lemma digits_of_display (values : Values) :
  Dict.truthy values = true -> digits_only values ->
  flat_map digits_of (display values)
  = flat_map (fun box => Str.chars values.[box]) boxes.
Proof.
  intros Ht Hd. unfold boxes. rewrite flat_map_cross.
  unfold display. rewrite Ht.
  induction (Str.chars rows) as [|r l IH]; [reflexivity|].
  cbn [flat_map]. rewrite flat_map_app, IH. cbn [flat_map].
  rewrite digits_of_display_row by assumption. rewrite <- app_assoc. f_equal.
  destruct (Str.contains "CF" r); [|reflexivity].
  cbn [flat_map app]. now rewrite digits_of_display_line.
Qed.

(** X14. The digits of what [display] prints, read line by line, are the
    cells of the grid in the order of the boxes: the padding, the bars and
    the rules add none, and no digit of a cell is lost. *)
Theorem display_shows_the_cells (values : Values) :
  grid_ok values -> digits_only values ->
  flat_map digits_of (display values)
  = flat_map (fun box => Str.chars values.[box]) boxes.
Proof.
  intros Hk Hd. apply digits_of_display; [|assumption]. now apply grid_ok_nonempty.
Qed.

Lemma display_shows_the_cells_witness :
  grid_ok twins_grid_solution /\ digits_only twins_grid_solution /\
  flat_map digits_of (display twins_grid_solution)
  = flat_map (fun box => Str.chars twins_grid_solution.[box]) boxes.
Proof.
  assert (H1 : grid_ok twins_grid_solution) by (vm_compute; reflexivity).
  assert (H2 : digits_only twins_grid_solution).
  { apply candidates_digits_only. vm_compute. reflexivity. }
  split; [exact H1|]. split; [exact H2|].
  apply (display_shows_the_cells twins_grid_solution H1 H2).
Defined.

End DisplayFacts.

(** ** The boards recorded in [assignments] *)

Section RecordedBoards.

Lemma records_below_refl (w : World) (values : Values) : records_below w w values.
Proof. exists []. split; [now rewrite app_nil_r | constructor]. Qed.

Lemma records_below_trans (w1 w2 w3 : World) (values : Values) :
  records_below w1 w2 values -> records_below w2 w3 values -> records_below w1 w3 values.
Proof.
  intros (l1 & E1 & F1) (l2 & E2 & F2). exists (l1 ++ l2). split.
  - now rewrite E2, E1, app_assoc.
  - now apply Forall_app.
Qed.

Lemma records_below_le (w w' : World) (values' values : Values) :
  le_grid values' values -> records_below w w' values' -> records_below w w' values.
Proof.
  intros Hle (l & E & F). exists l. split; [assumption|].
  eapply Forall_impl; [|exact F]. intros board Hb. now apply (le_grid_trans Hb).
Qed.

(** The board [assign_value] records is the dict it leaves. *)
Lemma assign_value_log (values : Values) (box value : string) :
  Forall (fun board => board = fst (assign_value values box value))
         (snd (assign_value values box value)).
Proof.
  unfold assign_value. destruct (String.eqb values.[box] value); [constructor|].
  destruct (Str.len value =? 1); repeat constructor.
Qed.

Lemma for_each_log {X} (P Q : Values -> Prop) (xs : list X)
      (body : Values -> X -> Logged Values) (values : Values) :
  (forall v x, In x xs -> P v -> P (fst (body v x)) /\ Forall Q (snd (body v x))) ->
  P values ->
  P (fst (for_each xs body values)) /\ Forall Q (snd (for_each xs body values)).
Proof.
  revert values. induction xs as [|x xs IH]; intros values Hbody HP.
  - split; [assumption | constructor].
  - cbn [for_each]. unfold bind.
    destruct (Hbody values x (or_introl eq_refl) HP) as [HP1 HQ1].
    destruct (body values x) as [a l1]. cbn [fst snd] in HP1, HQ1.
    destruct (IH a) as [HP2 HQ2]; [|assumption|].
    { intros v y Hy. apply Hbody. now right. }
    destruct (for_each xs body a) as [b l2]. cbn [fst snd] in *.
    split; [assumption | now apply Forall_app].
Qed.

Lemma eliminate_box_log (values0 values : Values) (box : string) :
  Str.len values.[box] <= 1 -> le_grid values values0 ->
  le_grid (fst (eliminate_box values box)) values0 /\
  Forall (fun board => le_grid board values0) (snd (eliminate_box values box)).
Proof.
  intros L Hle. unfold eliminate_box.
  apply (for_each_log (fun v => le_grid v values0) (fun board => le_grid board values0));
    [|assumption].
  intros v peer _ Hv.
  assert (Hnew : le_grid (fst (assign_value v peer (Str.replace v.[peer] values.[box] "")))
                         values0).
  { eapply le_grid_trans; [|exact Hv]. apply assign_value_le. now apply shrinks_replace. }
  split; [assumption|].
  eapply Forall_impl; [|apply assign_value_log]. now intros board ->.
Qed.

Lemma eliminate_log (values : Values) :
  Forall (fun board => le_grid board values) (snd (eliminate values)).
Proof.
  unfold eliminate.
  apply (for_each_log (fun v => le_grid v values) (fun board => le_grid board values));
    [|apply le_grid_refl].
  intros v box Hbox Hv. apply eliminate_box_log; [|assumption].
  pose proof (solved_values_len values box Hbox) as L.
  pose proof (le_grid_get box Hv) as [_ L']. lia.
Qed.

Lemma reduce_puzzle_log (fuel : nat) (values : Values) (r : bool * Values) (l : Log) :
  reduce_puzzle fuel values = Returns (r, l) ->
  Forall (fun board => le_grid board values) l.
Proof.
  revert values r l. induction fuel as [|fuel IH]; intros values r l E; [discriminate|].
  rewrite reduce_puzzle_S in E. cbv zeta in E.
  pose proof (eliminate_log values) as H1.
  destruct (negb _); [inversion E; subst; exact H1|].
  destruct (_ =? _); [inversion E; subst; exact H1|].
  destruct (reduce_puzzle fuel (reduce_step values)) as [[r2 l2]| |] eqn:E2;
    try discriminate.
  inversion E; subst. apply Forall_app. split; [exact H1|].
  eapply Forall_impl; [|exact (IH _ _ _ E2)].
  intros board Hb. apply (le_grid_trans Hb). apply reduce_step_le.
Qed.

Lemma branch_world_log (w : World) (values : ref) (box : string) (number : ascii) :
  assignments (snd (branch_world w values box number))
  = assignments w ++ snd (assign_value (deref w values) box (Str.of_char number)).
Proof.
  unfold branch_world.
  destruct (alloc w (deref w values)) as [nv w1] eqn:Ea.
  assert (E1 : nv = List.length (heap w)) by (apply (f_equal fst) in Ea; exact (eq_sym Ea)).
  assert (E2 : w1 = snd (alloc w (deref w values))) by (rewrite Ea; reflexivity).
  clear Ea. subst nv w1. cbn [snd].
  rewrite deref_alloc_new. reflexivity.
Qed.

Lemma try_numbers_log (srch : World -> ref -> Outcome (Result * World))
      (values : ref) (box : string) (v1 : Values) :
  (forall w r res w',
      r < List.length (heap w) -> grid_ok (deref w r) -> srch w r = Returns (res, w') ->
      frame_but r w w' /\ records_below w w' (deref w r)) ->
  grid_ok v1 ->
  forall numbers w res w',
    (forall d, In d numbers -> Str.contains v1.[box] d = true) ->
    values < List.length (heap w) -> deref w values = v1 ->
    try_numbers srch values box numbers w = Returns (res, w') ->
    records_below w w' v1.
Proof.
  intros Hsrch Hk. induction numbers as [|d rest IH]; intros w res w' Hc Hv Ev E.
  - inversion E; subst. apply records_below_refl.
  - rewrite try_numbers_cons in E.
    destruct (branch_world_frame w values box d) as (B1 & B2 & B3 & B4).
    pose proof (branch_world_log w values box d) as B5.
    set (nw := branch_world w values box d) in *. rewrite Ev in B3, B5.
    assert (Hle : le_grid (fst (assign_value v1 box (Str.of_char d))) v1).
    { apply assign_value_le, shrinks_of_char, Hc. now left. }
    assert (R0 : records_below w (snd nw) v1).
    { exists (snd (assign_value v1 box (Str.of_char d))). split; [exact B5|].
      eapply Forall_impl; [|apply assign_value_log]. now intros board ->. }
    destruct (srch (snd nw) (fst nw)) as [[attempt w1]| |] eqn:Es; try discriminate.
    destruct (Hsrch (snd nw) (fst nw) attempt w1) as [[F1 F2] R1]; [lia | | exact Es |].
    { rewrite B3. exact (le_grid_ok _ _ Hle Hk). }
    rewrite B3 in R1. apply (records_below_le _ _ _ _ Hle) in R1.
    pose proof (records_below_trans _ _ _ _ R0 R1) as R01.
    destruct (truthy w1 attempt); [inversion E; subst; exact R01|].
    apply (records_below_trans _ _ _ _ R01). apply (IH w1 res w').
    + intros d' Hd'. apply Hc. now right.
    + lia.
    + rewrite F2 by lia. rewrite B4 by assumption. exact Ev.
    + exact E.
Qed.

Lemma search_log (fuel : nat) (w : World) (r : ref) (res : Result) (w' : World) :
  r < List.length (heap w) -> grid_ok (deref w r) ->
  search fuel w r = Returns (res, w') -> records_below w w' (deref w r).
Proof.
  revert w r res w'. induction fuel as [|fuel IH]; intros w r res w' Hr Hk E;
    [discriminate|].
  rewrite search_S in E.
  destruct (reduce_puzzle (S fuel) (deref w r)) as [[[ok v1] l]| |] eqn:Er;
    try discriminate.
  cbv zeta in E.
  pose proof (reduce_puzzle_log (S fuel) (deref w r) (ok, v1) l Er) as Hl.
  pose proof (reduce_puzzle_result (S fuel) (deref w r) (ok, v1) l Er) as [Hle _].
  cbn [snd] in Hle.
  set (w1 := append_log (store w r v1) l) in *.
  assert (R1 : records_below w w1 (deref w r)) by (exists l; split; [reflexivity | exact Hl]).
  assert (Hlen : List.length (heap w1) = List.length (heap w)).
  { unfold w1, append_log. cbn [heap]. unfold store. cbn [heap]. apply list_set_length. }
  assert (Ev : deref w1 r = v1) by (apply deref_append_store; exact Hr).
  destruct (negb _); [injection E as _ Ew; rewrite <- Ew; exact R1|].
  destruct (forallb _ _); [injection E as _ Ew; rewrite <- Ew; exact R1|].
  rewrite Ev in E.
  destruct (choose_box v1) as [[box bv]|] eqn:Ec; [|discriminate].
  assert (Hk1 : grid_ok v1) by exact (le_grid_ok _ _ Hle Hk).
  destruct (choose_box_spec v1 box bv Hk1 Ec) as (Hb & Ebv & L).
  apply (records_below_trans _ _ _ _ R1). apply (records_below_le _ _ _ _ Hle).
  apply (try_numbers_log (search fuel) r box v1) with (numbers := Str.chars bv) (res := res).
  - intros w2 r2 res2 w2' Hr2 Hk2 E2. split.
    + now apply (search_frame fuel w2 r2 res2 w2').
    + now apply (IH w2 r2 res2 w2').
  - exact Hk1.
  - intros d Hd. rewrite Ebv. now apply chars_contains.
  - lia.
  - exact Ev.
  - exact E.
Qed.

End RecordedBoards.

(** X15. [assignments] only grows during [search], and every board
    recorded is a refinement of the grid [search] was called on: it has the
    same boxes, and each cell of it holds candidates of that grid only. *)
Theorem recorded_boards_refine_the_grid (fuel : nat) (w : World) (r : ref)
        (res : Result) (w' : World) :
  r < List.length (heap w) -> grid_ok (deref w r) ->
  search fuel w r = Returns (res, w') ->
  exists l, assignments w' = assignments w ++ l /\
            Forall (fun board => le_grid board (deref w r)) l.
Proof. intros Hr Hk E. exact (search_log fuel w r res w' Hr Hk E). Qed.

Lemma recorded_boards_refine_the_grid_witness :
  0 < List.length (heap (world_of second_grid)) /\
  grid_ok (deref (world_of second_grid) 0) /\
  search 82 (world_of second_grid) 0
  = Returns (search_result second_grid, search_world second_grid) /\
  exists l, assignments (search_world second_grid)
            = assignments (world_of second_grid) ++ l /\
            Forall (fun board => le_grid board (deref (world_of second_grid) 0)) l.
Proof.
  assert (H1 : 0 < List.length (heap (world_of second_grid))) by (simpl; lia).
  assert (H2 : grid_ok (deref (world_of second_grid) 0)) by (vm_compute; reflexivity).
  assert (H3 : search 82 (world_of second_grid) 0
               = Returns (search_result second_grid, search_world second_grid))
    by (vm_compute; reflexivity).
  split; [exact H1|]. split; [exact H2|]. split; [exact H3|].
  apply (recorded_boards_refine_the_grid 82 (world_of second_grid) 0
           (search_result second_grid) (search_world second_grid) H1 H2 H3).
Defined.

(** ** The entry point: [display(solve(grid))] *)

Section EntryPoint.






End EntryPoint.
